(** * Encrypted record store: tasks and feedback boxes

    A shallow embedding of the two contracts of the repository,
    [EncryptedTasks] (src/contracts/EncryptedTasks.sol) and
    [EncryptedFeedback] (src/unnamed/part_001), and the properties of
    their record store, statistics, secondary indices and access grants.

    Modelling conventions.
    - [uint256] and [uint8] values are [N]; Solidity 0.8 checked
      arithmetic is written out ([add256], [sub256]) and reverts with
      [Panic 0x11] on overflow or underflow; an array access out of
      bounds reverts with [Panic 0x32].
    - A transaction is a function from the state to a [Result]: a revert
      carries the reason string of the failing [require] and no state,
      so every failure leaves the whole store as it was.
    - A Solidity [mapping] is a [gmap] read through an accessor that
      returns the zero value for an absent key.
    - Events are write-only logs that no contract function reads; they
      are not part of the state.
    - The fhevm library is the external confidential-computing service:
      [fromExternal] hands back the submitted handle once its proof is
      accepted and [allow] records a decryption right in an access
      control list, which is kept as a set of (handle, principal) pairs. *)

From stdpp Require Import gmap strings list fin_maps.

Local Open Scope N_scope.

(** ** Execution results *)

Inductive Result (A : Type) : Type :=
| Ok (a : A)
| Revert (reason : string)
| Panic (code : N).
Arguments Ok {A} a.
Arguments Revert {A} reason.
Arguments Panic {A} code.

Global Instance Result_ret : MRet Result := @Ok.
Global Instance Result_bind : MBind Result := λ A B f m,
  match m with
  | Ok a => f a
  | Revert r => Revert r
  | Panic c => Panic c
  end.

Definition require (cond : bool) (reason : string) : Result unit :=
  if cond then Ok tt else Revert reason.

Definition address : Type := N.
Definition euint32 : Type := N.
Definition externalEuint32 : Type := N.
Definition bytes : Type := list N.

Definition UINT256_MAX : N := Eval vm_compute in 2 ^ 256 - 1.

Definition add256 (a b : N) : Result N :=
  if a + b <=? UINT256_MAX then Ok (a + b) else Panic 0x11.

Definition sub256 (a b : N) : Result N :=
  if b <=? a then Ok (a - b) else Panic 0x11.

Definition mul256 (a b : N) : Result N :=
  if a * b <=? UINT256_MAX then Ok (a * b) else Panic 0x11.

Definition uint8 (n : N) : N := n mod 256.

Definition len {A} (l : list A) : N := N.of_nat (length l).

Definition nonempty (s : string) : bool := 0 <? N.of_nat (String.length s).

(** ** The fhevm boundary *)

Module FHE.

Definition fromExternal (h : externalEuint32) (inputProof : bytes) : euint32 := h.

Definition allow (h : euint32) (who : address)
    (acl : gset (euint32 * address)) : gset (euint32 * address) :=
  {[ (h, who) ]} ∪ acl.

End FHE.

Record Env := mkEnv {
  msg_sender : address;
  block_timestamp : N;
  this : address
}.

(** ** EncryptedTasks *)

Module Tasks.

Inductive TaskStatus := Todo | InProgress | Completed.
Inductive Priority := Low | Medium | High.

Global Instance TaskStatus_eq_dec : EqDecision TaskStatus.
Proof. solve_decision. Defined.
Global Instance Priority_eq_dec : EqDecision Priority.
Proof. solve_decision. Defined.

Record Task := mkTask {
  id : N;
  owner : address;
  encryptedDescription : list euint32;
  title : string;
  status : TaskStatus;
  priority : Priority;
  dueDate : N;
  category : string;
  tags : list string;
  createdAt : N;
  updatedAt : N;
  completedAt : N;
  chunkCount : N;
  isArchived : bool;
  isFavorite : bool;
  color : string
}.

Record TaskMetadata := mkTaskMetadata {
  md_id : N;
  md_title : string;
  md_status : TaskStatus;
  md_priority : Priority;
  md_dueDate : N;
  md_category : string;
  md_tags : list string;
  md_createdAt : N;
  md_updatedAt : N;
  md_completedAt : N;
  md_chunkCount : N;
  md_isArchived : bool;
  md_isFavorite : bool;
  md_color : string;
  md_owner : address
}.

Record UserStats := mkUserStats {
  totalTasks : N;
  todoTasks : N;
  inProgressTasks : N;
  completedTasks : N;
  archivedTasks : N;
  favoriteTasks : N;
  overdueTasks : N;
  totalStorage : N
}.

Record SharedTaskReference := mkSharedTaskReference {
  ref_owner : address;
  ref_taskId : N
}.

Global Instance Task_eq_dec : EqDecision Task.
Proof. solve_decision. Defined.
Global Instance TaskMetadata_eq_dec : EqDecision TaskMetadata.
Proof. solve_decision. Defined.
Global Instance UserStats_eq_dec : EqDecision UserStats.
Proof. solve_decision. Defined.
Global Instance SharedTaskReference_eq_dec : EqDecision SharedTaskReference.
Proof. solve_decision. Defined.

Record State := mkState {
  userTasks : gmap address (list Task);
  userStats : gmap address UserStats;
  tasksByCategory : gmap (address * string) (list N);
  tasksByTag : gmap (address * string) (list N);
  sharedWithMe : gmap address (list SharedTaskReference);
  acl : gset (euint32 * address)
}.

Definition MAX_CHUNKS_PER_TASK : N := 128.
Definition MAX_TASKS_PER_USER : N := 1000.

Definition zeroStats : UserStats := mkUserStats 0 0 0 0 0 0 0 0.

Definition zeroMetadata : TaskMetadata :=
  mkTaskMetadata 0 EmptyString Todo Low 0 EmptyString [] 0 0 0 0 false false EmptyString 0.

Definition init : State := mkState ∅ ∅ ∅ ∅ ∅ ∅.

(** *** Storage accessors: a mapping reads as its zero value where unset *)

Definition tasksOf (st : State) (a : address) : list Task :=
  default [] (userTasks st !! a).

Definition statsOf (st : State) (a : address) : UserStats :=
  default zeroStats (userStats st !! a).

Definition categoryBucket (st : State) (a : address) (c : string) : list N :=
  default [] (tasksByCategory st !! (a, c)).

Definition tagBucket (st : State) (a : address) (t : string) : list N :=
  default [] (tasksByTag st !! (a, t)).

Definition sharedOf (st : State) (a : address) : list SharedTaskReference :=
  default [] (sharedWithMe st !! a).

(** *** Field updates *)

Definition with_totalTasks (n : N) (s : UserStats) : UserStats :=
  mkUserStats n (todoTasks s) (inProgressTasks s) (completedTasks s)
    (archivedTasks s) (favoriteTasks s) (overdueTasks s) (totalStorage s).
Definition with_todoTasks (n : N) (s : UserStats) : UserStats :=
  mkUserStats (totalTasks s) n (inProgressTasks s) (completedTasks s)
    (archivedTasks s) (favoriteTasks s) (overdueTasks s) (totalStorage s).
Definition with_inProgressTasks (n : N) (s : UserStats) : UserStats :=
  mkUserStats (totalTasks s) (todoTasks s) n (completedTasks s)
    (archivedTasks s) (favoriteTasks s) (overdueTasks s) (totalStorage s).
Definition with_completedTasks (n : N) (s : UserStats) : UserStats :=
  mkUserStats (totalTasks s) (todoTasks s) (inProgressTasks s) n
    (archivedTasks s) (favoriteTasks s) (overdueTasks s) (totalStorage s).
Definition with_archivedTasks (n : N) (s : UserStats) : UserStats :=
  mkUserStats (totalTasks s) (todoTasks s) (inProgressTasks s) (completedTasks s)
    n (favoriteTasks s) (overdueTasks s) (totalStorage s).
Definition with_favoriteTasks (n : N) (s : UserStats) : UserStats :=
  mkUserStats (totalTasks s) (todoTasks s) (inProgressTasks s) (completedTasks s)
    (archivedTasks s) n (overdueTasks s) (totalStorage s).
Definition with_totalStorage (n : N) (s : UserStats) : UserStats :=
  mkUserStats (totalTasks s) (todoTasks s) (inProgressTasks s) (completedTasks s)
    (archivedTasks s) (favoriteTasks s) (overdueTasks s) n.

Definition with_owner (a : address) (t : Task) : Task :=
  mkTask (id t) a (encryptedDescription t) (title t) (status t) (priority t)
    (dueDate t) (category t) (tags t) (createdAt t) (updatedAt t)
    (completedAt t) (chunkCount t) (isArchived t) (isFavorite t) (color t).
Definition with_encryptedDescription (d : list euint32) (t : Task) : Task :=
  mkTask (id t) (owner t) d (title t) (status t) (priority t)
    (dueDate t) (category t) (tags t) (createdAt t) (updatedAt t)
    (completedAt t) (chunkCount t) (isArchived t) (isFavorite t) (color t).
Definition with_status (s : TaskStatus) (t : Task) : Task :=
  mkTask (id t) (owner t) (encryptedDescription t) (title t) s (priority t)
    (dueDate t) (category t) (tags t) (createdAt t) (updatedAt t)
    (completedAt t) (chunkCount t) (isArchived t) (isFavorite t) (color t).
Definition with_priority (p : Priority) (t : Task) : Task :=
  mkTask (id t) (owner t) (encryptedDescription t) (title t) (status t) p
    (dueDate t) (category t) (tags t) (createdAt t) (updatedAt t)
    (completedAt t) (chunkCount t) (isArchived t) (isFavorite t) (color t).
Definition with_updatedAt (n : N) (t : Task) : Task :=
  mkTask (id t) (owner t) (encryptedDescription t) (title t) (status t) (priority t)
    (dueDate t) (category t) (tags t) (createdAt t) n
    (completedAt t) (chunkCount t) (isArchived t) (isFavorite t) (color t).
Definition with_completedAt (n : N) (t : Task) : Task :=
  mkTask (id t) (owner t) (encryptedDescription t) (title t) (status t) (priority t)
    (dueDate t) (category t) (tags t) (createdAt t) (updatedAt t)
    n (chunkCount t) (isArchived t) (isFavorite t) (color t).
Definition with_isArchived (b : bool) (t : Task) : Task :=
  mkTask (id t) (owner t) (encryptedDescription t) (title t) (status t) (priority t)
    (dueDate t) (category t) (tags t) (createdAt t) (updatedAt t)
    (completedAt t) (chunkCount t) b (isFavorite t) (color t).
Definition with_isFavorite (b : bool) (t : Task) : Task :=
  mkTask (id t) (owner t) (encryptedDescription t) (title t) (status t) (priority t)
    (dueDate t) (category t) (tags t) (createdAt t) (updatedAt t)
    (completedAt t) (chunkCount t) (isArchived t) b (color t).

(** *** Storage writes *)

Definition write_tasks (a : address) (l : list Task) (st : State) : State :=
  mkState (<[a := l]> (userTasks st)) (userStats st) (tasksByCategory st)
    (tasksByTag st) (sharedWithMe st) (acl st).

Definition write_task (a : address) (taskId : N) (t : Task) (st : State) : State :=
  write_tasks a (<[N.to_nat taskId := t]> (tasksOf st a)) st.

Definition write_stats (a : address) (s : UserStats) (st : State) : State :=
  mkState (userTasks st) (<[a := s]> (userStats st)) (tasksByCategory st)
    (tasksByTag st) (sharedWithMe st) (acl st).

Definition push_category (a : address) (c : string) (taskId : N) (st : State) : State :=
  mkState (userTasks st) (userStats st)
    (<[(a, c) := categoryBucket st a c ++ [taskId]]> (tasksByCategory st))
    (tasksByTag st) (sharedWithMe st) (acl st).

Definition push_tag (a : address) (taskId : N) (st : State) (t : string) : State :=
  mkState (userTasks st) (userStats st) (tasksByCategory st)
    (<[(a, t) := tagBucket st a t ++ [taskId]]> (tasksByTag st))
    (sharedWithMe st) (acl st).

Definition push_shared (a : address) (r : SharedTaskReference) (st : State) : State :=
  mkState (userTasks st) (userStats st) (tasksByCategory st) (tasksByTag st)
    (<[a := sharedOf st a ++ [r]]> (sharedWithMe st)) (acl st).

Definition write_acl (s : gset (euint32 * address)) (st : State) : State :=
  mkState (userTasks st) (userStats st) (tasksByCategory st) (tasksByTag st)
    (sharedWithMe st) s.

(** *** Modifiers *)

Definition taskExists (st : State) (sender : address) (taskId : N) : Result unit :=
  require (taskId <? len (tasksOf st sender)) "Task does not exist".

Definition withinLimits (st : State) (sender : address) (chunksLength : N) : Result unit :=
  require (0 <? chunksLength) "Empty task";;
  require (chunksLength <=? MAX_CHUNKS_PER_TASK) "Task too large";;
  require (totalTasks (statsOf st sender) <? MAX_TASKS_PER_USER) "Max tasks reached".

(** [userTasks[a][taskId]]: an access past the end panics. *)
Definition taskAt (st : State) (a : address) (taskId : N) : Result Task :=
  match tasksOf st a !! N.to_nat taskId with
  | Some t => Ok t
  | None => Panic 0x32
  end.

(** The ingestion loop shared by [createTask] and [updateTask]: each chunk
    is converted, then opened to the caller and to the contract. *)
Definition ingest (env : Env) (inputProof : bytes)
    (acc : list euint32 * gset (euint32 * address)) (e : externalEuint32)
    : list euint32 * gset (euint32 * address) :=
  let chunk := FHE.fromExternal e inputProof in
  (acc.1 ++ [chunk], FHE.allow chunk (this env) (FHE.allow chunk (msg_sender env) acc.2)).

Definition decStatus (s : TaskStatus) (stats : UserStats) : Result UserStats :=
  match s with
  | Todo => n ← sub256 (todoTasks stats) 1; Ok (with_todoTasks n stats)
  | InProgress => n ← sub256 (inProgressTasks stats) 1; Ok (with_inProgressTasks n stats)
  | Completed => n ← sub256 (completedTasks stats) 1; Ok (with_completedTasks n stats)
  end.

(** *** Core functions *)

Definition createTask (env : Env) (encryptedChunks : list externalEuint32)
    (inputProof : bytes) (title_ : string) (priority_ : Priority) (dueDate_ : N)
    (category_ : string) (tags_ : list string) (color_ : string)
    (st : State) : Result (State * N) :=
  let sender := msg_sender env in
  withinLimits st sender (len encryptedChunks);;
  require (nonempty title_) "Title required";;
  let '(chunks, acl') := foldl (ingest env inputProof) ([], acl st) encryptedChunks in
  let taskId := len (tasksOf st sender) in
  let task :=
    mkTask taskId sender chunks title_ Todo priority_ dueDate_ category_ tags_
      (block_timestamp env) (block_timestamp env) 0
      (uint8 (len encryptedChunks)) false false color_ in
  let stats := statsOf st sender in
  total ← add256 (totalTasks stats) 1;
  let stats := with_totalTasks total stats in
  todo ← add256 (todoTasks stats) 1;
  let stats := with_todoTasks todo stats in
  storage ← add256 (totalStorage stats) (len encryptedChunks);
  let stats := with_totalStorage storage stats in
  let st := write_acl acl' st in
  let st := write_tasks sender (tasksOf st sender ++ [task]) st in
  let st := write_stats sender stats st in
  let st := if nonempty category_ then push_category sender category_ taskId st else st in
  let st := foldl (push_tag sender taskId) st tags_ in
  Ok (st, taskId).

Definition updateTask (env : Env) (taskId : N) (encryptedChunks : list externalEuint32)
    (inputProof : bytes) (title_ : string) (priority_ : Priority) (dueDate_ : N)
    (category_ : string) (tags_ : list string) (color_ : string)
    (st : State) : Result State :=
  let sender := msg_sender env in
  taskExists st sender taskId;;
  require (0 <? len encryptedChunks) "Empty task";;
  require (len encryptedChunks <=? MAX_CHUNKS_PER_TASK) "Task too large";;
  require (nonempty title_) "Title required";;
  task ← taskAt st sender taskId;
  let stats := statsOf st sender in
  storage ← sub256 (totalStorage stats) (chunkCount task);
  let stats := with_totalStorage storage stats in
  storage ← add256 (totalStorage stats) (len encryptedChunks);
  let stats := with_totalStorage storage stats in
  let '(chunks, acl') := foldl (ingest env inputProof) ([], acl st) encryptedChunks in
  let task :=
    mkTask (id task) (owner task) chunks title_ (status task) priority_ dueDate_
      category_ tags_ (createdAt task) (block_timestamp env) (completedAt task)
      (uint8 (len encryptedChunks)) (isArchived task) (isFavorite task) color_ in
  Ok (write_task sender taskId task (write_stats sender stats (write_acl acl' st))).

Definition deleteTask (env : Env) (taskId : N) (st : State) : Result State :=
  let sender := msg_sender env in
  taskExists st sender taskId;;
  task ← taskAt st sender taskId;
  let stats := statsOf st sender in
  storage ← sub256 (totalStorage stats) (chunkCount task);
  let stats := with_totalStorage storage stats in
  stats ← decStatus (status task) stats;
  stats ← (if isArchived task
           then n ← sub256 (archivedTasks stats) 1; Ok (with_archivedTasks n stats)
           else Ok stats);
  stats ← (if isFavorite task
           then n ← sub256 (favoriteTasks stats) 1; Ok (with_favoriteTasks n stats)
           else Ok stats);
  let task := with_encryptedDescription [] task in
  let task := with_owner 0 task in
  Ok (write_task sender taskId task (write_stats sender stats st)).

Definition updateTaskStatus (env : Env) (taskId : N) (newStatus : TaskStatus)
    (st : State) : Result State :=
  let sender := msg_sender env in
  taskExists st sender taskId;;
  task ← taskAt st sender taskId;
  require (negb (owner task =? 0)) "Task deleted";;
  if decide (status task ≠ newStatus) then
    stats ← decStatus (status task) (statsOf st sender);
    '(stats, task) ←
      match newStatus with
      | Todo =>
          n ← add256 (todoTasks stats) 1;
          Ok (with_todoTasks n stats, with_completedAt 0 task)
      | InProgress =>
          n ← add256 (inProgressTasks stats) 1;
          Ok (with_inProgressTasks n stats, with_completedAt 0 task)
      | Completed =>
          n ← add256 (completedTasks stats) 1;
          Ok (with_completedTasks n stats, with_completedAt (block_timestamp env) task)
      end;
    let task := with_status newStatus task in
    let task := with_updatedAt (block_timestamp env) task in
    Ok (write_task sender taskId task (write_stats sender stats st))
  else Ok st.

Definition updateTaskPriority (env : Env) (taskId : N) (newPriority : Priority)
    (st : State) : Result State :=
  let sender := msg_sender env in
  taskExists st sender taskId;;
  task ← taskAt st sender taskId;
  require (negb (owner task =? 0)) "Task deleted";;
  if decide (priority task ≠ newPriority) then
    let task := with_priority newPriority task in
    let task := with_updatedAt (block_timestamp env) task in
    Ok (write_task sender taskId task st)
  else Ok st.

Definition setArchived (env : Env) (taskId : N) (archived : bool)
    (st : State) : Result State :=
  let sender := msg_sender env in
  taskExists st sender taskId;;
  task ← taskAt st sender taskId;
  require (negb (owner task =? 0)) "Task deleted";;
  if decide (isArchived task ≠ archived) then
    let task := with_isArchived archived task in
    let task := with_updatedAt (block_timestamp env) task in
    let stats := statsOf st sender in
    n ← (if archived then add256 (archivedTasks stats) 1
         else sub256 (archivedTasks stats) 1);
    Ok (write_stats sender (with_archivedTasks n stats) (write_task sender taskId task st))
  else Ok st.

Definition setFavorite (env : Env) (taskId : N) (favorite : bool)
    (st : State) : Result State :=
  let sender := msg_sender env in
  taskExists st sender taskId;;
  task ← taskAt st sender taskId;
  require (negb (owner task =? 0)) "Task deleted";;
  if decide (isFavorite task ≠ favorite) then
    let task := with_isFavorite favorite task in
    let task := with_updatedAt (block_timestamp env) task in
    let stats := statsOf st sender in
    n ← (if favorite then add256 (favoriteTasks stats) 1
         else sub256 (favoriteTasks stats) 1);
    Ok (write_stats sender (with_favoriteTasks n stats) (write_task sender taskId task st))
  else Ok st.

Definition shareTask (env : Env) (taskId : N) (recipient : address)
    (st : State) : Result State :=
  let sender := msg_sender env in
  taskExists st sender taskId;;
  require (negb (recipient =? 0)) "Invalid recipient";;
  require (negb (recipient =? sender)) "Cannot share with yourself";;
  task ← taskAt st sender taskId;
  require (negb (owner task =? 0)) "Task deleted";;
  let acl' := foldl (λ s chunk, FHE.allow chunk recipient s) (acl st)
                (encryptedDescription task) in
  Ok (push_shared recipient (mkSharedTaskReference sender taskId) (write_acl acl' st)).

(** *** View functions *)

Definition getTasksByCategory (env : Env) (category_ : string) (st : State) : list N :=
  categoryBucket st (msg_sender env) category_.

Definition getTasksByTag (env : Env) (tag : string) (st : State) : list N :=
  tagBucket st (msg_sender env) tag.

Definition getMyStats (env : Env) (st : State) : UserStats :=
  statsOf st (msg_sender env).

Definition getTasksCount (env : Env) (st : State) : N :=
  len (tasksOf st (msg_sender env)).

Definition sharedMetadata (r : SharedTaskReference) (task : Task) : TaskMetadata :=
  mkTaskMetadata (ref_taskId r) (title task) (status task) (priority task)
    (dueDate task) (category task) (tags task) (createdAt task) (updatedAt task)
    (completedAt task) (chunkCount task) (isArchived task) (isFavorite task)
    (color task) (ref_owner r).

(** The loop of [getSharedTasks]: [metadata] is the memory array allocated
    with one zero-valued slot per reference; slot [i] is assigned only when
    the referenced task still has an owner. *)
Fixpoint getSharedTasks_loop (st : State) (refs : list SharedTaskReference) (i : nat)
    (metadata : list TaskMetadata) : Result (list TaskMetadata) :=
  match refs with
  | [] => Ok metadata
  | r :: refs' =>
      task ← taskAt st (ref_owner r) (ref_taskId r);
      let metadata :=
        if negb (owner task =? 0) then <[i := sharedMetadata r task]> metadata
        else metadata in
      getSharedTasks_loop st refs' (S i) metadata
  end.

Definition getSharedTasks (env : Env) (st : State) : Result (list TaskMetadata) :=
  let refs := sharedOf st (msg_sender env) in
  getSharedTasks_loop st refs 0 (replicate (length refs) zeroMetadata).

(** The membership scan of [getSharedTaskContent]. *)
Definition isShared (st : State) (grantee owner_ : address) (taskId : N) : bool :=
  existsb (λ r, (ref_owner r =? owner_) && (ref_taskId r =? taskId)) (sharedOf st grantee).

(** *** Transactions and reachable states *)

Inductive Call :=
| CreateTask (encryptedChunks : list externalEuint32) (inputProof : bytes)
    (title_ : string) (priority_ : Priority) (dueDate_ : N) (category_ : string)
    (tags_ : list string) (color_ : string)
| UpdateTask (taskId : N) (encryptedChunks : list externalEuint32) (inputProof : bytes)
    (title_ : string) (priority_ : Priority) (dueDate_ : N) (category_ : string)
    (tags_ : list string) (color_ : string)
| DeleteTask (taskId : N)
| UpdateTaskStatus (taskId : N) (newStatus : TaskStatus)
| UpdateTaskPriority (taskId : N) (newPriority : Priority)
| SetArchived (taskId : N) (archived : bool)
| SetFavorite (taskId : N) (favorite : bool)
| ShareTask (taskId : N) (recipient : address).

Definition exec (env : Env) (c : Call) (st : State) : Result State :=
  match c with
  | CreateTask chunks proof t p d c tg col =>
      r ← createTask env chunks proof t p d c tg col st; Ok r.1
  | UpdateTask i chunks proof t p d c tg col =>
      updateTask env i chunks proof t p d c tg col st
  | DeleteTask i => deleteTask env i st
  | UpdateTaskStatus i s => updateTaskStatus env i s st
  | UpdateTaskPriority i p => updateTaskPriority env i p st
  | SetArchived i b => setArchived env i b st
  | SetFavorite i b => setFavorite env i b st
  | ShareTask i r => shareTask env i r st
  end.

(** A history of transactions, each with its own caller and clock. *)
Fixpoint run (txs : list (Env * Call)) (st : State) : Result State :=
  match txs with
  | [] => Ok st
  | (env, c) :: txs' => st' ← exec env c st; run txs' st'
  end.

Inductive reachable : State → Prop :=
| reachable_init : reachable init
| reachable_step st env c st' :
    reachable st → exec env c st = Ok st' → reachable st'.

(** What slot [i] of the array returned by [getSharedTasks] is to hold for
    the reference at position [i]: the metadata of the record when it is
    live, the zero value when its owner is the null sentinel. *)
Definition sharedSlot (st : State) (r : SharedTaskReference) : TaskMetadata :=
  match tasksOf st (ref_owner r) !! N.to_nat (ref_taskId r) with
  | Some task => if decide (owner task = 0) then zeroMetadata else sharedMetadata r task
  | None => zeroMetadata
  end.

(** A record in an owner's array is owned by that owner or by nobody. *)
Definition owner_inv (st : State) : Prop :=
  ∀ a k t, tasksOf st a !! k = Some t → owner t = a ∨ owner t = 0.

(** Every stored reference points inside its owner's task array. *)
Definition refs_in_range (st : State) : Prop :=
  ∀ g r, r ∈ sharedOf st g →
    (N.to_nat (ref_taskId r) < length (tasksOf st (ref_owner r)))%nat.

(** The state a history leads to (the initial state if it reverts). *)
Definition state_after (txs : list (Env * Call)) : State :=
  match run txs init with
  | Ok st => st
  | _ => init
  end.

(** The live records of an owner and the storage they hold. *)
Definition live (t : Task) : bool := negb (owner t =? 0).

Definition liveTasks (st : State) (a : address) : list Task :=
  filter (λ t, live t = true) (tasksOf st a).

Definition liveStorage (st : State) (a : address) : N :=
  foldr (λ t acc, chunkCount t + acc) 0 (liveTasks st a).

End Tasks.

(** ** EncryptedFeedback *)

Module Feedback.

Inductive Sentiment := Positive | Neutral | Negative.
Inductive BoxCategory := Team | Product | Event | Course | General.

Global Instance Sentiment_eq_dec : EqDecision Sentiment.
Proof. solve_decision. Defined.
Global Instance BoxCategory_eq_dec : EqDecision BoxCategory.
Proof. solve_decision. Defined.

Record FeedbackBox := mkFeedbackBox {
  box_id : N;
  box_owner : address;
  box_title : string;
  box_description : string;
  box_category : BoxCategory;
  isActive : bool;
  createdAt : N;
  closedAt : N;
  submissionCount : N;
  allowRatings : bool;
  allowSentiment : bool
}.

Record Feedback := mkFeedback {
  id : N;
  boxId : N;
  encryptedContent : list euint32;
  rating : N;
  sentiment : Sentiment;
  submittedAt : N;
  isRead : bool;
  chunkCount : N
}.

Record BoxStats := mkBoxStats {
  totalSubmissions : N;
  unreadCount : N;
  avgRating : N;
  positiveCount : N;
  neutralCount : N;
  negativeCount : N
}.

Global Instance FeedbackBox_eq_dec : EqDecision FeedbackBox.
Proof. solve_decision. Defined.
Global Instance Feedback_eq_dec : EqDecision Feedback.
Proof. solve_decision. Defined.
Global Instance BoxStats_eq_dec : EqDecision BoxStats.
Proof. solve_decision. Defined.

Record State := mkState {
  ownerBoxes : gmap address (list FeedbackBox);
  boxFeedback : gmap (N * N) Feedback;
  feedbackCountPerBox : gmap N N;
  boxOwners : gmap N address;
  globalBoxCounter : N;
  acl : gset (euint32 * address)
}.

Definition MAX_CHUNKS_PER_FEEDBACK : N := 128.
Definition MAX_BOXES_PER_OWNER : N := 100.

Definition zeroFeedback : Feedback := mkFeedback 0 0 [] 0 Positive 0 false 0.

Definition init : State := mkState ∅ ∅ ∅ ∅ 0 ∅.

Definition boxesOf (st : State) (a : address) : list FeedbackBox :=
  default [] (ownerBoxes st !! a).

Definition feedbackAt (st : State) (globalBoxId feedbackId : N) : Feedback :=
  default zeroFeedback (boxFeedback st !! (globalBoxId, feedbackId)).

Definition feedbackCount (st : State) (globalBoxId : N) : N :=
  default 0 (feedbackCountPerBox st !! globalBoxId).

Definition boxOwner (st : State) (globalBoxId : N) : address :=
  default 0 (boxOwners st !! globalBoxId).

Definition write_boxes (a : address) (l : list FeedbackBox) (st : State) : State :=
  mkState (<[a := l]> (ownerBoxes st)) (boxFeedback st) (feedbackCountPerBox st)
    (boxOwners st) (globalBoxCounter st) (acl st).

Definition write_feedback (globalBoxId feedbackId : N) (f : Feedback) (st : State) : State :=
  mkState (ownerBoxes st) (<[(globalBoxId, feedbackId) := f]> (boxFeedback st))
    (feedbackCountPerBox st) (boxOwners st) (globalBoxCounter st) (acl st).

Definition write_count (globalBoxId n : N) (st : State) : State :=
  mkState (ownerBoxes st) (boxFeedback st) (<[globalBoxId := n]> (feedbackCountPerBox st))
    (boxOwners st) (globalBoxCounter st) (acl st).

Definition write_boxOwner (globalBoxId : N) (a : address) (st : State) : State :=
  mkState (ownerBoxes st) (boxFeedback st) (feedbackCountPerBox st)
    (<[globalBoxId := a]> (boxOwners st)) (globalBoxCounter st) (acl st).

Definition write_counter (n : N) (st : State) : State :=
  mkState (ownerBoxes st) (boxFeedback st) (feedbackCountPerBox st)
    (boxOwners st) n (acl st).

Definition write_acl (s : gset (euint32 * address)) (st : State) : State :=
  mkState (ownerBoxes st) (boxFeedback st) (feedbackCountPerBox st)
    (boxOwners st) (globalBoxCounter st) s.

Definition with_active (active : bool) (closed : N) (b : FeedbackBox) : FeedbackBox :=
  mkFeedbackBox (box_id b) (box_owner b) (box_title b) (box_description b)
    (box_category b) active (createdAt b) closed (submissionCount b)
    (allowRatings b) (allowSentiment b).

Definition with_details (t d : string) (b : FeedbackBox) : FeedbackBox :=
  mkFeedbackBox (box_id b) (box_owner b) t d
    (box_category b) (isActive b) (createdAt b) (closedAt b) (submissionCount b)
    (allowRatings b) (allowSentiment b).

Definition with_submissionCount (n : N) (b : FeedbackBox) : FeedbackBox :=
  mkFeedbackBox (box_id b) (box_owner b) (box_title b) (box_description b)
    (box_category b) (isActive b) (createdAt b) (closedAt b) n
    (allowRatings b) (allowSentiment b).

(** *** Modifiers and helpers *)

Definition boxExists (st : State) (sender : address) (boxId_ : N) : Result unit :=
  require (boxId_ <? len (boxesOf st sender)) "Box does not exist".

Definition boxAt (st : State) (a : address) (boxId_ : N) : Result FeedbackBox :=
  match boxesOf st a !! N.to_nat boxId_ with
  | Some b => Ok b
  | None => Panic 0x32
  end.

(** The linear search for the first box carrying a global id, with its
    position in the owner's array. *)
Fixpoint findFrom (boxes : list FeedbackBox) (globalBoxId : N) (i : nat)
    : option (nat * FeedbackBox) :=
  match boxes with
  | [] => None
  | b :: boxes' =>
      if box_id b =? globalBoxId then Some (i, b) else findFrom boxes' globalBoxId (S i)
  end.

Definition boxIsActive (st : State) (globalBoxId : N) : Result unit :=
  let owner := boxOwner st globalBoxId in
  require (negb (owner =? 0)) "Box does not exist";;
  match findFrom (boxesOf st owner) globalBoxId 0 with
  | Some (_, b) => require (isActive b) "Box is closed"
  | None => Revert "Box not found"
  end.

Definition onlyBoxOwner (env : Env) (st : State) (globalBoxId : N) : Result unit :=
  require (boxOwner st globalBoxId =? msg_sender env) "Not box owner".

Definition _findBox (st : State) (owner : address) (globalBoxId : N)
    : Result (nat * FeedbackBox) :=
  match findFrom (boxesOf st owner) globalBoxId 0 with
  | Some r => Ok r
  | None => Revert "Box not found"
  end.

(** *** Box management *)

Definition createBox (env : Env) (title_ description_ : string) (category_ : BoxCategory)
    (allowRatings_ allowSentiment_ : bool) (st : State) : Result (State * N) :=
  let sender := msg_sender env in
  require (len (boxesOf st sender) <? MAX_BOXES_PER_OWNER) "Max boxes reached";;
  require (nonempty title_) "Title required";;
  let globalBoxId := globalBoxCounter st in
  counter ← add256 (globalBoxCounter st) 1;
  let newBox :=
    mkFeedbackBox globalBoxId sender title_ description_ category_ true
      (block_timestamp env) 0 0 allowRatings_ allowSentiment_ in
  let st := write_counter counter st in
  let st := write_boxes sender (boxesOf st sender ++ [newBox]) st in
  let st := write_boxOwner globalBoxId sender st in
  Ok (st, globalBoxId).

Definition closeBox (env : Env) (boxId_ : N) (st : State) : Result State :=
  let sender := msg_sender env in
  boxExists st sender boxId_;;
  box ← boxAt st sender boxId_;
  require (isActive box) "Box already closed";;
  let box := with_active false (block_timestamp env) box in
  Ok (write_boxes sender (<[N.to_nat boxId_ := box]> (boxesOf st sender)) st).

Definition reopenBox (env : Env) (boxId_ : N) (st : State) : Result State :=
  let sender := msg_sender env in
  boxExists st sender boxId_;;
  box ← boxAt st sender boxId_;
  require (negb (isActive box)) "Box already active";;
  let box := with_active true 0 box in
  Ok (write_boxes sender (<[N.to_nat boxId_ := box]> (boxesOf st sender)) st).

Definition updateBox (env : Env) (boxId_ : N) (title_ description_ : string)
    (st : State) : Result State :=
  let sender := msg_sender env in
  boxExists st sender boxId_;;
  box ← boxAt st sender boxId_;
  let box := with_details (if nonempty title_ then title_ else box_title box)
               description_ box in
  Ok (write_boxes sender (<[N.to_nat boxId_ := box]> (boxesOf st sender)) st).

(** *** Submission and management of feedback *)

Definition ingest (env : Env) (owner : address) (inputProof : bytes)
    (acc : list euint32 * gset (euint32 * address)) (e : externalEuint32)
    : list euint32 * gset (euint32 * address) :=
  let chunk := FHE.fromExternal e inputProof in
  (acc.1 ++ [chunk], FHE.allow chunk (this env) (FHE.allow chunk owner acc.2)).

Definition submitFeedback (env : Env) (globalBoxId : N)
    (encryptedChunks : list externalEuint32) (inputProof : bytes)
    (rating_ : N) (sentiment_ : Sentiment) (st : State) : Result (State * N) :=
  boxIsActive st globalBoxId;;
  require ((0 <? len encryptedChunks) && (len encryptedChunks <=? MAX_CHUNKS_PER_FEEDBACK))
    "Invalid chunk count";;
  let owner := boxOwner st globalBoxId in
  '(pos, box) ← _findBox st owner globalBoxId;
  rating_ ← (if allowRatings box
             then require (rating_ <=? 5) "Rating must be 0-5";; Ok rating_
             else Ok 0);
  let feedbackId := feedbackCount st globalBoxId in
  count ← add256 (feedbackCount st globalBoxId) 1;
  let st := write_count globalBoxId count st in
  let slot := feedbackAt st globalBoxId feedbackId in
  let '(chunks, acl') :=
    foldl (ingest env owner inputProof) (encryptedContent slot, acl st) encryptedChunks in
  let newFeedback :=
    mkFeedback feedbackId globalBoxId chunks rating_ sentiment_ (block_timestamp env)
      false (uint8 (len encryptedChunks)) in
  let st := write_acl acl' (write_feedback globalBoxId feedbackId newFeedback st) in
  submissions ← add256 (submissionCount box) 1;
  let st := write_boxes owner (<[pos := with_submissionCount submissions box]> (boxesOf st owner)) st in
  Ok (st, feedbackId).

Definition markAsRead (env : Env) (globalBoxId feedbackId : N) (st : State) : Result State :=
  onlyBoxOwner env st globalBoxId;;
  let feedback := feedbackAt st globalBoxId feedbackId in
  require (0 <? submittedAt feedback) "Feedback does not exist";;
  let feedback :=
    mkFeedback (id feedback) (boxId feedback) (encryptedContent feedback) (rating feedback)
      (sentiment feedback) (submittedAt feedback) true (chunkCount feedback) in
  Ok (write_feedback globalBoxId feedbackId feedback st).

Definition deleteFeedback (env : Env) (globalBoxId feedbackId : N) (st : State) : Result State :=
  onlyBoxOwner env st globalBoxId;;
  let feedback := feedbackAt st globalBoxId feedbackId in
  require (0 <? submittedAt feedback) "Feedback does not exist";;
  let feedback :=
    mkFeedback (id feedback) (boxId feedback) [] (rating feedback)
      (sentiment feedback) 0 (isRead feedback) 0 in
  Ok (write_feedback globalBoxId feedbackId feedback st).

(** *** Box statistics *)

Record Tally := mkTally {
  totalRating : N;
  ratedCount : N;
  positive : N;
  neutral : N;
  negative : N;
  unread : N;
  activeCount : N
}.

Definition zeroTally : Tally := mkTally 0 0 0 0 0 0 0.

(** One iteration of the loop of [getBoxStats]. *)
Definition tallyOne (feedback : Feedback) (t : Tally) : Result Tally :=
  if 0 <? submittedAt feedback then
    active ← add256 (activeCount t) 1;
    '(total, rated) ←
      (if 0 <? rating feedback
       then total ← add256 (totalRating t) (rating feedback);
            rated ← add256 (ratedCount t) 1;
            Ok (total, rated)
       else Ok (totalRating t, ratedCount t));
    '(pos, neu, neg) ←
      match sentiment feedback with
      | Positive => n ← add256 (positive t) 1; Ok (n, neutral t, negative t)
      | Neutral => n ← add256 (neutral t) 1; Ok (positive t, n, negative t)
      | Negative => n ← add256 (negative t) 1; Ok (positive t, neutral t, n)
      end;
    unr ← (if negb (isRead feedback) then add256 (unread t) 1 else Ok (unread t));
    Ok (mkTally total rated pos neu neg unr active)
  else Ok t.

Fixpoint tallyLoop (st : State) (globalBoxId : N) (i : N) (remaining : nat) (t : Tally)
    : Result Tally :=
  match remaining with
  | O => Ok t
  | S remaining' =>
      t' ← tallyOne (feedbackAt st globalBoxId i) t;
      tallyLoop st globalBoxId (i + 1) remaining' t'
  end.

Definition getBoxStats (globalBoxId : N) (st : State) : Result BoxStats :=
  let count := feedbackCount st globalBoxId in
  t ← tallyLoop st globalBoxId 0 (N.to_nat count) zeroTally;
  avg ← (if 0 <? ratedCount t
         then scaled ← mul256 (totalRating t) 100; Ok (scaled / ratedCount t)
         else Ok 0);
  Ok (mkBoxStats (activeCount t) (unread t) avg (positive t) (neutral t) (negative t)).

Definition getFeedbackCount (globalBoxId : N) (st : State) : N :=
  feedbackCount st globalBoxId.

(** *** Transactions and reachable states *)

Inductive Call :=
| CreateBox (title_ description_ : string) (category_ : BoxCategory)
    (allowRatings_ allowSentiment_ : bool)
| CloseBox (boxId_ : N)
| ReopenBox (boxId_ : N)
| UpdateBox (boxId_ : N) (title_ description_ : string)
| SubmitFeedback (globalBoxId : N) (encryptedChunks : list externalEuint32)
    (inputProof : bytes) (rating_ : N) (sentiment_ : Sentiment)
| MarkAsRead (globalBoxId feedbackId : N)
| DeleteFeedback (globalBoxId feedbackId : N).

Definition exec (env : Env) (c : Call) (st : State) : Result State :=
  match c with
  | CreateBox t d c r s => r ← createBox env t d c r s st; Ok r.1
  | CloseBox b => closeBox env b st
  | ReopenBox b => reopenBox env b st
  | UpdateBox b t d => updateBox env b t d st
  | SubmitFeedback b chunks proof r s => r ← submitFeedback env b chunks proof r s st; Ok r.1
  | MarkAsRead b f => markAsRead env b f st
  | DeleteFeedback b f => deleteFeedback env b f st
  end.

Fixpoint run (txs : list (Env * Call)) (st : State) : Result State :=
  match txs with
  | [] => Ok st
  | (env, c) :: txs' => st' ← exec env c st; run txs' st'
  end.

Inductive reachable : State → Prop :=
| reachable_init : reachable init
| reachable_step st env c st' :
    reachable st → exec env c st = Ok st' → reachable st'.

(** *** The statistics as the specification words them

    A full scan over the box's non-deleted entries: counts of entries, of
    unread entries and of each sentiment, and the average of the ratings
    of the rated entries, scaled by 100 and rounded down. *)

Definition entries (st : State) (globalBoxId : N) : list Feedback :=
  (λ i, feedbackAt st globalBoxId (N.of_nat i)) <$> seq 0 (N.to_nat (feedbackCount st globalBoxId)).

Definition count_if (p : Feedback → bool) (l : list Feedback) : N :=
  len (List.filter p l).

Definition sum_ratings (l : list Feedback) : N :=
  foldr (λ f acc, rating f + acc) 0 l.

Definition specBoxStats (st : State) (globalBoxId : N) : BoxStats :=
  let live := List.filter (λ f, 0 <? submittedAt f) (entries st globalBoxId) in
  let rated := List.filter (λ f, 0 <? rating f) live in
  mkBoxStats
    (len live)
    (count_if (λ f, negb (isRead f)) live)
    (if 0 <? len rated then sum_ratings rated * 100 / len rated else 0)
    (count_if (λ f, bool_decide (sentiment f = Positive)) live)
    (count_if (λ f, bool_decide (sentiment f = Neutral)) live)
    (count_if (λ f, bool_decide (sentiment f = Negative)) live).

(** One iteration of the scan with the overflow checks left out, and the
    bound the counters obey after [k] iterations over entries rated at
    most 5. *)
Definition tallyAdd (t : Tally) (f : Feedback) : Tally :=
  if 0 <? submittedAt f then
    mkTally
      (totalRating t + (if 0 <? rating f then rating f else 0))
      (ratedCount t + (if 0 <? rating f then 1 else 0))
      (positive t + (if bool_decide (sentiment f = Positive) then 1 else 0))
      (neutral t + (if bool_decide (sentiment f = Neutral) then 1 else 0))
      (negative t + (if bool_decide (sentiment f = Negative) then 1 else 0))
      (unread t + (if negb (isRead f) then 1 else 0))
      (activeCount t + 1)
  else t.

Definition tallyBounded (k : N) (t : Tally) : Prop :=
  totalRating t ≤ 5 * k ∧ ratedCount t ≤ k ∧ positive t ≤ k ∧ neutral t ≤ k ∧
  negative t ≤ k ∧ unread t ≤ k ∧ activeCount t ≤ k.

Definition state_after (txs : list (Env * Call)) : State :=
  match run txs init with
  | Ok st => st
  | _ => init
  end.

End Feedback.

(** ** EncryptedTasks: the remaining view functions and the invariants of
    the store *)

Module TasksViews.
Import Tasks.

Definition toBytes32 (h : euint32) : N := h.

(** The [TaskMetadata] literal built by [getMyTasks], [getTaskContent] and
    [getSharedTaskContent]: every field of the record, with the owner
    supplied by the caller of the literal. *)
Definition metadataOf (task : Task) (owner_ : address) : TaskMetadata :=
  mkTaskMetadata (id task) (title task) (status task) (priority task)
    (dueDate task) (category task) (tags task) (createdAt task) (updatedAt task)
    (completedAt task) (chunkCount task) (isArchived task) (isFavorite task)
    (color task) owner_.

Definition getMyTasks (env : Env) (st : State) : list TaskMetadata :=
  (λ task, metadataOf task (msg_sender env)) <$> tasksOf st (msg_sender env).

(** The copy loop of the content readers: [chunkCount] iterations, each
    reading [encryptedDescription[i]], which panics past the end. *)
Fixpoint handlesLoop (description : list euint32) (i remaining : nat)
    (handles : list N) : Result (list N) :=
  match remaining with
  | O => Ok handles
  | S remaining' =>
      match description !! i with
      | Some chunk =>
          handlesLoop description (S i) remaining' (<[i := toBytes32 chunk]> handles)
      | None => Panic 0x32
      end
  end.

Definition readHandles (task : Task) : Result (list N) :=
  handlesLoop (encryptedDescription task) 0 (N.to_nat (chunkCount task))
    (replicate (N.to_nat (chunkCount task)) 0).

Definition getTaskContent (env : Env) (taskId : N) (st : State)
    : Result (list N * TaskMetadata) :=
  let sender := msg_sender env in
  taskExists st sender taskId;;
  task ← taskAt st sender taskId;
  require (negb (owner task =? 0)) "Task deleted";;
  handles ← readHandles task;
  Ok (handles, metadataOf task sender).

Definition getSharedTaskContent (env : Env) (owner_ : address) (taskId : N) (st : State)
    : Result (list N * TaskMetadata) :=
  require (negb (owner_ =? 0)) "Invalid owner";;
  require (taskId <? len (tasksOf st owner_)) "Task does not exist";;
  task ← taskAt st owner_ taskId;
  require (negb (owner task =? 0)) "Task deleted";;
  require (isShared st (msg_sender env) owner_ taskId) "Task not shared with you";;
  handles ← readHandles task;
  Ok (handles, metadataOf task owner_).

(** *** Sums and counts over an owner's array *)

Definition sumOver (w : Task → N) (l : list Task) : N :=
  foldr (λ t acc, w t + acc) 0 l.

Definition hasStatus (s : TaskStatus) (t : Task) : bool := bool_decide (status t = s).

(** The number of live records of [l] that satisfy [p]. *)
Definition countLive (p : Task → bool) (l : list Task) : N :=
  sumOver (λ t, if live t && p t then 1 else 0) l.

Definition storageOfLive (l : list Task) : N :=
  sumOver (λ t, if live t then chunkCount t else 0) l.

(** What one successful transaction of [sender] does to the sender's
    array [l] and counters [s]: nothing, one record appended, or one
    record replaced in place. With [guarded] set, the replaced record was
    live. *)
Inductive OwnerStep (sender : address) (grants : gset (euint32 * address))
    (guarded : bool) (l : list Task) (s : UserStats) : list Task → UserStats → Prop :=
| step_same : OwnerStep sender grants guarded l s l s
| step_append t s' :
    owner t = sender → status t = Todo → isArchived t = false → isFavorite t = false →
    (∀ h, h ∈ encryptedDescription t → (h, sender) ∈ grants) →
    todoTasks s' = todoTasks s + 1 → inProgressTasks s' = inProgressTasks s →
    completedTasks s' = completedTasks s → archivedTasks s' = archivedTasks s →
    favoriteTasks s' = favoriteTasks s → totalStorage s' = totalStorage s + chunkCount t →
    OwnerStep sender grants guarded l s (l ++ [t]) s'
| step_replace i t t' s' :
    l !! i = Some t →
    (guarded = true → owner t ≠ 0) →
    (owner t' = owner t ∨ owner t' = 0) →
    (∀ h, h ∈ encryptedDescription t' →
       h ∈ encryptedDescription t ∨ (h, sender) ∈ grants) →
    (owner t ≠ 0 →
       todoTasks s' + (if hasStatus Todo t then 1 else 0)
         = todoTasks s + (if live t' && hasStatus Todo t' then 1 else 0) ∧
       inProgressTasks s' + (if hasStatus InProgress t then 1 else 0)
         = inProgressTasks s + (if live t' && hasStatus InProgress t' then 1 else 0) ∧
       completedTasks s' + (if hasStatus Completed t then 1 else 0)
         = completedTasks s + (if live t' && hasStatus Completed t' then 1 else 0) ∧
       archivedTasks s' + (if isArchived t then 1 else 0)
         = archivedTasks s + (if live t' && isArchived t' then 1 else 0) ∧
       favoriteTasks s' + (if isFavorite t then 1 else 0)
         = favoriteTasks s + (if live t' && isFavorite t' then 1 else 0) ∧
       totalStorage s' + chunkCount t
         = totalStorage s + (if live t' then chunkCount t' else 0)) →
    OwnerStep sender grants guarded l s (<[i := t']> l) s'.

(** What holds of the array and the counters of owner [a] in every
    reachable state. *)
Record owner_wf (a : address) (l : list Task) (s : UserStats) : Prop := mk_owner_wf {
  wf_total : totalTasks s = len l;
  wf_quota : totalTasks s ≤ MAX_TASKS_PER_USER;
  wf_overdue : overdueTasks s = 0;
  wf_status : todoTasks s + inProgressTasks s + completedTasks s ≤ totalTasks s;
  wf_archived : archivedTasks s ≤ sumOver (λ t, if isArchived t then 1 else 0) l;
  wf_favorite : favoriteTasks s ≤ sumOver (λ t, if isFavorite t then 1 else 0) l;
  wf_storage : totalStorage s ≤ sumOver chunkCount l;
  wf_tasks : ∀ k t, l !! k = Some t →
    id t = N.of_nat k ∧ chunkCount t ≤ MAX_CHUNKS_PER_TASK ∧
    (owner t = a ∨ owner t = 0) ∧
    (owner t ≠ 0 → chunkCount t = len (encryptedDescription t) ∧ 0 < chunkCount t)
}.

Definition store_wf (st : State) : Prop :=
  ∀ a, owner_wf a (tasksOf st a) (statsOf st a).

(** What holds in addition when no transaction came from address 0 and
    [updateTask] and [deleteTask] were only applied to live records: the
    counters are the counts and sums over the live records. *)
Record counters_exact (l : list Task) (s : UserStats) : Prop := mk_counters_exact {
  exact_todo : todoTasks s = countLive (hasStatus Todo) l;
  exact_inProgress : inProgressTasks s = countLive (hasStatus InProgress) l;
  exact_completed : completedTasks s = countLive (hasStatus Completed) l;
  exact_archived : archivedTasks s = countLive isArchived l;
  exact_favorite : favoriteTasks s = countLive isFavorite l;
  exact_storage : totalStorage s = storageOfLive l
}.

Definition targetsLive (st : State) (env : Env) (c : Call) : Prop :=
  match c with
  | UpdateTask taskId _ _ _ _ _ _ _ _ | DeleteTask taskId =>
      ∃ t, tasksOf st (msg_sender env) !! N.to_nat taskId = Some t ∧ owner t ≠ 0
  | _ => True
  end.

Inductive reachable_live : State → Prop :=
| reachable_live_init : reachable_live init
| reachable_live_step st env c st' :
    reachable_live st → msg_sender env ≠ 0 → targetsLive st env c →
    exec env c st = Ok st' → reachable_live st'.

End TasksViews.

(** ** The task page of the front end (src/unnamed/part_005): the filter
    that selects the tasks to display *)

Module TasksPage.
Import Tasks.

Inductive View := ViewAll | ViewToday | ViewUpcoming | ViewCompleted.

(** [Number(x)] for a non-negative bigint: the nearest double, ties to
    even, as its exact integer value. *)
Definition toNumber (x : N) : N :=
  if x <? 2 ^ 53 then x
  else
    let e := N.log2 x - 52 in
    let q := x / 2 ^ e in
    let r := x mod 2 ^ e in
    let half := 2 ^ (e - 1) in
    let q' := if r <? half then q
              else if half <? r then q + 1
              else if N.even q then q else q + 1 in
    q' * 2 ^ e.

Definition isCompleted (task : TaskMetadata) : bool :=
  bool_decide (md_status task = Completed).

Definition filterTasks (selectedView : View) (todayEndTimestamp : N)
    (tasks : list TaskMetadata) : list TaskMetadata :=
  let filtered := List.filter (λ task, negb (md_owner task =? 0)) tasks in
  match selectedView with
  | ViewToday =>
      List.filter (λ task, negb (isCompleted task) && (0 <? md_dueDate task)
                           && (toNumber (md_dueDate task) <=? todayEndTimestamp)) filtered
  | ViewUpcoming =>
      List.filter (λ task, negb (isCompleted task) && (0 <? md_dueDate task)
                           && (todayEndTimestamp <? toNumber (md_dueDate task))) filtered
  | ViewCompleted => List.filter isCompleted filtered
  | ViewAll => List.filter (λ task, negb (md_isArchived task)) filtered
  end.

End TasksPage.

(** ** The read functions of EncryptedFeedback and its store invariant *)

Module FeedbackViews.
Import Feedback.

Record FeedbackMetadata := mkFeedbackMetadata {
  fm_id : N;
  fm_boxId : N;
  fm_rating : N;
  fm_sentiment : Sentiment;
  fm_submittedAt : N;
  fm_isRead : bool;
  fm_chunkCount : N
}.

Global Instance FeedbackMetadata_eq_dec : EqDecision FeedbackMetadata.
Proof. solve_decision. Defined.

(** A slot of a freshly allocated [FeedbackMetadata[]]. *)
Definition blankMetadata : FeedbackMetadata := mkFeedbackMetadata 0 0 0 Positive 0 false 0.

Definition feedbackMetadata (feedback : Feedback) : FeedbackMetadata :=
  mkFeedbackMetadata (id feedback) (boxId feedback) (rating feedback) (sentiment feedback)
    (submittedAt feedback) (isRead feedback) (chunkCount feedback).

Definition getMyBoxes (env : Env) (st : State) : list FeedbackBox :=
  boxesOf st (msg_sender env).

Definition getTotalBoxes (env : Env) (st : State) : N :=
  len (boxesOf st (msg_sender env)).

Definition getBoxDetails (globalBoxId : N) (st : State) : Result FeedbackBox :=
  let owner := boxOwner st globalBoxId in
  require (negb (owner =? 0)) "Box does not exist";;
  r ← _findBox st owner globalBoxId;
  Ok r.2.

(** The loop of [getBoxFeedback]: slot [i] of the result is written when
    entry [i] of the box has a submission time. *)
Fixpoint getBoxFeedback_loop (st : State) (globalBoxId : N) (i : N) (remaining : nat)
    (metadata : list FeedbackMetadata) : list FeedbackMetadata :=
  match remaining with
  | O => metadata
  | S remaining' =>
      let feedback := feedbackAt st globalBoxId i in
      let metadata :=
        if 0 <? submittedAt feedback
        then <[N.to_nat i := feedbackMetadata feedback]> metadata
        else metadata in
      getBoxFeedback_loop st globalBoxId (i + 1) remaining' metadata
  end.

Definition getBoxFeedback (env : Env) (globalBoxId : N) (st : State)
    : Result (list FeedbackMetadata) :=
  onlyBoxOwner env st globalBoxId;;
  let count := feedbackCount st globalBoxId in
  Ok (getBoxFeedback_loop st globalBoxId 0 (N.to_nat count)
        (replicate (N.to_nat count) blankMetadata)).

(** The copy loop of [getFeedbackContent] is the one of the content readers
    of EncryptedTasks, run over the length of the stored content itself. *)
Definition getFeedbackContent (env : Env) (globalBoxId feedbackId : N) (st : State)
    : Result (list N * FeedbackMetadata) :=
  onlyBoxOwner env st globalBoxId;;
  let feedback := feedbackAt st globalBoxId feedbackId in
  require (0 <? submittedAt feedback) "Feedback does not exist";;
  handles ← TasksViews.handlesLoop (encryptedContent feedback) 0
              (length (encryptedContent feedback))
              (replicate (length (encryptedContent feedback)) 0);
  Ok (handles, feedbackMetadata feedback).

(** *** The invariant of the store

    What every transaction preserves: each box sits in the array of its
    owner under a global id below the counter that [boxOwners] maps back
    to that owner, ids are not reused, an owner holds at most
    [MAX_BOXES_PER_OWNER] boxes, the submission counter of a box equals
    the feedback counter of its id, and the entries of a box occupy
    exactly the slots below its feedback counter. *)

Record feedback_wf (st : State) : Prop := mk_feedback_wf {
  fwf_boxes : ∀ a k b, boxesOf st a !! k = Some b →
    box_owner b = a ∧ box_id b < globalBoxCounter st ∧ boxOwner st (box_id b) = a ∧
    submissionCount b = feedbackCount st (box_id b) ∧
    (isActive b = true → closedAt b = 0);
  fwf_unique : ∀ a k k' b b', boxesOf st a !! k = Some b → boxesOf st a !! k' = Some b' →
    box_id b = box_id b' → k = k';
  fwf_quota : ∀ a, len (boxesOf st a) ≤ MAX_BOXES_PER_OWNER;
  fwf_owner : ∀ g, boxOwner st g ≠ 0 →
    ∃ k b, boxesOf st (boxOwner st g) !! k = Some b ∧ box_id b = g;
  fwf_counts : ∀ g, feedbackCount st g ≠ 0 → boxOwner st g ≠ 0;
  fwf_slots : ∀ g i, feedbackCount st g ≤ i → boxFeedback st !! (g, i) = None;
  fwf_entries : ∀ g i, i < feedbackCount st g →
    id (feedbackAt st g i) = i ∧ boxId (feedbackAt st g i) = g ∧
    chunkCount (feedbackAt st g i) = len (encryptedContent (feedbackAt st g i)) ∧
    chunkCount (feedbackAt st g i) ≤ MAX_CHUNKS_PER_FEEDBACK ∧
    ∀ h, h ∈ encryptedContent (feedbackAt st g i) → (h, boxOwner st g) ∈ acl st
}.

(** The statistics of [specBoxStats] as a function of the list of entries. *)
Definition statsOver (l : list Feedback) : BoxStats :=
  let live := List.filter (λ f, 0 <? submittedAt f) l in
  let rated := List.filter (λ f, 0 <? rating f) live in
  mkBoxStats
    (len live)
    (count_if (λ f, negb (isRead f)) live)
    (if 0 <? len rated then sum_ratings rated * 100 / len rated else 0)
    (count_if (λ f, bool_decide (sentiment f = Positive)) live)
    (count_if (λ f, bool_decide (sentiment f = Neutral)) live)
    (count_if (λ f, bool_decide (sentiment f = Negative)) live).

(** The fields of a box that only [createBox] writes. *)
Definition sameSettings (b b' : FeedbackBox) : Prop :=
  box_id b' = box_id b ∧ box_owner b' = box_owner b ∧ box_category b' = box_category b ∧
  createdAt b' = createdAt b ∧ allowRatings b' = allowRatings b ∧
  allowSentiment b' = allowSentiment b.

End FeedbackViews.

(** ** Principals and histories used in the examples *)

Module Scenarios.

Definition alice : address := 0xA11CE.
Definition bob : address := 0xB0B.
Definition as_alice : Env := mkEnv alice 1700000000 0xC0FFEE.
Definition as_bob : Env := mkEnv bob 1700000600 0xC0FFEE.

(** A task of [chunks] chunks in category home, tagged errand. *)
Definition newTask (chunks : nat) : Tasks.Call :=
  Tasks.CreateTask (replicate chunks 7) [] "Buy milk" Tasks.Low 0 "home" ["errand"]
    EmptyString.

(** Scenario B of the specification: a box that allows ratings receives a
    submission rated 4 and positive, then an unrated negative one. *)
Definition scenarioB : list (Env * Feedback.Call) :=
  [(as_alice, Feedback.CreateBox "Team retro" "How did it go" Feedback.Team true true);
   (as_bob, Feedback.SubmitFeedback 0 [11; 12] [] 4 Feedback.Positive);
   (as_bob, Feedback.SubmitFeedback 0 [13] [] 0 Feedback.Negative)].

(** A box that does not allow ratings receives a submission rated 200. *)
Definition unratedBox : list (Env * Feedback.Call) :=
  [(as_alice, Feedback.CreateBox "Course" "Anything" Feedback.Course false true);
   (as_bob, Feedback.SubmitFeedback 0 [11] [] 200 Feedback.Neutral)].

End Scenarios.

(** * Properties *)

Lemma bind_Ok {A B} (m : Result A) (f : A → Result B) (b : B) :
  m ≫= f = Ok b → ∃ a, m = Ok a ∧ f a = Ok b.
Proof. destruct m; simpl; eauto; discriminate. Qed.

Lemma require_Ok (cond : bool) (reason : string) (u : unit) :
  require cond reason = Ok u → cond = true.
Proof. destruct cond; simpl; [done | discriminate]. Qed.

Lemma sub256_Ok a b c : sub256 a b = Ok c → c + b = a.
Proof.
  unfold sub256. destruct (b <=? a) eqn:Hle; [|discriminate].
  intros [= <-]. apply N.leb_le in Hle. lia.
Qed.

(** Peel the successful prefix of a monadic computation. *)
Ltac inv_ok H :=
  repeat match type of H with
  | (_ ≫= _) = Ok _ =>
      let a := fresh "a" in let Ha := fresh "Ha" in
      apply bind_Ok in H as (a & Ha & H)
  | Ok _ = Ok _ => injection H as H
  | Revert _ = Ok _ => discriminate H
  | Panic _ = Ok _ => discriminate H
  end.


(** ** Properties of EncryptedTasks *)

Module TasksFacts.
Import Tasks Scenarios.

(** *** Reading back what was written *)

Lemma tasksOf_write_tasks a l st a' :
  tasksOf (write_tasks a l st) a' = if decide (a = a') then l else tasksOf st a'.
Proof.
  unfold tasksOf, write_tasks; simpl. rewrite lookup_insert.
  by destruct (decide (a = a')).
Qed.

Lemma tasksOf_write_task a i t st a' :
  tasksOf (write_task a i t st) a' =
  if decide (a = a') then <[N.to_nat i := t]> (tasksOf st a) else tasksOf st a'.
Proof. apply tasksOf_write_tasks. Qed.

Lemma length_tasksOf_write_task a i t st a' :
  length (tasksOf (write_task a i t st) a') = length (tasksOf st a').
Proof.
  rewrite tasksOf_write_task. destruct (decide (a = a')) as [->|]; [|done].
  by rewrite length_insert.
Qed.

Lemma sharedOf_push_shared a r st a' :
  sharedOf (push_shared a r st) a' =
  if decide (a = a') then sharedOf st a ++ [r] else sharedOf st a'.
Proof.
  unfold sharedOf at 1, push_shared; simpl. rewrite lookup_insert.
  by destruct (decide (a = a')).
Qed.

Lemma statsOf_write_stats a s st a' :
  statsOf (write_stats a s st) a' = if decide (a = a') then s else statsOf st a'.
Proof.
  unfold statsOf, write_stats; simpl. rewrite lookup_insert.
  by destruct (decide (a = a')).
Qed.

Lemma foldl_push_tag_frame a i tgs st :
  let st' := foldl (push_tag a i) st tgs in
  userTasks st' = userTasks st ∧ userStats st' = userStats st ∧
  tasksByCategory st' = tasksByCategory st ∧ sharedWithMe st' = sharedWithMe st ∧
  acl st' = acl st.
Proof.
  revert st. induction tgs as [|t tgs IH]; intros st; simpl; [done|].
  destruct (IH (push_tag a i st t)) as (-> & -> & -> & -> & ->). done.
Qed.

Lemma taskExists_Ok st a i u :
  taskExists st a i = Ok u → (N.to_nat i < length (tasksOf st a))%nat.
Proof.
  intros H. apply require_Ok in H. apply N.ltb_lt in H. unfold len in H. lia.
Qed.

Lemma taskAt_Ok st a i t :
  taskAt st a i = Ok t → tasksOf st a !! N.to_nat i = Some t.
Proof. unfold taskAt. destruct (_ !! _); [congruence | discriminate]. Qed.

Lemma taskAt_in_range st a i :
  (N.to_nat i < length (tasksOf st a))%nat → ∃ t, taskAt st a i = Ok t.
Proof.
  intros H. unfold taskAt. destruct (lookup_lt_is_Some_2 _ _ H) as [t ->]. eauto.
Qed.

(** Writes to one part of the store leave the other parts alone. *)

Lemma tasksOf_write_stats a s st a' : tasksOf (write_stats a s st) a' = tasksOf st a'.
Proof. reflexivity. Qed.
Lemma tasksOf_write_acl x st a' : tasksOf (write_acl x st) a' = tasksOf st a'.
Proof. reflexivity. Qed.
Lemma tasksOf_push_shared a r st a' : tasksOf (push_shared a r st) a' = tasksOf st a'.
Proof. reflexivity. Qed.
Lemma tasksOf_push_category a c i st a' : tasksOf (push_category a c i st) a' = tasksOf st a'.
Proof. reflexivity. Qed.
Lemma tasksOf_foldl_push_tag a i tgs st a' :
  tasksOf (foldl (push_tag a i) st tgs) a' = tasksOf st a'.
Proof. unfold tasksOf. by rewrite (proj1 (foldl_push_tag_frame a i tgs st)). Qed.

Lemma sharedOf_write_stats a s st a' : sharedOf (write_stats a s st) a' = sharedOf st a'.
Proof. reflexivity. Qed.
Lemma sharedOf_write_acl x st a' : sharedOf (write_acl x st) a' = sharedOf st a'.
Proof. reflexivity. Qed.
Lemma sharedOf_write_tasks a l st a' : sharedOf (write_tasks a l st) a' = sharedOf st a'.
Proof. reflexivity. Qed.
Lemma sharedOf_write_task a i t st a' : sharedOf (write_task a i t st) a' = sharedOf st a'.
Proof. reflexivity. Qed.
Lemma sharedOf_push_category a c i st a' : sharedOf (push_category a c i st) a' = sharedOf st a'.
Proof. reflexivity. Qed.
Lemma sharedOf_foldl_push_tag a i tgs st a' :
  sharedOf (foldl (push_tag a i) st tgs) a' = sharedOf st a'.
Proof.
  unfold sharedOf.
  by rewrite (proj1 (proj2 (proj2 (proj2 (foldl_push_tag_frame a i tgs st))))).
Qed.

Create Rewrite HintDb store.
#[local] Hint Rewrite tasksOf_write_stats tasksOf_write_acl tasksOf_push_shared
  tasksOf_push_category tasksOf_foldl_push_tag length_tasksOf_write_task
  sharedOf_write_stats sharedOf_write_acl sharedOf_write_tasks sharedOf_write_task
  sharedOf_push_category sharedOf_foldl_push_tag : store.

(** *** What every transaction does to the total counter

    [deleteTask] updates the storage, status, archive and favourite
    counters but never [totalTasks]; only [createTask] writes it. *)

Lemma decStatus_totalTasks s stats stats' :
  decStatus s stats = Ok stats' → totalTasks stats' = totalTasks stats.
Proof.
  unfold decStatus. intros H. destruct s; inv_ok H; subst; reflexivity.
Qed.

Lemma deleteTask_totalTasks env i st st' :
  deleteTask env i st = Ok st' →
  totalTasks (statsOf st' (msg_sender env)) = totalTasks (statsOf st (msg_sender env)).
Proof.
  unfold deleteTask. intros H.
  apply bind_Ok in H as (_ & _ & H).
  apply bind_Ok in H as (task & _ & H).
  apply bind_Ok in H as (storage & _ & H).
  apply bind_Ok in H as (s1 & Hs1 & H).
  apply bind_Ok in H as (s2 & Hs2 & H).
  apply bind_Ok in H as (s3 & Hs3 & H).
  injection H as <-.
  change (statsOf (write_task ?a ?i ?t ?s) ?b) with (statsOf s b).
  rewrite statsOf_write_stats, decide_True by done.
  apply decStatus_totalTasks in Hs1. simpl in Hs1.
  destruct (isArchived task); inv_ok Hs2; destruct (isFavorite task); inv_ok Hs3;
    subst; simpl; done.
Qed.

(** Everything else a successful [deleteTask] does: the record keeps its
    slot with its ciphertext cleared and its owner set to address 0, and
    the storage, status, archive and favourite counters go down. *)
Lemma deleteTask_effect env i st st' :
  deleteTask env i st = Ok st' →
  ∃ task, tasksOf st (msg_sender env) !! N.to_nat i = Some task ∧
    tasksOf st' (msg_sender env) =
      <[N.to_nat i := with_owner 0 (with_encryptedDescription [] task)]>
        (tasksOf st (msg_sender env)) ∧
    let s := statsOf st (msg_sender env) in
    let s' := statsOf st' (msg_sender env) in
    totalStorage s' + chunkCount task = totalStorage s ∧
    todoTasks s' + (if decide (status task = Todo) then 1 else 0) = todoTasks s ∧
    inProgressTasks s' + (if decide (status task = InProgress) then 1 else 0)
      = inProgressTasks s ∧
    completedTasks s' + (if decide (status task = Completed) then 1 else 0)
      = completedTasks s ∧
    archivedTasks s' + (if isArchived task then 1 else 0) = archivedTasks s ∧
    favoriteTasks s' + (if isFavorite task then 1 else 0) = favoriteTasks s.
Proof.
  unfold deleteTask. intros H.
  apply bind_Ok in H as (_ & _ & H).
  apply bind_Ok in H as (task & Hat & H).
  apply bind_Ok in H as (storage & Hst & H).
  apply bind_Ok in H as (s1 & Hs1 & H).
  apply bind_Ok in H as (s2 & Hs2 & H).
  apply bind_Ok in H as (s3 & Hs3 & H).
  injection H as <-. apply taskAt_Ok in Hat. apply sub256_Ok in Hst.
  exists task. split; [done|]. split.
  { rewrite tasksOf_write_task, decide_True by done. reflexivity. }
  cbv zeta.
  change (statsOf (write_task ?a ?i ?t ?s) ?b) with (statsOf s b).
  rewrite statsOf_write_stats, decide_True by done.
  unfold decStatus in Hs1.
  destruct (status task), (isArchived task), (isFavorite task);
    inv_ok Hs1; inv_ok Hs2; inv_ok Hs3; subst; simpl;
    repeat match goal with Hs : sub256 _ _ = Ok _ |- _ => apply sub256_Ok in Hs end;
    simpl in *; repeat split; lia.
Qed.

(** *** The guard on deleted records, where the code has it *)

Lemma guarded_mutators_reject_deleted env i st t :
  tasksOf st (msg_sender env) !! N.to_nat i = Some t →
  owner t = 0 →
  (∀ s, updateTaskStatus env i s st = Revert "Task deleted") ∧
  (∀ p, updateTaskPriority env i p st = Revert "Task deleted") ∧
  (∀ b, setArchived env i b st = Revert "Task deleted") ∧
  (∀ b, setFavorite env i b st = Revert "Task deleted") ∧
  (∀ r, r ≠ 0 → r ≠ msg_sender env → shareTask env i r st = Revert "Task deleted").
Proof.
  intros Ht Ho.
  assert (Hex : taskExists st (msg_sender env) i = Ok tt).
  { unfold taskExists, len. apply lookup_lt_Some in Ht.
    replace (i <? _) with true; [done|]. symmetry. apply N.ltb_lt. lia. }
  assert (Hat : taskAt st (msg_sender env) i = Ok t).
  { unfold taskAt. by rewrite Ht. }
  repeat split; intros;
    unfold updateTaskStatus, updateTaskPriority, setArchived, setFavorite, shareTask;
    rewrite Hex; simpl.
  1-4: by rewrite Hat; simpl; rewrite Ho.
  replace (r =? 0) with false by (symmetry; by apply N.eqb_neq).
  replace (r =? msg_sender env) with false by (symmetry; by apply N.eqb_neq).
  simpl. rewrite Hat; simpl. by rewrite Ho.
Qed.

(** *** The secondary indices *)

Lemma nonempty_spec s : nonempty s = true ↔ s ≠ EmptyString.
Proof.
  unfold nonempty. destruct s; simpl; split; done.
Qed.

Lemma categoryBucket_push_category a c i st a' c' :
  categoryBucket (push_category a c i st) a' c' =
  categoryBucket st a' c' ++ (if decide (a' = a ∧ c' = c) then [i] else []).
Proof.
  unfold categoryBucket at 1, push_category; simpl. rewrite lookup_insert.
  destruct (decide ((a, c) = (a', c'))) as [[= -> ->]|Hne].
  - by rewrite decide_True.
  - rewrite decide_False; [by rewrite app_nil_r | intros [-> ->]; done].
Qed.

Lemma tagBucket_push_tag a i st t a' t' :
  tagBucket (push_tag a i st t) a' t' =
  tagBucket st a' t' ++ (if decide (a' = a ∧ t = t') then [i] else []).
Proof.
  unfold tagBucket at 1, push_tag; simpl. rewrite lookup_insert.
  destruct (decide ((a, t) = (a', t'))) as [[= -> ->]|Hne].
  - by rewrite decide_True.
  - rewrite decide_False; [by rewrite app_nil_r | intros [-> ->]; done].
Qed.

(** The tag loop appends the id once per occurrence of the tag. *)
Lemma tagBucket_foldl_push_tag a i tgs st a' t' :
  tagBucket (foldl (push_tag a i) st tgs) a' t' =
  tagBucket st a' t' ++
    (if decide (a' = a) then replicate (length (filter (λ t, t = t') tgs)) i else []).
Proof.
  revert st. induction tgs as [|t tgs IH]; intros st; simpl.
  - destruct (decide (a' = a)); by rewrite app_nil_r.
  - rewrite IH, tagBucket_push_tag, <- app_assoc. f_equal.
    rewrite filter_cons.
    destruct (decide (a' = a)) as [->|Hne].
    + destruct (decide (t = t')) as [->|Hne].
      * by rewrite decide_True.
      * rewrite decide_False; [done | intros [_ ?]; done].
    + rewrite decide_False; [done | intros [? _]; done].
Qed.

Ltac split_cases H :=
  repeat first
    [ progress inv_ok H
    | match type of H with
      | context [if decide ?P then _ else _] => destruct (decide P)
      | context [let '(_, _) := ?x in _] => destruct x
      end ].

(** Only [createTask] writes the indices. *)
Lemma indices_frame env c st st' :
  exec env c st = Ok st' →
  match c with
  | CreateTask _ _ _ _ _ _ _ _ => True
  | _ => tasksByCategory st' = tasksByCategory st ∧ tasksByTag st' = tasksByTag st
  end.
Proof.
  intros H. destruct c; [done|..]; simpl in H;
    unfold updateTask, deleteTask, updateTaskStatus, updateTaskPriority,
      setArchived, setFavorite, shareTask in H;
    split_cases H; subst; done.
Qed.

(** *** Grants *)

Lemma foldl_allow_mono (r : address) (l : list euint32) (acl0 : gset (euint32 * address)) x :
  x ∈ acl0 → x ∈ foldl (λ s chunk, FHE.allow chunk r s) acl0 l.
Proof.
  revert acl0. induction l as [|c l IH]; intros acl0 Hx; simpl; [done|].
  apply IH. unfold FHE.allow. by apply elem_of_union_r.
Qed.

Lemma foldl_allow_elem (r : address) (l : list euint32) (acl0 : gset (euint32 * address)) c :
  c ∈ l → (c, r) ∈ foldl (λ s chunk, FHE.allow chunk r s) acl0 l.
Proof.
  revert acl0. induction l as [|c' l IH]; intros acl0 Hc; simpl.
  - by apply elem_of_nil in Hc.
  - apply elem_of_cons in Hc as [->|Hc]; [|by apply IH].
    apply foldl_allow_mono. unfold FHE.allow.
    by apply elem_of_union_l, elem_of_singleton.
Qed.

(** Granting what is already granted leaves the access control list as it is. *)
Lemma foldl_allow_absorb (r : address) (l : list euint32) (acl0 : gset (euint32 * address)) :
  (∀ c, c ∈ l → (c, r) ∈ acl0) →
  foldl (λ s chunk, FHE.allow chunk r s) acl0 l = acl0.
Proof.
  revert acl0. induction l as [|c l IH]; intros acl0 Hin; simpl; [done|].
  assert (Hc : FHE.allow c r acl0 = acl0).
  { unfold FHE.allow. apply subseteq_union_1_L, singleton_subseteq_l, Hin.
    apply list_elem_of_here. }
  rewrite Hc. apply IH. intros c' Hc'. apply Hin. by apply list_elem_of_further.
Qed.

(** *** Invariants of the reachable states *)

(** The task arrays never shrink. *)
Lemma exec_length_mono env c st st' a :
  exec env c st = Ok st' → (length (tasksOf st a) ≤ length (tasksOf st' a))%nat.
Proof.
  intros H. destruct c; simpl in H.
  - apply bind_Ok in H as ([st1 i] & H & [= <-]). unfold createTask in H.
    apply bind_Ok in H as (_ & _ & H). apply bind_Ok in H as (_ & _ & H).
    destruct (foldl _ _ encryptedChunks) as [cs acl'].
    apply bind_Ok in H as (n1 & _ & H). apply bind_Ok in H as (n2 & _ & H).
    apply bind_Ok in H as (n3 & _ & H). injection H as <- <-. simpl.
    autorewrite with store. destruct (nonempty category_); autorewrite with store;
      rewrite tasksOf_write_tasks; case_decide; subst;
      rewrite ?length_app; autorewrite with store; lia.
  - unfold updateTask in H. split_cases H. subst. by autorewrite with store.
  - unfold deleteTask in H. split_cases H. subst. by autorewrite with store.
  - unfold updateTaskStatus in H. split_cases H; subst; by autorewrite with store.
  - unfold updateTaskPriority in H. split_cases H; subst; by autorewrite with store.
  - unfold setArchived in H. split_cases H; subst; by autorewrite with store.
  - unfold setFavorite in H. split_cases H; subst; by autorewrite with store.
  - unfold shareTask in H. split_cases H; subst; by autorewrite with store.
Qed.

(** A reference enters a grantee's list only through [shareTask], which
    has checked that the task exists. *)
Lemma exec_shared env c st st' g r :
  exec env c st = Ok st' → r ∈ sharedOf st' g →
  r ∈ sharedOf st g ∨ (N.to_nat (ref_taskId r) < length (tasksOf st (ref_owner r)))%nat.
Proof.
  intros H Hr. destruct c; simpl in H.
  - apply bind_Ok in H as ([st1 i] & H & [= <-]). unfold createTask in H.
    apply bind_Ok in H as (_ & _ & H). apply bind_Ok in H as (_ & _ & H).
    destruct (foldl _ _ encryptedChunks) as [cs acl'].
    apply bind_Ok in H as (n1 & _ & H). apply bind_Ok in H as (n2 & _ & H).
    apply bind_Ok in H as (n3 & _ & H). injection H as <- <-. simpl in Hr.
    left. destruct (nonempty category_); by autorewrite with store in Hr.
  - unfold updateTask in H. split_cases H. subst. left. by autorewrite with store in Hr.
  - unfold deleteTask in H. split_cases H. subst. left. by autorewrite with store in Hr.
  - unfold updateTaskStatus in H. split_cases H; subst; left; by autorewrite with store in Hr.
  - unfold updateTaskPriority in H. split_cases H; subst; left; by autorewrite with store in Hr.
  - unfold setArchived in H. split_cases H; subst; left; by autorewrite with store in Hr.
  - unfold setFavorite in H. split_cases H; subst; left; by autorewrite with store in Hr.
  - unfold shareTask in H.
    apply bind_Ok in H as ([] & Hex & H).
    apply bind_Ok in H as ([] & _ & H). apply bind_Ok in H as ([] & _ & H).
    apply bind_Ok in H as (task & _ & H). apply bind_Ok in H as ([] & _ & H).
    injection H as <-. rewrite sharedOf_push_shared in Hr.
    case_decide; [|left; by autorewrite with store in Hr]. subst.
    apply elem_of_app in Hr as [Hr|Hr]; [left; by autorewrite with store in Hr|].
    apply list_elem_of_singleton in Hr as ->. right. simpl.
    by apply taskExists_Ok in Hex.
Qed.

Lemma reachable_refs_in_range st : reachable st → refs_in_range st.
Proof.
  induction 1 as [|st env c st' _ IH Hexec].
  - intros g r Hr. by apply elem_of_nil in Hr.
  - intros g r Hr.
    pose proof (exec_length_mono _ _ _ _ (ref_owner r) Hexec) as Hlen.
    destruct (exec_shared _ _ _ _ _ _ Hexec Hr) as [Hold|Hnew]; [|lia].
    specialize (IH _ _ Hold). lia.
Qed.

Lemma owner_inv_write_task st sender i task t' st' :
  owner_inv st → taskAt st sender i = Ok task →
  owner t' = owner task ∨ owner t' = 0 →
  (∀ a, tasksOf st' a = tasksOf (write_task sender i t' st) a) →
  owner_inv st'.
Proof.
  intros Hinv Hat Ho Heq a k t. rewrite Heq, tasksOf_write_task.
  apply taskAt_Ok in Hat. case_decide; subst; [|by apply Hinv].
  intros [(_ & <- & _)|(_ & Hk)]%list_lookup_insert_Some; [|by eapply Hinv].
  destruct Ho as [->| ->]; [by eapply Hinv | by right].
Qed.

Lemma exec_owner_inv env c st st' :
  exec env c st = Ok st' → owner_inv st → owner_inv st'.
Proof.
  intros H Hinv. destruct c; simpl in H.
  - apply bind_Ok in H as ([st1 i] & H & [= <-]). unfold createTask in H.
    apply bind_Ok in H as (_ & _ & H). apply bind_Ok in H as (_ & _ & H).
    destruct (foldl _ _ encryptedChunks) as [cs acl'].
    apply bind_Ok in H as (n1 & _ & H). apply bind_Ok in H as (n2 & _ & H).
    apply bind_Ok in H as (n3 & _ & H). injection H as <- <-. simpl.
    intros a k t. autorewrite with store.
    destruct (nonempty category_); autorewrite with store;
      rewrite tasksOf_write_tasks; (case_decide; subst; [|by apply Hinv]);
      autorewrite with store;
      (intros [Hk|(_ & Hk)]%lookup_app_Some; [by eapply Hinv|]);
      (apply list_lookup_singleton_Some in Hk as [_ <-]; by left).
  - unfold updateTask in H. split_cases H. subst.
    eapply owner_inv_write_task; [done | eassumption | | intros; reflexivity]. by left.
  - unfold deleteTask in H. split_cases H. subst.
    eapply owner_inv_write_task; [done | eassumption | | intros; reflexivity]. by right.
  - unfold updateTaskStatus in H. split_cases H; subst; [|done].
    eapply owner_inv_write_task; [done | eassumption | | intros; reflexivity].
    left.
    match goal with
    | Hm : match newStatus with _ => _ end = Ok _ |- _ =>
        destruct newStatus; inv_ok Hm; by subst
    end.
  - unfold updateTaskPriority in H. split_cases H; subst; [|done].
    eapply owner_inv_write_task; [done | eassumption | | intros; reflexivity]. by left.
  - unfold setArchived in H. split_cases H; subst; [|done].
    eapply owner_inv_write_task; [done | eassumption | | intros; reflexivity]. by left.
  - unfold setFavorite in H. split_cases H; subst; [|done].
    eapply owner_inv_write_task; [done | eassumption | | intros; reflexivity]. by left.
  - unfold shareTask in H. split_cases H; subst. done.
Qed.

Lemma reachable_owner_inv st : reachable st → owner_inv st.
Proof.
  induction 1 as [|st env c st' _ IH Hexec]; [done | by eapply exec_owner_inv].
Qed.

Lemma tasks_run_reachable txs st st' :
  reachable st → run txs st = Ok st' → reachable st'.
Proof.
  revert st. induction txs as [|[env c] txs IH]; intros st Hst H; simpl in H.
  - by injection H as <-.
  - apply bind_Ok in H as (st1 & Hstep & H).
    eapply IH; [|exact H]. by eapply reachable_step.
Qed.

(** *** The loop of [getSharedTasks] *)

Lemma getSharedTasks_loop_spec st refs pre :
  (∀ r, r ∈ refs →
     (N.to_nat (ref_taskId r) < length (tasksOf st (ref_owner r)))%nat) →
  getSharedTasks_loop st refs (length pre) (pre ++ replicate (length refs) zeroMetadata)
  = Ok (pre ++ (sharedSlot st <$> refs)).
Proof.
  revert pre. induction refs as [|r refs IH]; intros pre Hrange; simpl.
  - reflexivity.
  - destruct (taskAt_in_range st (ref_owner r) (ref_taskId r)) as [task Htask].
    { apply Hrange, list_elem_of_here. }
    rewrite Htask; simpl.
    assert (Hslot : (if negb (owner task =? 0)
                     then <[length pre := sharedMetadata r task]>
                            (pre ++ zeroMetadata :: replicate (length refs) zeroMetadata)
                     else pre ++ zeroMetadata :: replicate (length refs) zeroMetadata)
                    = (pre ++ [sharedSlot st r]) ++ replicate (length refs) zeroMetadata).
    { unfold sharedSlot. rewrite (taskAt_Ok _ _ _ _ Htask), <- app_assoc. simpl.
      destruct (decide (owner task = 0)) as [->|Hlive]; [done|].
      apply N.eqb_neq in Hlive as ->. simpl.
      rewrite insert_app_r_alt by lia. by rewrite Nat.sub_diag. }
    rewrite Hslot.
    replace (S (length pre)) with (length (pre ++ [sharedSlot st r]))
      by (rewrite length_app; simpl; lia).
    rewrite IH.
    + by rewrite <- app_assoc.
    + intros r' Hr'. by apply Hrange, list_elem_of_further.
Qed.

(** *** Where the code departs from the claims *)

Ltac by_evaluation :=
  repeat match goal with |- _ ∧ _ => split end; vm_compute; reflexivity.

(** C1. The status counters do not sum to [totalTasks] once a record has
    been deleted: after one [createTask] and one [deleteTask] the owner has
    no live record, the three status counters are all zero, and
    [totalTasks] is still 1. *)
Theorem status_counters_miss_total_after_delete :
  ∃ st, run [(as_alice, newTask 3); (as_alice, DeleteTask 0)] init = Ok st ∧
    liveTasks st alice = [] ∧
    todoTasks (getMyStats as_alice st) + inProgressTasks (getMyStats as_alice st)
      + completedTasks (getMyStats as_alice st) = 0 ∧
    totalTasks (getMyStats as_alice st) = 1.
Proof.
  exists (state_after [(as_alice, newTask 3); (as_alice, DeleteTask 0)]).
  by_evaluation.
Qed.

(** C2. [deleteTask] on a live, archived and favourite task does
    everything the claim lists except the decrement of the total: the
    status, archive and favourite counters and [totalStorage] go down, the
    ciphertext is cleared and the owner becomes address 0, but
    [totalTasks] keeps its value. *)
Theorem deleteTask_leaves_totalTasks :
  ∃ st st',
    run [(as_alice, newTask 3); (as_alice, SetArchived 0 true);
         (as_alice, SetFavorite 0 true)] init = Ok st ∧
    deleteTask as_alice 0 st = Ok st' ∧
    owner <$> tasksOf st alice = [alice] ∧
    owner <$> tasksOf st' alice = [0] ∧
    encryptedDescription <$> tasksOf st' alice = [[]] ∧
    statsOf st alice = mkUserStats 1 1 0 0 1 1 0 3 ∧
    statsOf st' alice = mkUserStats 1 0 0 0 0 0 0 0 ∧
    totalTasks (statsOf st alice) = 1 ∧ totalTasks (statsOf st' alice) = 1.
Proof.
  exists
    (state_after [(as_alice, newTask 3); (as_alice, SetArchived 0 true);
                  (as_alice, SetFavorite 0 true)]),
    (state_after [(as_alice, newTask 3); (as_alice, SetArchived 0 true);
                  (as_alice, SetFavorite 0 true); (as_alice, DeleteTask 0)]).
  by_evaluation.
Qed.

(** C3. [totalStorage] drifts away from the storage of the live records:
    [deleteTask] leaves the deleted record's [chunkCount] in place and
    [updateTask] accepts a deleted record, so updating record 0 after its
    deletion charges its new chunks to the owner although the record is
    not live. *)
Theorem totalStorage_drifts_after_update_of_deleted :
  ∃ st st',
    run [(as_alice, newTask 2); (as_alice, newTask 3); (as_alice, DeleteTask 0)] init = Ok st ∧
    owner <$> tasksOf st alice = [0; alice] ∧
    chunkCount <$> tasksOf st alice = [2; 3] ∧
    totalStorage (statsOf st alice) = 3 ∧ liveStorage st alice = 3 ∧
    updateTask as_alice 0 [5; 5; 5; 5] [] "Buy tea" High 0 "home" [] EmptyString st = Ok st' ∧
    owner <$> tasksOf st' alice = [0; alice] ∧
    totalStorage (statsOf st' alice) = 5 ∧ liveStorage st' alice = 3.
Proof.
  exists
    (state_after [(as_alice, newTask 2); (as_alice, newTask 3); (as_alice, DeleteTask 0)]),
    (state_after [(as_alice, newTask 2); (as_alice, newTask 3); (as_alice, DeleteTask 0);
                  (as_alice, UpdateTask 0 [5; 5; 5; 5] [] "Buy tea" High 0 "home" []
                               EmptyString)]).
  by_evaluation.
Qed.

(** C4. [deleteTask] and [updateTask] have no guard on deleted records:
    called on the already deleted record 0 they succeed and change the
    owner's statistics, where [updateTaskStatus] on the same record
    reverts with the deleted-record error. *)
Theorem delete_and_update_accept_deleted_record :
  ∃ st st1 st2,
    run [(as_alice, newTask 2); (as_alice, newTask 3); (as_alice, DeleteTask 0)] init = Ok st ∧
    owner <$> tasksOf st alice = [0; alice] ∧
    updateTaskStatus as_alice 0 Completed st = Revert "Task deleted" ∧
    deleteTask as_alice 0 st = Ok st1 ∧
    todoTasks (statsOf st alice) = 1 ∧ todoTasks (statsOf st1 alice) = 0 ∧
    totalStorage (statsOf st alice) = 3 ∧ totalStorage (statsOf st1 alice) = 1 ∧
    updateTask as_alice 0 [5; 5; 5; 5] [] "Buy tea" High 0 "home" [] EmptyString st = Ok st2 ∧
    totalStorage (statsOf st2 alice) = 5 ∧
    title <$> tasksOf st alice = ["Buy milk"; "Buy milk"] ∧
    title <$> tasksOf st2 alice = ["Buy tea"; "Buy milk"].
Proof.
  exists
    (state_after [(as_alice, newTask 2); (as_alice, newTask 3); (as_alice, DeleteTask 0)]),
    (state_after [(as_alice, newTask 2); (as_alice, newTask 3); (as_alice, DeleteTask 0);
                  (as_alice, DeleteTask 0)]),
    (state_after [(as_alice, newTask 2); (as_alice, newTask 3); (as_alice, DeleteTask 0);
                  (as_alice, UpdateTask 0 [5; 5; 5; 5] [] "Buy tea" High 0 "home" []
                               EmptyString)]).
  by_evaluation.
Qed.

(** C5. Deleting a record frees no quota: with 1000 records created and
    one of them deleted the owner holds 999 live records, yet the next
    [createTask] reverts with the quota error because [totalTasks] is
    still 1000. *)
Theorem delete_frees_no_quota :
  ∃ st,
    run (replicate 1000 (as_alice, newTask 1) ++ [(as_alice, DeleteTask 5)]) init = Ok st ∧
    length (liveTasks st alice) = 999%nat ∧
    totalTasks (statsOf st alice) = 1000 ∧
    createTask as_alice [7] [] "Buy milk" Low 0 "home" [] EmptyString st
      = Revert "Max tasks reached".
Proof.
  exists (state_after (replicate 1000 (as_alice, newTask 1) ++ [(as_alice, DeleteTask 5)])).
  by_evaluation.
Qed.

(** C6, as the code has it. Only [createTask] writes the secondary
    indices. A successful [createTask] appends the new id to the caller's
    bucket of the category when the category is not empty, and to the
    caller's bucket of a tag once per occurrence of the tag in the list;
    every other bucket is unchanged. Every other transaction, [updateTask]
    included, leaves both indices exactly as they were. *)
Theorem indices_written_by_createTask_only env c st st' :
  exec env c st = Ok st' →
  match c with
  | CreateTask _ _ _ _ _ category_ tags_ _ =>
      let taskId := getTasksCount env st in
      (∀ a c', categoryBucket st' a c' = categoryBucket st a c' ++
         (if decide (a = msg_sender env ∧ c' = category_ ∧ category_ ≠ EmptyString)
          then [taskId] else [])) ∧
      (∀ a t, tagBucket st' a t = tagBucket st a t ++
         (if decide (a = msg_sender env)
          then replicate (length (filter (λ x, x = t) tags_)) taskId else []))
  | _ => tasksByCategory st' = tasksByCategory st ∧ tasksByTag st' = tasksByTag st
  end.
Proof.
  intros H. destruct c as [chunks proof t p d cat tgs col| | | | | | |];
    try exact (indices_frame _ _ _ _ H).
  simpl in H. apply bind_Ok in H as ([st1 i] & H & [= <-]).
  unfold createTask in H.
  apply bind_Ok in H as (_ & _ & H). apply bind_Ok in H as (_ & _ & H).
  destruct (foldl _ _ chunks) as [cs acl'].
  apply bind_Ok in H as (n1 & _ & H). apply bind_Ok in H as (n2 & _ & H).
  apply bind_Ok in H as (n3 & _ & H). injection H as <- <-. simpl.
  unfold getTasksCount. split.
  - intros a c'. unfold categoryBucket at 1.
    rewrite (proj1 (proj2 (proj2 (foldl_push_tag_frame _ _ tgs _)))).
    destruct (nonempty cat) eqn:Hne.
    + apply nonempty_spec in Hne.
      change (default [] (tasksByCategory ?s !! (a, c'))) with (categoryBucket s a c').
      rewrite categoryBucket_push_category.
      unfold categoryBucket, write_stats, write_tasks, write_acl; cbn [tasksByCategory].
      f_equal. destruct (decide (a = msg_sender env ∧ c' = cat)) as [[Ha Hc]|Hn];
        [rewrite decide_True by done
        |rewrite decide_False by (intros (? & ? & ?); by apply Hn)]; done.
    + rewrite decide_False; [rewrite app_nil_r; reflexivity|].
      intros (_ & _ & Hc). apply nonempty_spec in Hc. congruence.
  - intros a tg. rewrite tagBucket_foldl_push_tag.
    destruct (nonempty cat); reflexivity.
Qed.

(** C6, the claim as stated fails: an [updateTask] that moves record 0
    to a new category and a new tag succeeds, and neither the lookup on the
    new category nor the lookup on the new tag returns the record's id. *)
Lemma updateTask_does_not_index :
  ∃ env taskId chunks proof title_ priority_ dueDate_ category_ tag color_ st st',
    reachable st ∧
    updateTask env taskId chunks proof title_ priority_ dueDate_ category_ [tag] color_ st
      = Ok st' ∧
    category <$> (tasksOf st' (msg_sender env) !! N.to_nat taskId) = Some category_ ∧
    tags <$> (tasksOf st' (msg_sender env) !! N.to_nat taskId) = Some [tag] ∧
    category_ ≠ EmptyString ∧
    (taskId ∉ getTasksByCategory env category_ st') ∧
    (taskId ∉ getTasksByTag env tag st').
Proof.
  exists as_alice, 0, [5], [], "Buy milk", Low, 0, "work", "urgent", EmptyString,
    (state_after [(as_alice, newTask 3)]),
    (state_after [(as_alice, newTask 3);
                  (as_alice, UpdateTask 0 [5] [] "Buy milk" Low 0 "work" ["urgent"]
                               EmptyString)]).
  split.
  { eapply reachable_step; [apply reachable_init|].
    instantiate (1 := newTask 3). instantiate (1 := as_alice).
    vm_compute; reflexivity. }
  do 3 (split; [vm_compute; reflexivity|]).
  split; [done|].
  split; vm_compute; apply not_elem_of_nil.
Qed.

(** The witness of [indices_written_by_createTask_only]: the first task of
    an owner lands in the buckets of its category and of its tag. *)
Lemma indices_written_by_createTask_only_witness :
  ∃ st', exec as_alice (newTask 3) init = Ok st' ∧
    getTasksByCategory as_alice "home" st' = [0] ∧
    getTasksByTag as_alice "errand" st' = [0].
Proof.
  exists (state_after [(as_alice, newTask 3)]).
  assert (H : exec as_alice (newTask 3) init = Ok (state_after [(as_alice, newTask 3)]))
    by (vm_compute; reflexivity).
  split; [exact H|].
  destruct (indices_written_by_createTask_only _ _ _ _ H) as [Hc Ht].
  unfold getTasksByCategory, getTasksByTag.
  rewrite Hc, Ht. split; vm_compute; reflexivity.
Defined.

(** [getSharedTasks] in a reachable state: one slot per reference. *)
Lemma getSharedTasks_reachable env st :
  reachable st →
  getSharedTasks env st = Ok (sharedSlot st <$> sharedOf st (msg_sender env)).
Proof.
  intros Hreach%reachable_refs_in_range. unfold getSharedTasks.
  apply (getSharedTasks_loop_spec st (sharedOf st (msg_sender env)) []).
  intros r Hr. by apply (Hreach (msg_sender env)).
Qed.

(** A second [shareTask] of the same task to the same grantee, on the
    store alone. *)
Lemma shareTask_again env env' taskId recipient st s1 :
  shareTask env taskId recipient st = Ok s1 →
  msg_sender env' = msg_sender env →
  ∃ s2 task, shareTask env' taskId recipient s1 = Ok s2 ∧
    tasksOf s1 (msg_sender env) !! N.to_nat taskId = Some task ∧ owner task ≠ 0 ∧
    userTasks s2 = userTasks s1 ∧ userStats s2 = userStats s1 ∧
    tasksByCategory s2 = tasksByCategory s1 ∧ tasksByTag s2 = tasksByTag s1 ∧
    acl s2 = acl s1 ∧
    sharedOf s2 recipient =
      sharedOf s1 recipient ++ [mkSharedTaskReference (msg_sender env) taskId] ∧
    (∀ g, g ≠ recipient → sharedOf s2 g = sharedOf s1 g) ∧
    (∀ r, r ∈ sharedOf s2 recipient ↔ r ∈ sharedOf s1 recipient) ∧
    (∀ g owner_ i, isShared s2 g owner_ i = isShared s1 g owner_ i).
Proof.
  intros H Hsender. unfold shareTask in H.
  apply bind_Ok in H as ([] & Hex & H).
  apply bind_Ok in H as ([] & Hr0 & H).
  apply bind_Ok in H as ([] & Hrs & H).
  apply bind_Ok in H as (task & Hat & H).
  apply bind_Ok in H as ([] & Hlive & H).
  injection H as <-.
  set (ref := mkSharedTaskReference (msg_sender env) taskId).
  set (acl1 := foldl (λ s chunk, FHE.allow chunk recipient s) (acl st)
                 (encryptedDescription task)).
  assert (Hacl : foldl (λ s chunk, FHE.allow chunk recipient s) acl1
                   (encryptedDescription task) = acl1).
  { apply foldl_allow_absorb. intros c Hc. by apply foldl_allow_elem. }
  eexists _, task. split; [|split; [|split]].
  - unfold shareTask. rewrite Hsender.
    change (taskExists (push_shared _ _ (write_acl _ st)) ?a ?i) with (taskExists st a i).
    change (taskAt (push_shared _ _ (write_acl _ st)) ?a ?i) with (taskAt st a i).
    rewrite Hex; simpl. rewrite Hr0; simpl. rewrite Hrs; simpl.
    rewrite Hat; simpl. rewrite Hlive; simpl. reflexivity.
  - by apply taskAt_Ok in Hat.
  - by apply require_Ok, negb_true_iff, N.eqb_neq in Hlive.
  - fold ref. cbn [userTasks userStats tasksByCategory tasksByTag acl push_shared write_acl].
    fold acl1. rewrite Hacl. do 5 (split; [reflexivity|]).
    assert (Hs2 : ∀ g s, sharedOf (push_shared recipient ref s) g =
              if decide (recipient = g) then sharedOf s recipient ++ [ref] else sharedOf s g)
      by (intros; apply sharedOf_push_shared).
    assert (Hin : ref ∈ sharedOf (push_shared recipient ref (write_acl acl1 st)) recipient).
    { rewrite sharedOf_push_shared, decide_True by done.
      rewrite elem_of_app, list_elem_of_singleton. by right. }
    split; [|split; [|split]].
    + rewrite Hs2. by rewrite decide_True.
    + intros g Hg. rewrite Hs2. by rewrite decide_False.
    + intros r. rewrite (Hs2 recipient). rewrite decide_True by done.
      rewrite elem_of_app, list_elem_of_singleton. split; [|by left].
      by intros [Hr| ->].
    + intros g o i. unfold isShared. rewrite Hs2.
      destruct (decide (recipient = g)) as [<-|]; [|done].
      rewrite existsb_app. cbn [existsb]. rewrite orb_false_r, sharedOf_write_acl.
      destruct ((ref_owner ref =? o) && (ref_taskId ref =? i)) eqn:Hp;
        [|by rewrite orb_false_r].
      rewrite orb_true_r. symmetry. apply existsb_exists.
      exists ref. split; [by apply list_elem_of_In | exact Hp].
Qed.

(** C7, as the code has it. In a reachable state a second [shareTask] of
    the same task to the same grantee succeeds again. It leaves the tasks,
    the statistics, the indices and the access control list exactly as the
    first call left them, and it appends one more copy of the same
    reference to the grantee's list: no new distinct reference appears and
    the membership test of [getSharedTaskContent] answers as before, but
    the list is one entry longer. So is the result of [getSharedTasks]
    for the grantee: it already holds the metadata of the shared record
    after the first call, and after the second call it is the same array
    followed by one more copy of that metadata. For every other caller
    [getSharedTasks] answers as before. *)
Theorem shareTask_twice_appends_duplicate env env' taskId recipient st s1 :
  reachable st →
  shareTask env taskId recipient st = Ok s1 →
  msg_sender env' = msg_sender env →
  ∃ s2 task, shareTask env' taskId recipient s1 = Ok s2 ∧
    tasksOf s1 (msg_sender env) !! N.to_nat taskId = Some task ∧ owner task ≠ 0 ∧
    userTasks s2 = userTasks s1 ∧ userStats s2 = userStats s1 ∧
    tasksByCategory s2 = tasksByCategory s1 ∧ tasksByTag s2 = tasksByTag s1 ∧
    acl s2 = acl s1 ∧
    sharedOf s2 recipient =
      sharedOf s1 recipient ++ [mkSharedTaskReference (msg_sender env) taskId] ∧
    (∀ g, g ≠ recipient → sharedOf s2 g = sharedOf s1 g) ∧
    (∀ r, r ∈ sharedOf s2 recipient ↔ r ∈ sharedOf s1 recipient) ∧
    (∀ g owner_ i, isShared s2 g owner_ i = isShared s1 g owner_ i) ∧
    (∀ grantee, msg_sender grantee = recipient →
       ∃ metadata, getSharedTasks grantee s1 = Ok metadata ∧
         sharedMetadata (mkSharedTaskReference (msg_sender env) taskId) task ∈ metadata ∧
         getSharedTasks grantee s2 =
           Ok (metadata ++
               [sharedMetadata (mkSharedTaskReference (msg_sender env) taskId) task]) ∧
         length (metadata ++
                 [sharedMetadata (mkSharedTaskReference (msg_sender env) taskId) task])
           = S (length metadata)) ∧
    (∀ other, msg_sender other ≠ recipient →
       getSharedTasks other s2 = getSharedTasks other s1).
Proof.
  intros Hreach H Hsender.
  assert (Hr1 : reachable s1)
    by exact (reachable_step st env (ShareTask taskId recipient) s1 Hreach H).
  destruct (shareTask_again env env' taskId recipient st s1 H Hsender)
    as (s2 & task & H2 & Hlook & Hlive & Ht & Hs & Hc & Htg & Hacl & Hsh & Hoth & Hmem & Hiss).
  assert (Hr2 : reachable s2)
    by exact (reachable_step s1 env' (ShareTask taskId recipient) s2 Hr1 H2).
  set (ref := mkSharedTaskReference (msg_sender env) taskId) in *.
  assert (Hslot : ∀ r, sharedSlot s2 r = sharedSlot s1 r)
    by (intros r; unfold sharedSlot, tasksOf; by rewrite Ht).
  assert (Hmap : ∀ l : list SharedTaskReference, sharedSlot s2 <$> l = sharedSlot s1 <$> l)
    by (intros l; apply list_fmap_ext; intros; apply Hslot).
  assert (Href : sharedSlot s1 ref = sharedMetadata ref task)
    by (unfold sharedSlot; cbn [ref_owner ref_taskId ref];
        rewrite Hlook; by rewrite decide_False).
  exists s2, task. do 12 (split; [assumption|]). split.
  - intros grantee Hg.
    rewrite (getSharedTasks_reachable grantee s1 Hr1),
      (getSharedTasks_reachable grantee s2 Hr2), Hg, Hsh, fmap_app, Hmap.
    exists (sharedSlot s1 <$> sharedOf s1 recipient). split; [done|]. split; [|split].
    + rewrite <- Href. apply list_elem_of_fmap. exists ref. split; [done|].
      apply Hmem. rewrite Hsh, elem_of_app, list_elem_of_singleton. by right.
    + simpl. by rewrite Hslot, Href.
    + rewrite length_app. simpl. lia.
  - intros other Hne.
    rewrite (getSharedTasks_reachable other s1 Hr1),
      (getSharedTasks_reachable other s2 Hr2), Hoth, Hmap by done. done.
Qed.

Lemma filter_fmap_agree {A B} (p : B → bool) (q : A → bool) (f : A → B) (l : list A) :
  (∀ x, x ∈ l → p (f x) = q x) →
  List.filter p (f <$> l) = f <$> List.filter q l.
Proof.
  induction l as [|x l IH]; intros H; [done|]. rewrite fmap_cons. simpl.
  rewrite (H x) by apply list_elem_of_here.
  rewrite IH by (intros y Hy; apply H; by apply list_elem_of_further).
  by destruct (q x).
Qed.

(** C8, as the code has it. In every reachable state [getSharedTasks]
    returns normally an array with one slot per reference of the caller's
    shared-with list, in the order of the list: no grant is removed from
    the result. The slot of a reference whose record has a live owner
    holds that record's metadata, labelled with the reference's task id
    and owner, which is not address 0; the slot of a reference whose
    record was deleted (owner equal to address 0) holds the
    zero-initialised metadata, whose owner is address 0: it shows nothing
    of the record, but it is there and it counts in the length. Dropping
    the slots with a null owner from the result leaves exactly the
    metadata of the references whose record is live, in order. *)
Theorem getSharedTasks_blanks_deleted_records env st :
  reachable st →
  ∃ metadata, getSharedTasks env st = Ok metadata ∧
    length metadata = length (sharedOf st (msg_sender env)) ∧
    (∀ i r, sharedOf st (msg_sender env) !! i = Some r →
       ∃ task, tasksOf st (ref_owner r) !! N.to_nat (ref_taskId r) = Some task ∧
         (owner task = 0 → metadata !! i = Some zeroMetadata) ∧
         (owner task ≠ 0 →
            metadata !! i = Some (sharedMetadata r task) ∧
            md_owner (sharedMetadata r task) = ref_owner r ∧ ref_owner r ≠ 0)) ∧
    md_owner zeroMetadata = 0 ∧
    List.filter (λ m, negb (md_owner m =? 0)) metadata =
      sharedSlot st <$>
        List.filter
          (λ r, match tasksOf st (ref_owner r) !! N.to_nat (ref_taskId r) with
                | Some task => negb (owner task =? 0)
                | None => false
                end)
          (sharedOf st (msg_sender env)).
Proof.
  intros Hreach. pose proof (reachable_owner_inv _ Hreach) as Howner.
  pose proof (getSharedTasks_reachable env st Hreach) as Hget.
  apply reachable_refs_in_range in Hreach.
  exists (sharedSlot st <$> sharedOf st (msg_sender env)).
  split; [done|]. split; [by rewrite length_fmap|]. split; [|split; [done|]].
  - intros i r Hi.
    assert (Hr : r ∈ sharedOf st (msg_sender env)) by (by eapply list_elem_of_lookup_2).
    destruct (lookup_lt_is_Some_2 _ _ (Hreach _ _ Hr)) as [task Htask].
    exists task. split; [done|].
    rewrite list_lookup_fmap, Hi. simpl. unfold sharedSlot. rewrite Htask.
    split; intros Ho.
    + by rewrite decide_True.
    + rewrite decide_False by done. split; [done|]. split; [done|].
      destruct (Howner _ _ _ Htask) as [Heq|Heq]; congruence.
  - apply filter_fmap_agree. intros r Hr.
    destruct (lookup_lt_is_Some_2 _ _ (Hreach _ _ Hr)) as [task Htask].
    unfold sharedSlot. rewrite Htask.
    destruct (decide (owner task = 0)) as [Ho|Ho].
    + by rewrite Ho.
    + simpl. destruct (Howner _ _ _ Htask) as [Heq|Heq]; [|done].
      rewrite <- Heq. done.
Qed.

(** The witness of [getSharedTasks_blanks_deleted_records]: two of alice's
    records are shared with bob and the first is then deleted; bob's view
    has two slots, of which one is left when the slots with a null owner
    are dropped. *)
Lemma getSharedTasks_blanks_deleted_records_witness :
  ∃ st metadata, reachable st ∧
    getSharedTasks as_bob st = Ok metadata ∧
    length metadata = 2%nat ∧
    length (List.filter (λ m, negb (md_owner m =? 0)) metadata) = 1%nat.
Proof.
  set (txs := [(as_alice, newTask 2); (as_alice, newTask 3); (as_alice, ShareTask 0 bob);
               (as_alice, ShareTask 1 bob); (as_alice, DeleteTask 0)]).
  assert (Hreach : reachable (state_after txs)).
  { apply (tasks_run_reachable txs init); [apply reachable_init | vm_compute; reflexivity]. }
  destruct (getSharedTasks_blanks_deleted_records as_bob _ Hreach)
    as (metadata & Hget & Hlen & _ & _ & Hfilter).
  exists (state_after txs), metadata.
  split; [exact Hreach|]. split; [exact Hget|]. split.
  - rewrite Hlen. vm_compute. reflexivity.
  - rewrite Hfilter. vm_compute. reflexivity.
Defined.

(** C8, the claim as stated fails: two of alice's records are shared with
    bob and the first is then deleted. The grant of the deleted record is
    not filtered out of bob's result: the array has two entries for one
    live grant, and its first entry is the all-zero record standing for
    the deleted one. *)
Lemma getSharedTasks_keeps_slot_of_deleted_record :
  ∃ env st metadata r,
    reachable st ∧
    getSharedTasks env st = Ok metadata ∧
    sharedOf st (msg_sender env) !! 0%nat = Some r ∧
    owner <$> (tasksOf st (ref_owner r) !! N.to_nat (ref_taskId r)) = Some 0 ∧
    metadata !! 0%nat = Some zeroMetadata ∧
    length metadata = 2%nat ∧
    length (List.filter
              (λ r, match tasksOf st (ref_owner r) !! N.to_nat (ref_taskId r) with
                    | Some task => negb (owner task =? 0)
                    | None => false
                    end)
              (sharedOf st (msg_sender env))) = 1%nat.
Proof.
  set (txs := [(as_alice, newTask 2); (as_alice, newTask 3); (as_alice, ShareTask 0 bob);
               (as_alice, ShareTask 1 bob); (as_alice, DeleteTask 0)]).
  exists as_bob, (state_after txs),
    [zeroMetadata; sharedSlot (state_after txs) (mkSharedTaskReference alice 1)],
    (mkSharedTaskReference alice 0).
  split.
  { apply (tasks_run_reachable txs init); [apply reachable_init | vm_compute; reflexivity]. }
  by_evaluation.
Qed.

(** C7, the claim as stated fails: alice shares record 0 with bob twice;
    the second call succeeds, bob's list holds the reference twice, and
    [getSharedTasks] returns two entries where it returned one. *)
Lemma shareTask_twice_is_visible :
  ∃ env taskId recipient st s1 s2 m,
    reachable st ∧
    shareTask env taskId recipient st = Ok s1 ∧
    shareTask env taskId recipient s1 = Ok s2 ∧
    sharedOf s1 recipient = [mkSharedTaskReference (msg_sender env) taskId] ∧
    sharedOf s2 recipient = [mkSharedTaskReference (msg_sender env) taskId;
                             mkSharedTaskReference (msg_sender env) taskId] ∧
    getSharedTasks as_bob s1 = Ok [m] ∧
    getSharedTasks as_bob s2 = Ok [m; m] ∧
    s2 ≠ s1.
Proof.
  exists as_alice, 0, bob,
    (state_after [(as_alice, newTask 3)]),
    (state_after [(as_alice, newTask 3); (as_alice, ShareTask 0 bob)]),
    (state_after [(as_alice, newTask 3); (as_alice, ShareTask 0 bob);
                  (as_alice, ShareTask 0 bob)]),
    (sharedSlot (state_after [(as_alice, newTask 3); (as_alice, ShareTask 0 bob)])
       (mkSharedTaskReference alice 0)).
  split.
  { apply (tasks_run_reachable [(as_alice, newTask 3)] init);
      [apply reachable_init | vm_compute; reflexivity]. }
  do 6 (split; [vm_compute; reflexivity|]).
  intros Heq. apply (f_equal (λ s, length (sharedOf s bob))) in Heq.
  vm_compute in Heq. discriminate.
Qed.

(** The witness of [shareTask_twice_appends_duplicate]: the same two
    calls, and bob's view after each. *)
Lemma shareTask_twice_appends_duplicate_witness :
  ∃ st s1 s2 metadata,
    reachable st ∧
    shareTask as_alice 0 bob st = Ok s1 ∧
    shareTask as_alice 0 bob s1 = Ok s2 ∧
    acl s2 = acl s1 ∧
    length (sharedOf s2 bob) = S (length (sharedOf s1 bob)) ∧
    getSharedTasks as_bob s1 = Ok metadata ∧
    length metadata = 1%nat ∧
    (∃ m, getSharedTasks as_bob s2 = Ok (metadata ++ [m]) ∧ m ∈ metadata).
Proof.
  set (st := state_after [(as_alice, newTask 3)]).
  set (s1 := state_after [(as_alice, newTask 3); (as_alice, ShareTask 0 bob)]).
  assert (Hreach : reachable st).
  { apply (tasks_run_reachable [(as_alice, newTask 3)] init);
      [apply reachable_init | vm_compute; reflexivity]. }
  assert (H1 : shareTask as_alice 0 bob st = Ok s1) by (vm_compute; reflexivity).
  destruct (shareTask_twice_appends_duplicate as_alice as_alice 0 bob st s1 Hreach H1 eq_refl)
    as (s2 & task & H2 & _ & _ & _ & _ & _ & _ & Hacl & Hshared & _ & _ & _ & Hview & _).
  destruct (Hview as_bob eq_refl) as (metadata & Hm1 & Hin & Hm2 & _).
  exists st, s1, s2, metadata.
  split; [exact Hreach|]. split; [exact H1|]. split; [exact H2|]. split; [exact Hacl|].
  split; [rewrite Hshared, length_app; simpl; lia|]. split; [exact Hm1|]. split.
  - assert (Hv : getSharedTasks as_bob s1
                 = Ok [sharedSlot s1 (mkSharedTaskReference alice 0)])
      by (vm_compute; reflexivity).
    rewrite Hv in Hm1. by injection Hm1 as <-.
  - eexists. split; [exact Hm2 | exact Hin].
Defined.

End TasksFacts.

(** ** Properties of EncryptedFeedback *)

Module FeedbackFacts.
Import Feedback Scenarios.

Lemma feedbackAt_write_feedback b i f st b' i' :
  feedbackAt (write_feedback b i f st) b' i' =
  if decide ((b, i) = (b', i')) then f else feedbackAt st b' i'.
Proof.
  unfold feedbackAt, write_feedback; simpl. rewrite lookup_insert.
  by destruct (decide ((b, i) = (b', i'))).
Qed.

Lemma feedbackAt_write_boxes a l st b i :
  feedbackAt (write_boxes a l st) b i = feedbackAt st b i.
Proof. reflexivity. Qed.
Lemma feedbackAt_write_count b' n st b i :
  feedbackAt (write_count b' n st) b i = feedbackAt st b i.
Proof. reflexivity. Qed.
Lemma feedbackAt_write_boxOwner b' a st b i :
  feedbackAt (write_boxOwner b' a st) b i = feedbackAt st b i.
Proof. reflexivity. Qed.
Lemma feedbackAt_write_counter n st b i :
  feedbackAt (write_counter n st) b i = feedbackAt st b i.
Proof. reflexivity. Qed.
Lemma feedbackAt_write_acl x st b i :
  feedbackAt (write_acl x st) b i = feedbackAt st b i.
Proof. reflexivity. Qed.

Create Rewrite HintDb fstore.
#[local] Hint Rewrite feedbackAt_write_boxes feedbackAt_write_count
  feedbackAt_write_boxOwner feedbackAt_write_counter feedbackAt_write_acl : fstore.

(** *** The rating a submission stores *)

Lemma submitFeedback_rating env b chunks proof r s st st' fid :
  submitFeedback env b chunks proof r s st = Ok (st', fid) →
  ∃ pos box, _findBox st (boxOwner st b) b = Ok (pos, box) ∧
    fid = feedbackCount st b ∧
    rating (feedbackAt st' b fid) = (if allowRatings box then r else 0) ∧
    (allowRatings box = true → r ≤ 5) ∧
    (∀ b' i, (b', i) ≠ (b, fid) → feedbackAt st' b' i = feedbackAt st b' i).
Proof.
  unfold submitFeedback. intros H.
  apply bind_Ok in H as ([] & _ & H). apply bind_Ok in H as ([] & _ & H).
  apply bind_Ok in H as ([pos box] & Hfind & H).
  apply bind_Ok in H as (r' & Hr & H).
  apply bind_Ok in H as (count & _ & H).
  destruct (foldl _ _ chunks) as [cs acl'].
  apply bind_Ok in H as (subs & _ & H). injection H as <- <-.
  exists pos, box. split; [done|]. split; [done|].
  assert (Hr' : r' = (if allowRatings box then r else 0) ∧ (allowRatings box = true → r ≤ 5)).
  { destruct (allowRatings box).
    - apply bind_Ok in Hr as ([] & Hle & [= <-]). apply require_Ok in Hle.
      split; [done|]. intros _. by apply N.leb_le.
    - by injection Hr as <-. }
  destruct Hr' as [-> Hle].
  autorewrite with fstore. rewrite feedbackAt_write_feedback.
  split; [by rewrite decide_True|]. split; [done|].
  intros b' i Hne. autorewrite with fstore. rewrite feedbackAt_write_feedback.
  rewrite decide_False; [by autorewrite with fstore | congruence].
Qed.

(** *** The rating switch of a box is fixed at creation *)

Lemma findFrom_lookup boxes globalBoxId i pos box :
  findFrom boxes globalBoxId i = Some (pos, box) →
  ∃ j, pos = (i + j)%nat ∧ boxes !! j = Some box ∧ box_id box = globalBoxId.
Proof.
  revert i. induction boxes as [|b boxes IH]; intros i H; simpl in H; [done|].
  destruct (box_id b =? globalBoxId) eqn:Hid.
  - injection H as <- <-. exists 0%nat. apply N.eqb_eq in Hid.
    split; [lia | done].
  - apply IH in H as (j & -> & Hj & Hbox). exists (S j). split; [lia | done].
Qed.

Lemma boxesOf_write_boxes a l st a' :
  boxesOf (write_boxes a l st) a' = if decide (a = a') then l else boxesOf st a'.
Proof.
  unfold boxesOf, write_boxes; simpl. rewrite lookup_insert.
  by destruct (decide (a = a')).
Qed.

Lemma insert_keeps_flag (l : list FeedbackBox) i k box0 box0' box :
  l !! i = Some box0 → allowRatings box0' = allowRatings box0 →
  box_id box0' = box_id box0 →
  l !! k = Some box →
  ∃ box', <[i := box0']> l !! k = Some box' ∧
    allowRatings box' = allowRatings box ∧ box_id box' = box_id box.
Proof.
  intros Hi Hflag Hid Hk. destruct (decide (i = k)) as [->|Hne].
  - exists box0'. rewrite list_lookup_insert_eq by (by eapply lookup_lt_Some).
    by simplify_eq.
  - exists box. by rewrite list_lookup_insert_ne.
Qed.

Lemma boxAt_Ok st a i box : boxAt st a i = Ok box → boxesOf st a !! N.to_nat i = Some box.
Proof. unfold boxAt. destruct (_ !! _); [congruence | discriminate]. Qed.

(** No transaction changes the [allowRatings] flag or the global id of a
    box once [createBox] has stored it. *)
Lemma exec_allowRatings env c st st' a k box :
  exec env c st = Ok st' → boxesOf st a !! k = Some box →
  ∃ box', boxesOf st' a !! k = Some box' ∧
    allowRatings box' = allowRatings box ∧ box_id box' = box_id box.
Proof.
  intros H Hk. destruct c; simpl in H.
  - apply bind_Ok in H as ([st1 n] & H & [= <-]). unfold createBox in H.
    inv_ok H. subst. simpl.
    change (boxesOf (write_boxOwner ?b ?o ?s) a) with (boxesOf s a).
    rewrite boxesOf_write_boxes. case_decide; subst; [|by eauto].
    exists box. split; [|done]. by apply lookup_app_l_Some.
  - unfold closeBox in H.
    apply bind_Ok in H as (_ & _ & H). apply bind_Ok in H as (box0 & Hat & H).
    apply bind_Ok in H as (_ & _ & H). injection H as <-. apply boxAt_Ok in Hat.
    rewrite boxesOf_write_boxes. case_decide; subst; [|by eauto].
    by eapply insert_keeps_flag.
  - unfold reopenBox in H.
    apply bind_Ok in H as (_ & _ & H). apply bind_Ok in H as (box0 & Hat & H).
    apply bind_Ok in H as (_ & _ & H). injection H as <-. apply boxAt_Ok in Hat.
    rewrite boxesOf_write_boxes. case_decide; subst; [|by eauto].
    by eapply insert_keeps_flag.
  - unfold updateBox in H.
    apply bind_Ok in H as (_ & _ & H). apply bind_Ok in H as (box0 & Hat & H).
    injection H as <-. apply boxAt_Ok in Hat.
    rewrite boxesOf_write_boxes. case_decide; subst; [|by eauto].
    by eapply insert_keeps_flag.
  - apply bind_Ok in H as ([st1 fid] & H & [= <-]). simpl.
    unfold submitFeedback in H.
    apply bind_Ok in H as (_ & _ & H). apply bind_Ok in H as (_ & _ & H).
    apply bind_Ok in H as ([pos box0] & Hfind & H).
    apply bind_Ok in H as (r' & _ & H). apply bind_Ok in H as (count & _ & H).
    destruct (foldl _ _ encryptedChunks) as [cs acl'].
    apply bind_Ok in H as (subs & _ & H). injection H as <- <-.
    unfold _findBox in Hfind.
    destruct (findFrom _ _ _) as [[pos' box1]|] eqn:Hf; [|done].
    injection Hfind as -> ->. apply findFrom_lookup in Hf as (j & -> & Hj & _).
    rewrite boxesOf_write_boxes. case_decide; subst; [|by eauto].
    by eapply insert_keeps_flag.
  - unfold markAsRead in H. inv_ok H. subst. by eauto.
  - unfold deleteFeedback in H. inv_ok H. subst. by eauto.
Qed.

Lemma exec_rating env c st st' :
  exec env c st = Ok st' →
  (∀ b i, rating (feedbackAt st b i) ≤ 5) →
  ∀ b i, rating (feedbackAt st' b i) ≤ 5.
Proof.
  intros H Hinv b i. destruct c; simpl in H.
  - apply bind_Ok in H as ([st1 n] & H & [= <-]). unfold createBox in H.
    inv_ok H. subst. simpl. autorewrite with fstore. apply Hinv.
  - unfold closeBox in H. inv_ok H. subst. autorewrite with fstore. apply Hinv.
  - unfold reopenBox in H. inv_ok H. subst. autorewrite with fstore. apply Hinv.
  - unfold updateBox in H. inv_ok H. subst. autorewrite with fstore. apply Hinv.
  - apply bind_Ok in H as ([st1 fid] & H & [= <-]). simpl.
    apply submitFeedback_rating in H as (pos & box & _ & _ & Hnew & Hle & Hold).
    destruct (decide ((b, i) = (globalBoxId, fid))) as [[= -> ->]|Hne].
    + rewrite Hnew. destruct (allowRatings box); [by apply Hle | lia].
    + rewrite Hold by done. apply Hinv.
  - unfold markAsRead in H. inv_ok H. subst. rewrite feedbackAt_write_feedback.
    case_decide; [simplify_eq; simpl|]; apply Hinv.
  - unfold deleteFeedback in H. inv_ok H. subst. rewrite feedbackAt_write_feedback.
    case_decide; [simplify_eq; simpl|]; apply Hinv.
Qed.

Lemma reachable_rating st : reachable st → ∀ b i, rating (feedbackAt st b i) ≤ 5.
Proof.
  induction 1 as [|st env c st' _ IH Hexec].
  - intros b i. vm_compute. discriminate.
  - by eapply exec_rating.
Qed.

Lemma feedback_run_reachable txs st st' :
  reachable st → run txs st = Ok st' → reachable st'.
Proof.
  revert st. induction txs as [|[env c] txs IH]; intros st Hst H; simpl in H.
  - by injection H as <-.
  - apply bind_Ok in H as (st1 & Hstep & H).
    eapply IH; [|exact H]. by eapply reachable_step.
Qed.

(** *** The scan of [getBoxStats] *)

Lemma add256_ok a b : a + b ≤ UINT256_MAX → add256 a b = Ok (a + b).
Proof. intros H. unfold add256. by apply N.leb_le in H as ->. Qed.

Lemma mul256_ok a b : a * b ≤ UINT256_MAX → mul256 a b = Ok (a * b).
Proof. intros H. unfold mul256. by apply N.leb_le in H as ->. Qed.

Lemma tallyOne_ok k f t :
  tallyBounded k t → rating f ≤ 5 → 5 * k + 5 ≤ UINT256_MAX →
  tallyOne f t = Ok (tallyAdd t f) ∧ tallyBounded (k + 1) (tallyAdd t f).
Proof.
  intros (Ht & Hr & Hp & Hn & Hg & Hu & Ha) Hf Hk.
  unfold tallyOne, tallyAdd, tallyBounded.
  destruct (0 <? submittedAt f); [|split; [done|]; repeat split; lia].
  rewrite (add256_ok (activeCount t) 1) by lia. simpl.
  destruct (0 <? rating f); simpl;
    rewrite ?(add256_ok (totalRating t) (rating f)), ?(add256_ok (ratedCount t) 1) by lia;
    simpl;
    destruct (sentiment f); simpl;
    rewrite ?(add256_ok (positive t) 1), ?(add256_ok (neutral t) 1),
      ?(add256_ok (negative t) 1) by lia;
    simpl;
    destruct (isRead f); simpl; rewrite ?(add256_ok (unread t) 1) by lia; simpl;
    rewrite ?N.add_0_r; (split; [reflexivity|]); repeat split; lia.
Qed.

Lemma tallyLoop_ok st b remaining : ∀ i t,
  (∀ j, rating (feedbackAt st b j) ≤ 5) →
  tallyBounded i t → 5 * (i + N.of_nat remaining) ≤ UINT256_MAX →
  tallyLoop st b i remaining t =
    Ok (foldl tallyAdd t
          ((λ j, feedbackAt st b (N.of_nat j)) <$> seq (N.to_nat i) remaining)) ∧
  tallyBounded (i + N.of_nat remaining)
    (foldl tallyAdd t ((λ j, feedbackAt st b (N.of_nat j)) <$> seq (N.to_nat i) remaining)).
Proof.
  induction remaining as [|n IH]; intros i t Hrate Hb Hfit; simpl.
  - by rewrite N.add_0_r.
  - destruct (tallyOne_ok i (feedbackAt st b i) t Hb (Hrate i)) as [-> Hb']; [lia|].
    simpl. rewrite N2Nat.id.
    replace (S (N.to_nat i)) with (N.to_nat (i + 1)) by lia.
    replace (i + N.of_nat (S n)) with (i + 1 + N.of_nat n) by lia.
    apply IH; [done | done | lia].
Qed.

Lemma len_cons {A} (x : A) l : len (x :: l) = len l + 1.
Proof. unfold len. simpl. lia. Qed.

(** The counters are the counts and sums of the specification. *)
Lemma foldl_tallyAdd l : ∀ t,
  let live := List.filter (λ f, 0 <? submittedAt f) l in
  let rated := List.filter (λ f, 0 <? rating f) live in
  foldl tallyAdd t l =
  mkTally (totalRating t + sum_ratings rated) (ratedCount t + len rated)
    (positive t + count_if (λ f, bool_decide (sentiment f = Positive)) live)
    (neutral t + count_if (λ f, bool_decide (sentiment f = Neutral)) live)
    (negative t + count_if (λ f, bool_decide (sentiment f = Negative)) live)
    (unread t + count_if (λ f, negb (isRead f)) live)
    (activeCount t + len live).
Proof.
  induction l as [|f l IH]; intros t; simpl.
  - unfold count_if, len; simpl. rewrite !N.add_0_r. by destruct t.
  - rewrite IH. unfold tallyAdd, count_if.
    destruct (0 <? submittedAt f); [|reflexivity]. simpl.
    destruct (0 <? rating f), (sentiment f), (isRead f); simpl;
      rewrite ?len_cons; f_equal; lia.
Qed.

Lemma UINT256_MAX_fits n : n < 2 ^ 128 → 500 * n ≤ UINT256_MAX.
Proof.
  intros H. assert (Hmax : 500 * 2 ^ 128 ≤ UINT256_MAX) by (vm_compute; discriminate).
  revert H Hmax. generalize (2 ^ 128). intros B H Hmax. lia.
Qed.

Lemma getBoxStats_spec b st :
  (∀ j, rating (feedbackAt st b j) ≤ 5) →
  feedbackCount st b < 2 ^ 128 →
  getBoxStats b st = Ok (specBoxStats st b).
Proof.
  intros Hrate Hcount. apply UINT256_MAX_fits in Hcount.
  unfold getBoxStats.
  destruct (tallyLoop_ok st b (N.to_nat (feedbackCount st b)) 0 zeroTally Hrate)
    as [-> Hb].
  { unfold tallyBounded, zeroTally; simpl. repeat split; lia. }
  { lia. }
  change (N.to_nat 0) with 0%nat in *. fold (entries st b) in *.
  destruct Hb as (Ht & _). rewrite N.add_0_l, N2Nat.id in Ht.
  rewrite foldl_tallyAdd in *. simpl in *. rewrite !N.add_0_l in *.
  unfold specBoxStats.
  destruct (0 <? len _); simpl; [|reflexivity].
  rewrite mul256_ok by lia. reflexivity.
Qed.

(** C9. [getBoxStats] is the full scan of the specification. In every
    reachable state, for a box with fewer than 2^128 submissions, it
    returns normally and its result is [specBoxStats]: the number of
    non-deleted entries, the number of those not yet read, the number of
    each sentiment, and the sum of the positive ratings times 100 divided
    (rounding down) by the number of rated entries, or 0 when no entry is
    rated. On scenario B it returns 2 submissions, 2 unread, average 400,
    1 positive, 0 neutral, 1 negative. *)
Theorem getBoxStats_full_scan :
  (∀ st b, reachable st → feedbackCount st b < 2 ^ 128 →
     getBoxStats b st = Ok (specBoxStats st b)) ∧
  (∃ st, run scenarioB init = Ok st ∧
     getBoxStats 0 st =
       Ok {| totalSubmissions := 2; unreadCount := 2; avgRating := 400;
             positiveCount := 1; neutralCount := 0; negativeCount := 1 |}).
Proof.
  split.
  - intros st b Hreach Hcount. apply getBoxStats_spec; [|done].
    by apply reachable_rating.
  - exists (state_after scenarioB). split; vm_compute; reflexivity.
Qed.

(** The witness of [getBoxStats_full_scan]: the state of scenario B is
    reachable, its box 0 has two submissions, and the general statement
    gives the statistics of the scenario. *)
Lemma getBoxStats_full_scan_witness :
  reachable (state_after scenarioB) ∧
  feedbackCount (state_after scenarioB) 0 < 2 ^ 128 ∧
  getBoxStats 0 (state_after scenarioB) = Ok (specBoxStats (state_after scenarioB) 0).
Proof.
  assert (Hreach : reachable (state_after scenarioB)).
  { apply (feedback_run_reachable scenarioB init);
      [apply reachable_init | vm_compute; reflexivity]. }
  assert (Hcount : feedbackCount (state_after scenarioB) 0 < 2 ^ 128)
    by (vm_compute; reflexivity).
  split; [exact Hreach|]. split; [exact Hcount|].
  exact (proj1 getBoxStats_full_scan _ _ Hreach Hcount).
Defined.

End FeedbackFacts.

(** ** Further properties of EncryptedTasks *)

Module TasksExtra.
Import Tasks TasksViews TasksPage Scenarios TasksFacts.

Lemma sumOver_app w l1 l2 : sumOver w (l1 ++ l2) = sumOver w l1 + sumOver w l2.
Proof. induction l1 as [|t l1 IH]; simpl; [done|]. rewrite IH. lia. Qed.

Lemma sumOver_insert w (l : list Task) i t t' :
  l !! i = Some t → sumOver w (<[i := t']> l) + w t = sumOver w l + w t'.
Proof.
  revert i. induction l as [|x l IH]; intros [|i] H; simpl in *; try done.
  - injection H as ->. lia.
  - specialize (IH _ H). lia.
Qed.

Lemma sumOver_le w (l : list Task) b :
  (∀ k t, l !! k = Some t → w t ≤ b) → sumOver w l ≤ b * len l.
Proof.
  induction l as [|x l IH]; intros H; simpl.
  - unfold len; simpl. lia.
  - pose proof (H 0%nat x eq_refl). 
    assert (sumOver w l ≤ b * len l) by (apply IH; intros k t Hk; exact (H (S k) t Hk)).
    unfold len in *; simpl length. lia.
Qed.

Lemma add256_inv a b c : add256 a b = Ok c → c = a + b ∧ a + b ≤ UINT256_MAX.
Proof.
  unfold add256. destruct (a + b <=? UINT256_MAX) eqn:Hle; [|discriminate].
  intros [= <-]. apply N.leb_le in Hle. done.
Qed.

Lemma add256_fits a b : a + b ≤ UINT256_MAX → add256 a b = Ok (a + b).
Proof. intros H. unfold add256. by apply N.leb_le in H as ->. Qed.

Lemma sub256_fits a b : b ≤ a → sub256 a b = Ok (a - b).
Proof. intros H. unfold sub256. by apply N.leb_le in H as ->. Qed.

Lemma ingest_fold (env : Env) (proof : bytes) (chunks : list externalEuint32) (cs : list euint32)
    (acl0 : gset (euint32 * address)) :
  (foldl (ingest env proof) (cs, acl0) chunks).1
  = cs ++ ((λ e, FHE.fromExternal e proof) <$> chunks).
Proof.
  revert cs acl0. induction chunks as [|e chunks IH]; intros cs acl0; simpl.
  - by rewrite app_nil_r.
  - unfold ingest at 2. simpl. rewrite IH. by rewrite <- app_assoc.
Qed.

Lemma len_cons_extra {A} (x : A) l : len (x :: l) = len l + 1.
Proof. unfold len. simpl. lia. Qed.

Lemma uint8_small n : n ≤ 128 → uint8 n = n.
Proof. intros H. unfold uint8. apply N.mod_small. lia. Qed.

Lemma statsOf_write_tasks a l st a' : statsOf (write_tasks a l st) a' = statsOf st a'.
Proof. reflexivity. Qed.
Lemma statsOf_write_task a i t st a' : statsOf (write_task a i t st) a' = statsOf st a'.
Proof. reflexivity. Qed.
Lemma statsOf_write_acl x st a' : statsOf (write_acl x st) a' = statsOf st a'.
Proof. reflexivity. Qed.
Lemma statsOf_push_shared a r st a' : statsOf (push_shared a r st) a' = statsOf st a'.
Proof. reflexivity. Qed.
Lemma statsOf_push_category a c i st a' : statsOf (push_category a c i st) a' = statsOf st a'.
Proof. reflexivity. Qed.
Lemma statsOf_foldl_push_tag a i tgs st a' :
  statsOf (foldl (push_tag a i) st tgs) a' = statsOf st a'.
Proof. unfold statsOf. by rewrite (proj1 (proj2 (foldl_push_tag_frame a i tgs st))). Qed.

Create Rewrite HintDb owner.
#[local] Hint Rewrite tasksOf_write_stats tasksOf_write_acl tasksOf_push_shared
  tasksOf_push_category tasksOf_foldl_push_tag tasksOf_write_task tasksOf_write_tasks
  statsOf_write_tasks statsOf_write_task statsOf_write_acl statsOf_push_shared
  statsOf_push_category statsOf_foldl_push_tag statsOf_write_stats : owner.

(** A transaction of [sender] that leaves [l'] and [s'] to the sender keeps
    a per-owner property that [l'] and [s'] satisfy. *)
Lemma store_update (I : address → list Task → UserStats → Prop) st st' sender l' s' :
  (∀ a, I a (tasksOf st a) (statsOf st a)) →
  (∀ a, tasksOf st' a = if decide (sender = a) then l' else tasksOf st a) →
  (∀ a, statsOf st' a = if decide (sender = a) then s' else statsOf st a) →
  I sender l' s' →
  ∀ a, I a (tasksOf st' a) (statsOf st' a).
Proof.
  intros H Ht Hs HI a. rewrite Ht, Hs. case_decide; subst; [done | apply H].
Qed.


Lemma store_wf_init : store_wf init.
Proof.
  intros a. split; vm_compute; done.
Qed.

Lemma owner_wf_insert a (l : list Task) s s' i t t' :
  owner_wf a l s → l !! i = Some t →
  id t' = id t → chunkCount t' ≤ MAX_CHUNKS_PER_TASK →
  (owner t' = owner t ∨ owner t' = 0) →
  (owner t' ≠ 0 → chunkCount t' = len (encryptedDescription t') ∧ 0 < chunkCount t') →
  totalTasks s' = totalTasks s → overdueTasks s' = 0 →
  todoTasks s' + inProgressTasks s' + completedTasks s' ≤ totalTasks s' →
  archivedTasks s' + (if isArchived t then 1 else 0)
    ≤ archivedTasks s + (if isArchived t' then 1 else 0) →
  favoriteTasks s' + (if isFavorite t then 1 else 0)
    ≤ favoriteTasks s + (if isFavorite t' then 1 else 0) →
  totalStorage s' + chunkCount t ≤ totalStorage s + chunkCount t' →
  owner_wf a (<[i := t']> l) s'.
Proof.
  intros [] Hi Hid Hc Ho Hd Htot Hov Hst Har Hfa Hsto.
  pose proof (sumOver_insert chunkCount l i t t' Hi).
  pose proof (sumOver_insert (λ t, if isArchived t then 1 else 0) l i t t' Hi).
  pose proof (sumOver_insert (λ t, if isFavorite t then 1 else 0) l i t t' Hi).
  split; try lia.
  - unfold len in *. rewrite length_insert. lia.
  - intros k x [(-> & <- & _)|(_ & Hk)]%list_lookup_insert_Some.
    + destruct (wf_tasks0 _ _ Hi) as (Hid0 & _ & Howner & _).
      repeat split; try done; try lia; try (by apply Hd).
    + by apply wf_tasks0.
Qed.


Ltac arith_facts :=
  repeat match goal with
  | H : sub256 _ _ = Ok _ |- _ => apply sub256_Ok in H
  | H : add256 _ _ = Ok _ |- _ => apply add256_inv in H as [? ?]
  | H : require _ _ = Ok _ |- _ => apply require_Ok in H
  | H : (_ <? _) = true |- _ => apply N.ltb_lt in H
  | H : (_ <=? _) = true |- _ => apply N.leb_le in H
  | H : negb _ = true |- _ => apply negb_true_iff in H
  | H : (_ =? _) = false |- _ => apply N.eqb_neq in H
  end.

Ltac owner_eqs :=
  intros ?; autorewrite with owner; try reflexivity;
  case_decide; subst; reflexivity.

Lemma exec_store_wf env c st st' :
  exec env c st = Ok st' → store_wf st → store_wf st'.
Proof.
  intros H Hwf. pose proof (Hwf (msg_sender env)) as Hs.
  destruct c; simpl in H.
  - apply bind_Ok in H as ([st1 i] & H & [= <-]). unfold createTask, withinLimits in H.
    apply bind_Ok in H as ([] & Hlim & H).
    apply bind_Ok in Hlim as ([] & Hl1 & Hlim). apply bind_Ok in Hlim as ([] & Hl2 & Hl3).
    apply bind_Ok in H as (_ & _ & H).
    pose proof (ingest_fold env inputProof encryptedChunks [] (acl st)) as Hing.
    destruct (foldl _ _ encryptedChunks) as [cs acl'].
    apply bind_Ok in H as (n1 & Hn1 & H). apply bind_Ok in H as (n2 & Hn2 & H).
    apply bind_Ok in H as (n3 & Hn3 & H). injection H as <- <-. simpl.
    simpl in Hing. subst cs. arith_facts. simpl in *. subst.
    unfold MAX_CHUNKS_PER_TASK, MAX_TASKS_PER_USER in *.
    refine (store_update owner_wf st _ (msg_sender env) _ _ Hwf _ _ _).
    + intros a. destruct (nonempty category_); autorewrite with owner; reflexivity.
    + intros a. destruct (nonempty category_); autorewrite with owner; reflexivity.
    + destruct Hs. rewrite uint8_small by done. split; simpl.
      all: unfold MAX_CHUNKS_PER_TASK, MAX_TASKS_PER_USER in *.
      all: rewrite ?sumOver_app; simpl; unfold len in *; rewrite ?length_app; simpl;
        try lia.
      intros k t [Hk|(Hk1 & Hk2)]%lookup_app_Some.
      * by apply wf_tasks0.
      * apply list_lookup_singleton_Some in Hk2 as [Hk2 <-]. simpl.
        rewrite length_fmap. unfold MAX_CHUNKS_PER_TASK.
        repeat split; try lia.
  - unfold updateTask in H.
    apply bind_Ok in H as (_ & _ & H). apply bind_Ok in H as ([] & Hl1 & H).
    apply bind_Ok in H as ([] & Hl2 & H). apply bind_Ok in H as (_ & _ & H).
    apply bind_Ok in H as (task & Hat & H).
    apply bind_Ok in H as (n1 & Hn1 & H). apply bind_Ok in H as (n2 & Hn2 & H).
    pose proof (ingest_fold env inputProof encryptedChunks [] (acl st)) as Hing.
    destruct (foldl _ _ encryptedChunks) as [cs acl'].
    injection H as <-. simpl in Hing. subst cs. apply taskAt_Ok in Hat.
    arith_facts. simpl in *. subst. unfold MAX_CHUNKS_PER_TASK in *.
    refine (store_update owner_wf st _ (msg_sender env) _ _ Hwf _ _ _);
      [owner_eqs | owner_eqs | ].
    destruct Hs. rewrite uint8_small by done.
    eapply owner_wf_insert; [by split | exact Hat | ..]; simpl;
      unfold MAX_CHUNKS_PER_TASK, len; rewrite ?length_fmap; try lia; auto.
  - unfold deleteTask in H.
    apply bind_Ok in H as (_ & _ & H). apply bind_Ok in H as (task & Hat & H).
    apply bind_Ok in H as (n1 & Hn1 & H). apply bind_Ok in H as (s1 & Hs1 & H).
    apply bind_Ok in H as (s2 & Hs2 & H). apply bind_Ok in H as (s3 & Hs3 & H).
    injection H as <-. apply taskAt_Ok in Hat.
    refine (store_update owner_wf st _ (msg_sender env) _ _ Hwf _ _ _);
      [owner_eqs | owner_eqs | ].
    destruct Hs. destruct (wf_tasks0 _ _ Hat) as (_ & Hc & _).
    unfold decStatus in Hs1.
    eapply owner_wf_insert; [by split | exact Hat | ..]; simpl; auto;
      destruct (status task), (isArchived task), (isFavorite task);
      inv_ok Hs1; inv_ok Hs2; inv_ok Hs3; subst; arith_facts; simpl in *; lia.
  - unfold updateTaskStatus in H.
    apply bind_Ok in H as (_ & _ & H). apply bind_Ok in H as (task & Hat & H).
    apply bind_Ok in H as (_ & _ & H). apply taskAt_Ok in Hat.
    destruct (decide (status task ≠ newStatus)); [|by injection H as <-].
    apply bind_Ok in H as (s1 & Hs1 & H). apply bind_Ok in H as ([s2 t2] & Hs2 & H).
    injection H as <-.
    refine (store_update owner_wf st _ (msg_sender env) _ _ Hwf _ _ _);
      [owner_eqs | owner_eqs | ].
    destruct Hs. destruct (wf_tasks0 _ _ Hat) as (_ & Hc & _ & Hd).
    unfold decStatus in Hs1.
    eapply owner_wf_insert; [by split | exact Hat | ..];
      destruct (status task), newStatus; inv_ok Hs1; inv_ok Hs2; subst;
      arith_facts; simpl in *; auto; lia.
  - unfold updateTaskPriority in H.
    apply bind_Ok in H as (_ & _ & H). apply bind_Ok in H as (task & Hat & H).
    apply bind_Ok in H as (_ & _ & H). apply taskAt_Ok in Hat.
    destruct (decide (priority task ≠ newPriority)); [|by injection H as <-].
    injection H as <-.
    refine (store_update owner_wf st _ (msg_sender env) _ (statsOf st (msg_sender env))
              Hwf _ _ _); [owner_eqs | owner_eqs | ].
    destruct Hs. destruct (wf_tasks0 _ _ Hat) as (_ & Hc & _ & Hd).
    eapply owner_wf_insert; [by split | exact Hat | ..]; simpl; auto; lia.
  - unfold setArchived in H.
    apply bind_Ok in H as (_ & _ & H). apply bind_Ok in H as (task & Hat & H).
    apply bind_Ok in H as (_ & _ & H). apply taskAt_Ok in Hat.
    destruct (decide (isArchived task ≠ archived)) as [Hne|]; [|by injection H as <-].
    apply bind_Ok in H as (n & Hn & H). injection H as <-.
    refine (store_update owner_wf st _ (msg_sender env) _ _ Hwf _ _ _);
      [owner_eqs | owner_eqs | ].
    destruct Hs. destruct (wf_tasks0 _ _ Hat) as (_ & Hc & _ & Hd).
    eapply owner_wf_insert; [by split | exact Hat | ..]; simpl; auto;
      destruct (isArchived task), archived; try done; arith_facts; simpl in *; lia.
  - unfold setFavorite in H.
    apply bind_Ok in H as (_ & _ & H). apply bind_Ok in H as (task & Hat & H).
    apply bind_Ok in H as (_ & _ & H). apply taskAt_Ok in Hat.
    destruct (decide (isFavorite task ≠ favorite)) as [Hne|]; [|by injection H as <-].
    apply bind_Ok in H as (n & Hn & H). injection H as <-.
    refine (store_update owner_wf st _ (msg_sender env) _ _ Hwf _ _ _);
      [owner_eqs | owner_eqs | ].
    destruct Hs. destruct (wf_tasks0 _ _ Hat) as (_ & Hc & _ & Hd).
    eapply owner_wf_insert; [by split | exact Hat | ..]; simpl; auto;
      destruct (isFavorite task), favorite; try done; arith_facts; simpl in *; lia.
  - unfold shareTask in H. split_cases H. subst. intros x. apply Hwf.
Qed.

Lemma reachable_store_wf st : reachable st → store_wf st.
Proof.
  induction 1 as [|st env c st' _ IH Hexec];
    [apply store_wf_init | by eapply exec_store_wf].
Qed.


(** *** The content readers *)

Lemma handlesLoop_copies (description : list euint32) (done_ rest : list euint32) :
  description = done_ ++ rest →
  handlesLoop description (length done_) (length rest)
    ((toBytes32 <$> done_) ++ replicate (length rest) 0)
  = Ok (toBytes32 <$> description).
Proof.
  revert done_. induction rest as [|c rest IH]; intros done_ ->; simpl.
  - by rewrite !app_nil_r.
  - rewrite lookup_app_r, Nat.sub_diag by lia. simpl.
    rewrite insert_app_r_alt by (rewrite length_fmap; lia).
    rewrite length_fmap, Nat.sub_diag. simpl.
    specialize (IH (done_ ++ [c])). rewrite length_app in IH. simpl in IH.
    replace (length done_ + 1)%nat with (S (length done_)) in IH by lia.
    rewrite fmap_app in IH. simpl in IH. rewrite <- !app_assoc in IH. simpl in IH.
    by apply IH.
Qed.

Lemma readHandles_live task :
  chunkCount task = len (encryptedDescription task) →
  readHandles task = Ok (toBytes32 <$> encryptedDescription task).
Proof.
  intros Hc. unfold readHandles. rewrite Hc. unfold len. rewrite Nat2N.id.
  exact (handlesLoop_copies (encryptedDescription task) [] _ eq_refl).
Qed.


Lemma UINT256_MAX_large : 1000000 ≤ UINT256_MAX.
Proof. vm_compute. discriminate. Qed.

Lemma owner_wf_storage_bound a l s :
  owner_wf a l s → totalStorage s ≤ 128 * len l ∧ len l ≤ 1000.
Proof.
  intros []. split.
  - etrans; [exact wf_storage0|]. apply sumOver_le. intros k t Hk.
    by destruct (wf_tasks0 _ _ Hk) as (_ & ? & _).
  - unfold MAX_TASKS_PER_USER in *. lia.
Qed.

(** X1. In every reachable state the [totalTasks] counter of an owner is
    the length of the owner's task array, deleted slots included; it never
    exceeds 1000, the three status counters never sum to more than it, and
    [overdueTasks] is always 0. *)
Theorem totalTasks_counts_every_slot env st :
  reachable st →
  totalTasks (getMyStats env st) = getTasksCount env st ∧
  getTasksCount env st ≤ MAX_TASKS_PER_USER ∧
  todoTasks (getMyStats env st) + inProgressTasks (getMyStats env st)
    + completedTasks (getMyStats env st) ≤ totalTasks (getMyStats env st) ∧
  overdueTasks (getMyStats env st) = 0.
Proof.
  intros Hreach. destruct (reachable_store_wf _ Hreach (msg_sender env)).
  unfold getMyStats, getTasksCount. repeat split; try done. by rewrite <- wf_total0.
Qed.

Lemma totalTasks_counts_every_slot_witness :
  ∃ st, reachable st ∧ length (liveTasks st alice) = 1%nat ∧
    totalTasks (getMyStats as_alice st) = 2 ∧ getTasksCount as_alice st = 2.
Proof.
  set (txs := [(as_alice, newTask 2); (as_alice, newTask 3); (as_alice, DeleteTask 0)]).
  assert (Hreach : reachable (state_after txs)).
  { apply (tasks_run_reachable txs init); [apply reachable_init | vm_compute; reflexivity]. }
  exists (state_after txs). split; [exact Hreach|]. split; [vm_compute; reflexivity|].
  destruct (totalTasks_counts_every_slot as_alice _ Hreach) as (-> & _).
  split; vm_compute; reflexivity.
Defined.

(** X2. Task ids are array positions and are never reused: in every
    reachable state entry [k] of [getMyTasks] has id [k]; [createTask]
    returns the current array length as the new id and lengthens the array
    by one; [deleteTask] leaves the length as it is. *)
Theorem task_ids_are_positions env st :
  reachable st →
  (∀ k m, getMyTasks env st !! k = Some m → md_id m = N.of_nat k) ∧
  (∀ chunks proof title_ p d cat tgs col st' taskId,
     createTask env chunks proof title_ p d cat tgs col st = Ok (st', taskId) →
     taskId = getTasksCount env st ∧ getTasksCount env st' = taskId + 1) ∧
  (∀ taskId st', deleteTask env taskId st = Ok st' →
     getTasksCount env st' = getTasksCount env st).
Proof.
  intros Hreach. destruct (reachable_store_wf _ Hreach (msg_sender env)).
  split; [|split].
  - intros k m Hk. unfold getMyTasks in Hk. rewrite list_lookup_fmap in Hk.
    destruct (tasksOf st (msg_sender env) !! k) as [t|] eqn:Ht; [|done].
    injection Hk as <-. simpl. by destruct (wf_tasks0 _ _ Ht).
  - intros chunks proof title_ p d cat tgs col st' taskId H. unfold createTask in H.
    apply bind_Ok in H as (_ & _ & H). apply bind_Ok in H as (_ & _ & H).
    destruct (foldl _ _ chunks) as [cs acl'].
    apply bind_Ok in H as (n1 & _ & H). apply bind_Ok in H as (n2 & _ & H).
    apply bind_Ok in H as (n3 & _ & H). injection H as <- <-.
    split; [done|]. unfold getTasksCount.
    destruct (nonempty cat); autorewrite with owner; rewrite decide_True by done;
      unfold len; rewrite length_app; simpl; lia.
  - intros taskId st' H. unfold deleteTask in H. split_cases H. subst.
    unfold getTasksCount, len. by rewrite length_tasksOf_write_task.
Qed.

Lemma task_ids_are_positions_witness :
  ∃ st st' taskId, reachable st ∧
    createTask as_alice [7] [] "Buy tea" Low 0 EmptyString [] EmptyString st
      = Ok (st', taskId) ∧
    length (liveTasks st alice) = 1%nat ∧ taskId = 2.
Proof.
  set (txs := [(as_alice, newTask 2); (as_alice, newTask 3); (as_alice, DeleteTask 0)]).
  assert (Hreach : reachable (state_after txs)).
  { apply (tasks_run_reachable txs init); [apply reachable_init | vm_compute; reflexivity]. }
  set (st' := state_after (txs ++ [(as_alice,
                CreateTask [7] [] "Buy tea" Low 0 EmptyString [] EmptyString)])).
  assert (H : createTask as_alice [7] [] "Buy tea" Low 0 EmptyString [] EmptyString
                (state_after txs) = Ok (st', 2)) by (vm_compute; reflexivity).
  exists (state_after txs), st', 2. split; [exact Hreach|]. split; [exact H|].
  split; [vm_compute; reflexivity|].
  destruct (proj1 (proj2 (task_ids_are_positions as_alice _ Hreach)) _ _ _ _ _ _ _ _ _ _ H)
    as [_ _]. reflexivity.
Defined.

(** X3. [createTask] never panics in a reachable state. It reverts with
    the reason of the first failing check, in the order empty chunk list,
    more than 128 chunks, 1000 tasks already counted, empty title, and it
    succeeds in every other case, returning the array length as id. *)
Theorem createTask_outcome env chunks proof title_ p d cat tgs col st :
  reachable st →
  match createTask env chunks proof title_ p d cat tgs col st with
  | Ok (st', taskId) =>
      0 < len chunks ∧ len chunks ≤ 128 ∧ totalTasks (getMyStats env st) < 1000 ∧
      title_ ≠ EmptyString ∧ taskId = getTasksCount env st
  | Revert reason =>
      reason = (if len chunks =? 0 then "Empty task"
                else if 128 <? len chunks then "Task too large"
                else if 1000 <=? totalTasks (getMyStats env st) then "Max tasks reached"
                else "Title required") ∧
      (len chunks = 0 ∨ 128 < len chunks ∨ 1000 ≤ totalTasks (getMyStats env st)
       ∨ title_ = EmptyString)
  | Panic _ => False
  end.
Proof.
  intros Hreach. pose proof (reachable_store_wf _ Hreach (msg_sender env)) as Hwf.
  destruct (owner_wf_storage_bound _ _ _ Hwf) as [Hsto Hlen]. destruct Hwf.
  pose proof UINT256_MAX_large.
  unfold createTask, withinLimits, getMyStats, getTasksCount,
    MAX_CHUNKS_PER_TASK, MAX_TASKS_PER_USER in *.
  destruct (0 <? len chunks) eqn:H0; simpl.
  2:{ apply N.ltb_ge in H0. assert (len chunks = 0) as -> by lia. simpl. auto. }
  apply N.ltb_lt in H0. replace (len chunks =? 0) with false
    by (symmetry; apply N.eqb_neq; lia).
  destruct (len chunks <=? 128) eqn:H1; simpl.
  2:{ apply N.leb_gt in H1. apply N.ltb_lt in H1 as Hb. rewrite Hb. split; [done|]. auto. }
  apply N.leb_le in H1. replace (128 <? len chunks) with false
    by (symmetry; apply N.ltb_ge; lia).
  destruct (totalTasks (statsOf st (msg_sender env)) <? 1000) eqn:H2; simpl.
  2:{ apply N.ltb_ge in H2. apply N.leb_le in H2 as Hb. rewrite Hb. split; [done|]. auto. }
  apply N.ltb_lt in H2. replace (1000 <=? totalTasks (statsOf st (msg_sender env)))
    with false by (symmetry; apply N.leb_gt; lia).
  destruct (nonempty title_) eqn:H3; simpl.
  2:{ split; [done|]. do 3 right. destruct title_; [done|discriminate]. }
  apply nonempty_spec in H3.
  destruct (foldl _ _ chunks) as [cs acl'].
  rewrite (add256_fits (totalTasks _) 1) by lia. simpl.
  rewrite (add256_fits (todoTasks _) 1) by lia. simpl.
  rewrite (add256_fits (totalStorage _) (len chunks)) by lia. simpl.
  done.
Qed.

Lemma createTask_outcome_witness :
  reachable init ∧
  (∃ st', createTask as_alice (replicate 128 7) [] "Buy milk" Low 0 EmptyString []
            EmptyString init = Ok (st', 0)) ∧
  createTask as_alice (replicate 129 7) [] "Buy milk" Low 0 EmptyString []
    EmptyString init = Revert "Task too large" ∧
  createTask as_alice [] [] EmptyString Low 0 EmptyString [] EmptyString init
    = Revert "Empty task".
Proof.
  split; [apply reachable_init|].
  pose proof (createTask_outcome as_alice (replicate 128 7) [] "Buy milk" Low 0
                EmptyString [] EmptyString init reachable_init) as H.
  destruct (createTask as_alice (replicate 128 7) [] "Buy milk" Low 0 EmptyString []
              EmptyString init) as [[st' i]| |] eqn:Hc.
  - destruct H as (_ & _ & _ & _ & ->). split; [by exists st'|].
    split; vm_compute; reflexivity.
  - exfalso. destruct H as [_ [H|[H|[H|H]]]]; vm_compute in H; discriminate.
  - destruct H.
Defined.


(** X4. What [createTask] stores is what [getTaskContent] returns: after a
    successful [createTask] by a caller other than address 0, the caller's
    [getTaskContent] on the returned id yields one handle per submitted
    chunk, in order, and a metadata record holding the submitted title,
    priority, due date, category, tags and colour, status Todo, both
    timestamps equal to the block time, no completion time, the chunk
    count, both flags false, and the caller as owner. *)
Theorem createTask_getTaskContent env chunks proof title_ p d cat tgs col st st' taskId :
  msg_sender env ≠ 0 →
  createTask env chunks proof title_ p d cat tgs col st = Ok (st', taskId) →
  getTaskContent env taskId st' =
    Ok ((λ e, toBytes32 (FHE.fromExternal e proof)) <$> chunks,
        mkTaskMetadata taskId title_ Todo p d cat tgs (block_timestamp env)
          (block_timestamp env) 0 (len chunks) false false col (msg_sender env)).
Proof.
  intros Hsender H. unfold createTask, withinLimits in H.
  apply bind_Ok in H as ([] & Hlim & H).
  apply bind_Ok in Hlim as ([] & Hl1 & Hlim). apply bind_Ok in Hlim as ([] & Hl2 & Hl3).
  apply bind_Ok in H as ([] & _ & H).
  pose proof (ingest_fold env proof chunks [] (acl st)) as Hing.
  destruct (foldl _ _ chunks) as [cs acl'].
  apply bind_Ok in H as (n1 & _ & H). apply bind_Ok in H as (n2 & _ & H).
  apply bind_Ok in H as (n3 & _ & H). injection H as <- <-.
  simpl in Hing. subst cs. arith_facts. unfold MAX_CHUNKS_PER_TASK in *.
  rewrite uint8_small by done.
  set (task := mkTask _ _ _ _ _ _ _ _ _ _ _ _ _ _ _ _).
  set (st' := foldl _ _ tgs).
  assert (Htasks : tasksOf st' (msg_sender env) = tasksOf st (msg_sender env) ++ [task]).
  { unfold st'. destruct (nonempty cat); autorewrite with owner;
      by rewrite decide_True. }
  unfold getTaskContent, taskExists, taskAt. rewrite Htasks.
  assert (Hlt : (len (tasksOf st (msg_sender env)) <?
                 len (tasksOf st (msg_sender env) ++ [task])) = true).
  { apply N.ltb_lt. unfold len. rewrite length_app. simpl. lia. }
  rewrite Hlt. simpl. unfold len at 1.
  rewrite Nat2N.id, lookup_app_r, Nat.sub_diag by lia. simpl.
  apply N.eqb_neq in Hsender as ->. simpl.
  rewrite readHandles_live by (simpl; unfold len; by rewrite length_fmap).
  simpl. by rewrite <- list_fmap_compose.
Qed.

Lemma createTask_getTaskContent_witness :
  ∃ st', createTask as_alice [5; 6] [] "Buy tea" High 9 "home" ["a"] "red" init
           = Ok (st', 0) ∧
    getTaskContent as_alice 0 st' =
      Ok ([5; 6], mkTaskMetadata 0 "Buy tea" Todo High 9 "home" ["a"] 1700000000
                    1700000000 0 2 false false "red" alice).
Proof.
  set (st' := state_after [(as_alice,
     CreateTask [5; 6] [] "Buy tea" High 9 "home" ["a"] "red")]).
  assert (H : createTask as_alice [5; 6] [] "Buy tea" High 9 "home" ["a"] "red" init
              = Ok (st', 0)) by (vm_compute; reflexivity).
  exists st'. split; [exact H|].
  assert (Hne : msg_sender as_alice ≠ 0) by (vm_compute; discriminate).
  exact (createTask_getTaskContent _ _ _ _ _ _ _ _ _ _ _ _ Hne H).
Defined.

(** X5. [getTaskContent] never panics in a reachable state: it reverts
    when the id is past the end of the caller's array or when the record
    is deleted, and otherwise returns every handle of the record with its
    metadata. *)
Theorem getTaskContent_outcome env taskId st :
  reachable st →
  match tasksOf st (msg_sender env) !! N.to_nat taskId with
  | None => getTaskContent env taskId st = Revert "Task does not exist"
  | Some task =>
      getTaskContent env taskId st =
        if decide (owner task = 0) then Revert "Task deleted"
        else Ok (toBytes32 <$> encryptedDescription task, metadataOf task (msg_sender env))
  end.
Proof.
  intros Hreach. destruct (reachable_store_wf _ Hreach (msg_sender env)).
  unfold getTaskContent, taskExists, taskAt.
  destruct (tasksOf st (msg_sender env) !! N.to_nat taskId) as [task|] eqn:Ht.
  - pose proof (lookup_lt_Some _ _ _ Ht).
    replace (_ <? _) with true by (symmetry; apply N.ltb_lt; unfold len; lia). simpl.
    destruct (wf_tasks0 _ _ Ht) as (_ & _ & _ & Hd).
    destruct (decide (owner task = 0)) as [->|Hlive]; [done|].
    apply N.eqb_neq in Hlive as Hb. rewrite Hb. simpl.
    by rewrite readHandles_live by (by apply Hd).
  - apply lookup_ge_None in Ht.
    by replace (_ <? _) with false by (symmetry; apply N.ltb_ge; unfold len; lia).
Qed.

Lemma getTaskContent_outcome_witness :
  ∃ st, reachable st ∧
    getTaskContent as_alice 0 st = Revert "Task deleted" ∧
    (∃ m, getTaskContent as_alice 1 st = Ok ([7; 7; 7], m)) ∧
    getTaskContent as_alice 2 st = Revert "Task does not exist".
Proof.
  set (txs := [(as_alice, newTask 2); (as_alice, newTask 3); (as_alice, DeleteTask 0)]).
  assert (Hreach : reachable (state_after txs)).
  { apply (tasks_run_reachable txs init); [apply reachable_init | vm_compute; reflexivity]. }
  exists (state_after txs). split; [exact Hreach|].
  pose proof (getTaskContent_outcome as_alice 0 _ Hreach) as H0.
  pose proof (getTaskContent_outcome as_alice 1 _ Hreach) as H1.
  pose proof (getTaskContent_outcome as_alice 2 _ Hreach) as H2.
  evar (t0 : Task). evar (t1 : Task).
  assert (Ht0 : tasksOf (state_after txs) (msg_sender as_alice) !! N.to_nat 0 = Some t0)
    by (vm_compute; reflexivity).
  assert (Ht1 : tasksOf (state_after txs) (msg_sender as_alice) !! N.to_nat 1 = Some t1)
    by (vm_compute; reflexivity).
  assert (Ht2 : tasksOf (state_after txs) (msg_sender as_alice) !! N.to_nat 2 = None)
    by (vm_compute; reflexivity).
  rewrite Ht0 in H0. rewrite Ht1 in H1. rewrite Ht2 in H2.
  split; [exact H0|]. split; [|exact H2]. eexists. exact H1.
Defined.


(** The checks of [getSharedTaskContent] in their order. *)
Lemma getSharedTaskContent_cases env owner_ taskId st :
  reachable st →
  getSharedTaskContent env owner_ taskId st =
    if decide (owner_ = 0) then Revert "Invalid owner"
    else match tasksOf st owner_ !! N.to_nat taskId with
         | None => Revert "Task does not exist"
         | Some task =>
             if decide (owner task = 0) then Revert "Task deleted"
             else if isShared st (msg_sender env) owner_ taskId
             then Ok (toBytes32 <$> encryptedDescription task, metadataOf task owner_)
             else Revert "Task not shared with you"
         end.
Proof.
  intros Hreach. destruct (reachable_store_wf _ Hreach owner_).
  unfold getSharedTaskContent, taskAt.
  destruct (decide (owner_ = 0)) as [->|Ho]; [done|].
  apply N.eqb_neq in Ho as ->. simpl.
  destruct (tasksOf st owner_ !! N.to_nat taskId) as [task|] eqn:Ht.
  - pose proof (lookup_lt_Some _ _ _ Ht).
    replace (_ <? _) with true by (symmetry; apply N.ltb_lt; unfold len; lia). simpl.
    destruct (wf_tasks0 _ _ Ht) as (_ & _ & _ & Hd).
    destruct (decide (owner task = 0)) as [->|Hlive]; [done|].
    apply N.eqb_neq in Hlive as Hb. rewrite Hb. simpl.
    destruct (isShared st (msg_sender env) owner_ taskId); [|done]. simpl.
    by rewrite readHandles_live by (by apply Hd).
  - apply lookup_ge_None in Ht.
    by replace (_ <? _) with false by (symmetry; apply N.ltb_ge; unfold len; lia).
Qed.

(** X6. [getSharedTaskContent] never panics in a reachable state. Its
    checks run in this order: a null owner, an id past the end of the
    owner's array, a deleted record, no reference to the record in the
    caller's shared-with list; when all pass it returns every handle of
    the record and its metadata labelled with the owner. *)
Theorem getSharedTaskContent_outcome env owner_ taskId st :
  reachable st →
  getSharedTaskContent env owner_ taskId st =
    if decide (owner_ = 0) then Revert "Invalid owner"
    else match tasksOf st owner_ !! N.to_nat taskId with
         | None => Revert "Task does not exist"
         | Some task =>
             if decide (owner task = 0) then Revert "Task deleted"
             else if isShared st (msg_sender env) owner_ taskId
             then Ok (toBytes32 <$> encryptedDescription task, metadataOf task owner_)
             else Revert "Task not shared with you"
         end.
Proof. apply getSharedTaskContent_cases. Qed.

Lemma getSharedTaskContent_outcome_witness :
  ∃ st, reachable st ∧
    getSharedTaskContent as_bob alice 0 st = Revert "Task deleted" ∧
    (∃ m, getSharedTaskContent as_bob alice 1 st = Ok ([7; 7; 7], m)) ∧
    getSharedTaskContent as_bob alice 2 st = Revert "Task not shared with you" ∧
    getSharedTaskContent as_bob alice 3 st = Revert "Task does not exist" ∧
    getSharedTaskContent as_bob 0 0 st = Revert "Invalid owner".
Proof.
  set (txs := [(as_alice, newTask 2); (as_alice, newTask 3); (as_alice, newTask 1);
               (as_alice, ShareTask 0 bob); (as_alice, ShareTask 1 bob);
               (as_alice, DeleteTask 0)]).
  assert (Hreach : reachable (state_after txs)).
  { apply (tasks_run_reachable txs init); [apply reachable_init | vm_compute; reflexivity]. }
  exists (state_after txs). split; [exact Hreach|].
  pose proof (getSharedTaskContent_outcome as_bob alice 0 _ Hreach) as H0.
  pose proof (getSharedTaskContent_outcome as_bob alice 1 _ Hreach) as H1.
  pose proof (getSharedTaskContent_outcome as_bob alice 2 _ Hreach) as H2.
  pose proof (getSharedTaskContent_outcome as_bob alice 3 _ Hreach) as H3.
  pose proof (getSharedTaskContent_outcome as_bob 0 0 _ Hreach) as H4.
  evar (t0 : Task). evar (t1 : Task). evar (t2 : Task).
  assert (Ht0 : tasksOf (state_after txs) alice !! N.to_nat 0 = Some t0)
    by (vm_compute; reflexivity).
  assert (Ht1 : tasksOf (state_after txs) alice !! N.to_nat 1 = Some t1)
    by (vm_compute; reflexivity).
  assert (Ht2 : tasksOf (state_after txs) alice !! N.to_nat 2 = Some t2)
    by (vm_compute; reflexivity).
  assert (Ht3 : tasksOf (state_after txs) alice !! N.to_nat 3 = None)
    by (vm_compute; reflexivity).
  assert (Hs1 : isShared (state_after txs) (msg_sender as_bob) alice 1 = true)
    by (vm_compute; reflexivity).
  assert (Hs2 : isShared (state_after txs) (msg_sender as_bob) alice 2 = false)
    by (vm_compute; reflexivity).
  rewrite Ht0 in H0. rewrite Ht1, Hs1 in H1. rewrite Ht2, Hs2 in H2. rewrite Ht3 in H3.
  split; [exact H0|]. split; [eexists; exact H1|]. split; [exact H2|].
  split; [exact H3|exact H4].
Defined.

(** X7. Sharing gives the grantee read access and decryption rights: in a
    reachable state, after a successful [shareTask] by a caller other than
    address 0, the grantee's [getSharedTaskContent] returns every handle
    of the record, and the access control list holds the grantee's right
    on each of them. *)
Theorem shareTask_grants_access env env' taskId recipient st st' :
  reachable st → msg_sender env ≠ 0 → msg_sender env' = recipient →
  shareTask env taskId recipient st = Ok st' →
  ∃ task, tasksOf st (msg_sender env) !! N.to_nat taskId = Some task ∧
    getSharedTaskContent env' (msg_sender env) taskId st' =
      Ok (toBytes32 <$> encryptedDescription task, metadataOf task (msg_sender env)) ∧
    (∀ h, h ∈ encryptedDescription task → (h, recipient) ∈ acl st').
Proof.
  intros Hreach Hsender Hrec H.
  assert (Hreach' : reachable st')
    by (apply (reachable_step st env (ShareTask taskId recipient) st' Hreach H)).
  pose proof (getSharedTaskContent_cases env' (msg_sender env) taskId _ Hreach') as Hout.
  unfold shareTask in H.
  apply bind_Ok in H as ([] & Hex & H). apply bind_Ok in H as ([] & Hr0 & H).
  apply bind_Ok in H as ([] & Hrs & H). apply bind_Ok in H as (task & Hat & H).
  apply bind_Ok in H as ([] & Hlive & H). injection H as <-.
  apply taskAt_Ok in Hat. exists task. split; [done|]. split.
  - rewrite Hout. rewrite decide_False by done.
    autorewrite with owner. rewrite Hat.
    arith_facts. rewrite decide_False by done.
    replace (isShared _ _ _ _) with true; [done|]. symmetry.
    unfold isShared. rewrite Hrec, sharedOf_push_shared, decide_True by done.
    rewrite existsb_app. simpl. rewrite !N.eqb_refl. simpl. apply orb_true_r.
  - intros h Hh. simpl. by apply foldl_allow_elem.
Qed.

Lemma shareTask_grants_access_witness :
  ∃ st st', reachable st ∧ shareTask as_alice 0 bob st = Ok st' ∧
    (∃ m, getSharedTaskContent as_bob alice 0 st' = Ok ([7; 7], m)) ∧
    (7, bob) ∈ acl st'.
Proof.
  set (txs := [(as_alice, newTask 2)]).
  assert (Hreach : reachable (state_after txs)).
  { apply (tasks_run_reachable txs init); [apply reachable_init | vm_compute; reflexivity]. }
  set (st' := state_after (txs ++ [(as_alice, ShareTask 0 bob)])).
  assert (H : shareTask as_alice 0 bob (state_after txs) = Ok st')
    by (vm_compute; reflexivity).
  assert (Hne : msg_sender as_alice ≠ 0) by (vm_compute; discriminate).
  destruct (shareTask_grants_access as_alice as_bob 0 bob _ _ Hreach Hne eq_refl H)
    as (task & Ht & Hget & Hacl).
  evar (t0 : Task).
  assert (Ht0 : tasksOf (state_after txs) (msg_sender as_alice) !! N.to_nat 0 = Some t0)
    by (vm_compute; reflexivity).
  rewrite Ht0 in Ht. injection Ht as <-.
  exists (state_after txs), st'. split; [exact Hreach|]. split; [exact H|].
  split; [eexists; exact Hget|]. apply Hacl. vm_compute. apply list_elem_of_here.
Defined.

(** X8. Deleting a shared record closes the grantee's read but keeps the
    grant: after a successful [deleteTask] by a caller other than address
    0, [getSharedTaskContent] on that record reverts with the
    deleted-record error for every caller, while every shared-with list
    is exactly as before. *)
Theorem deleteTask_closes_shared_read env env' taskId st st' :
  msg_sender env ≠ 0 →
  deleteTask env taskId st = Ok st' →
  getSharedTaskContent env' (msg_sender env) taskId st' = Revert "Task deleted" ∧
  sharedWithMe st' = sharedWithMe st ∧
  (∀ g, isShared st' g (msg_sender env) taskId = isShared st g (msg_sender env) taskId).
Proof.
  intros Hsender H. unfold deleteTask in H.
  apply bind_Ok in H as ([] & Hex & H). apply bind_Ok in H as (task & Hat & H).
  apply bind_Ok in H as (n1 & _ & H). apply bind_Ok in H as (s1 & _ & H).
  apply bind_Ok in H as (s2 & _ & H). apply bind_Ok in H as (s3 & _ & H).
  injection H as <-. apply taskAt_Ok in Hat. apply taskExists_Ok in Hex.
  split; [|done].
  unfold getSharedTaskContent, taskAt. apply N.eqb_neq in Hsender as ->. simpl.
  rewrite tasksOf_write_task, decide_True by done. autorewrite with owner.
  unfold len. rewrite length_insert.
  replace (_ <? _) with true by (symmetry; apply N.ltb_lt; lia). simpl.
  by rewrite list_lookup_insert_eq by done.
Qed.

Lemma deleteTask_closes_shared_read_witness :
  ∃ st st', deleteTask as_alice 0 st = Ok st' ∧
    isShared st bob alice 0 = true ∧
    getSharedTaskContent as_bob alice 0 st' = Revert "Task deleted" ∧
    isShared st' bob alice 0 = true.
Proof.
  set (st := state_after [(as_alice, newTask 2); (as_alice, ShareTask 0 bob)]).
  set (st' := state_after [(as_alice, newTask 2); (as_alice, ShareTask 0 bob);
                           (as_alice, DeleteTask 0)]).
  assert (H : deleteTask as_alice 0 st = Ok st') by (vm_compute; reflexivity).
  assert (Hne : msg_sender as_alice ≠ 0) by (vm_compute; discriminate).
  destruct (deleteTask_closes_shared_read as_alice as_bob 0 st st' Hne H)
    as (Hget & _ & Hshared).
  exists st, st'. split; [exact H|]. split; [vm_compute; reflexivity|].
  split; [exact Hget|]. vm_compute; reflexivity.
Defined.


Lemma lookup_after_write st st1 sender i (t t' : Task) :
  tasksOf st sender !! N.to_nat i = Some t →
  tasksOf st1 sender = <[N.to_nat i := t']> (tasksOf st sender) →
  taskExists st1 sender i = Ok tt ∧ taskAt st1 sender i = Ok t'.
Proof.
  intros Ht Heq. pose proof (lookup_lt_Some _ _ _ Ht).
  unfold taskExists, taskAt. rewrite Heq. unfold len. rewrite length_insert.
  replace (_ <? _) with true by (symmetry; apply N.ltb_lt; lia).
  by rewrite list_lookup_insert_eq.
Qed.

Lemma lookup_in_place st sender i (t : Task) :
  tasksOf st sender !! N.to_nat i = Some t →
  taskExists st sender i = Ok tt ∧ taskAt st sender i = Ok t.
Proof.
  intros Ht. pose proof (lookup_lt_Some _ _ _ Ht).
  unfold taskExists, taskAt. rewrite Ht. unfold len.
  by replace (_ <? _) with true by (symmetry; apply N.ltb_lt; lia).
Qed.

(** X9. The four setters are idempotent: when [updateTaskStatus],
    [updateTaskPriority], [setArchived] or [setFavorite] has succeeded,
    the same call by the same caller succeeds again and leaves the store
    exactly as it is, counters and [updatedAt] included, whatever the
    block time of the second call. *)
Theorem setters_are_idempotent env env' c st st1 :
  match c with
  | UpdateTaskStatus _ _ | UpdateTaskPriority _ _ | SetArchived _ _ | SetFavorite _ _ => True
  | _ => False
  end →
  msg_sender env' = msg_sender env →
  exec env c st = Ok st1 → exec env' c st1 = Ok st1.
Proof.
  intros Hc Hsender H. destruct c; try done; simpl in *; clear Hc.
  - unfold updateTaskStatus in *. rewrite Hsender.
    apply bind_Ok in H as ([] & _ & H). apply bind_Ok in H as (task & Hat & H).
    apply bind_Ok in H as ([] & Hlive & H). apply taskAt_Ok in Hat.
    destruct (decide (status task ≠ newStatus)) as [Hne|Heq].
    + apply bind_Ok in H as (s1 & _ & H). apply bind_Ok in H as ([s2 t2] & Hs2 & H).
      injection H as <-.
      edestruct (lookup_after_write st) as [-> ->]; [exact Hat | |].
      { autorewrite with owner. by rewrite decide_True. }
      simpl.
      assert (owner t2 = owner task) as ->
        by (destruct newStatus; inv_ok Hs2; by subst).
      rewrite Hlive. simpl. by rewrite decide_False by (intros Hx; by apply Hx).
    + injection H as <-. destruct (lookup_in_place _ _ _ _ Hat) as [-> ->]. simpl.
      rewrite Hlive. simpl. by rewrite decide_False.
  - unfold updateTaskPriority in *. rewrite Hsender.
    apply bind_Ok in H as ([] & _ & H). apply bind_Ok in H as (task & Hat & H).
    apply bind_Ok in H as ([] & Hlive & H). apply taskAt_Ok in Hat.
    destruct (decide (priority task ≠ newPriority)) as [Hne|Heq].
    + injection H as <-.
      edestruct (lookup_after_write st) as [-> ->]; [exact Hat | |].
      { autorewrite with owner. by rewrite decide_True. }
      simpl. rewrite Hlive. simpl. by rewrite decide_False by (intros Hx; by apply Hx).
    + injection H as <-. destruct (lookup_in_place _ _ _ _ Hat) as [-> ->]. simpl.
      rewrite Hlive. simpl. by rewrite decide_False.
  - unfold setArchived in *. rewrite Hsender.
    apply bind_Ok in H as ([] & _ & H). apply bind_Ok in H as (task & Hat & H).
    apply bind_Ok in H as ([] & Hlive & H). apply taskAt_Ok in Hat.
    destruct (decide (isArchived task ≠ archived)) as [Hne|Heq].
    + apply bind_Ok in H as (n & _ & H). injection H as <-.
      edestruct (lookup_after_write st) as [-> ->]; [exact Hat | |].
      { autorewrite with owner. by rewrite decide_True. }
      simpl. rewrite Hlive. simpl. by rewrite decide_False by (intros Hx; by apply Hx).
    + injection H as <-. destruct (lookup_in_place _ _ _ _ Hat) as [-> ->]. simpl.
      rewrite Hlive. simpl. by rewrite decide_False.
  - unfold setFavorite in *. rewrite Hsender.
    apply bind_Ok in H as ([] & _ & H). apply bind_Ok in H as (task & Hat & H).
    apply bind_Ok in H as ([] & Hlive & H). apply taskAt_Ok in Hat.
    destruct (decide (isFavorite task ≠ favorite)) as [Hne|Heq].
    + apply bind_Ok in H as (n & _ & H). injection H as <-.
      edestruct (lookup_after_write st) as [-> ->]; [exact Hat | |].
      { autorewrite with owner. by rewrite decide_True. }
      simpl. rewrite Hlive. simpl. by rewrite decide_False by (intros Hx; by apply Hx).
    + injection H as <-. destruct (lookup_in_place _ _ _ _ Hat) as [-> ->]. simpl.
      rewrite Hlive. simpl. by rewrite decide_False.
Qed.

Lemma setters_are_idempotent_witness :
  ∃ st st1, exec as_alice (UpdateTaskStatus 0 Completed) st = Ok st1 ∧
    st1 ≠ st ∧
    exec as_bob (UpdateTaskStatus 0 Completed) st1 = Revert "Task does not exist" ∧
    exec (mkEnv alice 1800000000 0xC0FFEE) (UpdateTaskStatus 0 Completed) st1 = Ok st1.
Proof.
  set (st := state_after [(as_alice, newTask 2)]).
  set (st1 := state_after [(as_alice, newTask 2); (as_alice, UpdateTaskStatus 0 Completed)]).
  assert (H : exec as_alice (UpdateTaskStatus 0 Completed) st = Ok st1)
    by (vm_compute; reflexivity).
  exists st, st1. split; [exact H|]. split.
  { intros Heq. apply (f_equal (λ s, completedTasks (statsOf s alice))) in Heq.
    vm_compute in Heq. discriminate. }
  split; [vm_compute; reflexivity|].
  exact (setters_are_idempotent as_alice (mkEnv alice 1800000000 0xC0FFEE)
           (UpdateTaskStatus 0 Completed) st st1 I eq_refl H).
Defined.


(** *** One transaction, seen from the sender's array and counters *)

Lemma ingest_acl (env : Env) (proof : bytes) (chunks : list externalEuint32)
    (cs : list euint32) (acl0 : gset (euint32 * address)) x :
  x ∈ (foldl (ingest env proof) (cs, acl0) chunks).2 ↔
  x ∈ acl0 ∨ ∃ e, e ∈ chunks ∧
    (x = (FHE.fromExternal e proof, msg_sender env) ∨ x = (FHE.fromExternal e proof, this env)).
Proof.
  revert cs acl0. induction chunks as [|e chunks IH]; intros cs acl0; simpl.
  - split; [by left|]. intros [?|(e & He & _)]; [done|]. by apply elem_of_nil in He.
  - change (ingest env proof (cs, acl0) e) with
      (cs ++ [FHE.fromExternal e proof],
       FHE.allow (FHE.fromExternal e proof) (this env)
         (FHE.allow (FHE.fromExternal e proof) (msg_sender env) acl0)).
    rewrite IH. unfold FHE.allow.
    rewrite !elem_of_union, !elem_of_singleton. split.
    + intros [[->|[->|?]]|(e' & He' & Hx)].
      * right. exists e. split; [apply list_elem_of_here|by right].
      * right. exists e. split; [apply list_elem_of_here|by left].
      * by left.
      * right. exists e'. split; [by apply list_elem_of_further|done].
    + intros [?|(e' & He' & Hx)]; [by left; right; right|].
      apply elem_of_cons in He' as [->|He'].
      * left. destruct Hx as [->| ->]; [right; by left | by left].
      * right. by exists e'.
Qed.

Lemma foldl_allow_spec (r : address) (l : list euint32) (acl0 : gset (euint32 * address)) x :
  x ∈ foldl (λ s chunk, FHE.allow chunk r s) acl0 l ↔ x ∈ acl0 ∨ ∃ c, c ∈ l ∧ x = (c, r).
Proof.
  revert acl0. induction l as [|c l IH]; intros acl0; simpl.
  - split; [by left|]. intros [?|(c & Hc & _)]; [done|]. by apply elem_of_nil in Hc.
  - rewrite IH. unfold FHE.allow. rewrite elem_of_union, elem_of_singleton. split.
    + intros [[->|?]|(c' & Hc' & ->)].
      * right. exists c. split; [apply list_elem_of_here|done].
      * by left.
      * right. exists c'. split; [by apply list_elem_of_further|done].
    + intros [?|(c' & Hc' & ->)]; [by left; right|].
      apply elem_of_cons in Hc' as [->|Hc']; [by left; left|].
      right. by exists c'.
Qed.

Lemma acl_if_push (b : bool) a c i st :
  acl (if b then push_category a c i st else st) = acl st.
Proof. by destruct b. Qed.

Lemma live_true (t : Task) : owner t ≠ 0 → live t = true.
Proof. intros H. unfold live. by apply N.eqb_neq in H as ->. Qed.

Lemma live_false (t : Task) : owner t = 0 → live t = false.
Proof. intros H. unfold live. by rewrite H. Qed.

Lemma exec_owner_step env c st st' (guarded : bool) :
  (guarded = true → targetsLive st env c) →
  exec env c st = Ok st' →
  ∃ l' s',
    (∀ a, tasksOf st' a = if decide (msg_sender env = a) then l' else tasksOf st a) ∧
    (∀ a, statsOf st' a = if decide (msg_sender env = a) then s' else statsOf st a) ∧
    acl st ⊆ acl st' ∧
    OwnerStep (msg_sender env) (acl st') guarded
      (tasksOf st (msg_sender env)) (statsOf st (msg_sender env)) l' s'.
Proof.
  intros Hguard H.
  assert (Hsame : ∀ st0, acl st ⊆ acl st0 →
            (∀ a, tasksOf st0 a = tasksOf st a) → (∀ a, statsOf st0 a = statsOf st a) →
            ∃ l' s',
              (∀ a, tasksOf st0 a = if decide (msg_sender env = a) then l' else tasksOf st a) ∧
              (∀ a, statsOf st0 a = if decide (msg_sender env = a) then s' else statsOf st a) ∧
              acl st ⊆ acl st0 ∧
              OwnerStep (msg_sender env) (acl st0) guarded
                (tasksOf st (msg_sender env)) (statsOf st (msg_sender env)) l' s').
  { intros st0 Hacl Ht Hs. exists (tasksOf st (msg_sender env)), (statsOf st (msg_sender env)).
    split; [intros a; rewrite Ht; by case_decide; subst|].
    split; [intros a; rewrite Hs; by case_decide; subst|].
    split; [done | constructor]. }
  destruct c; simpl in H.
  - apply bind_Ok in H as ([st1 i] & H & [= <-]). unfold createTask, withinLimits in H.
    apply bind_Ok in H as ([] & Hlim & H).
    apply bind_Ok in Hlim as ([] & Hl1 & Hlim). apply bind_Ok in Hlim as ([] & Hl2 & Hl3).
    apply bind_Ok in H as ([] & _ & H).
    pose proof (ingest_fold env inputProof encryptedChunks [] (acl st)) as Hing.
    pose proof (λ x, ingest_acl env inputProof encryptedChunks [] (acl st) x) as Hacl.
    destruct (foldl _ _ encryptedChunks) as [cs acl'].
    apply bind_Ok in H as (n1 & Hn1 & H). apply bind_Ok in H as (n2 & Hn2 & H).
    apply bind_Ok in H as (n3 & Hn3 & H). injection H as <- <-. simpl.
    simpl in Hing, Hacl. subst cs. arith_facts. simpl in *. subst.
    unfold MAX_CHUNKS_PER_TASK in *. rewrite uint8_small by done.
    eexists _, _. split; [|split; [|split]].
    + intros a. destruct (nonempty category_); autorewrite with owner; reflexivity.
    + intros a. destruct (nonempty category_); autorewrite with owner; reflexivity.
    + rewrite (proj2 (proj2 (proj2 (proj2 (foldl_push_tag_frame _ _ tags_ _))))).
      rewrite acl_if_push. simpl. intros x Hx. apply Hacl. by left.
    + rewrite (proj2 (proj2 (proj2 (proj2 (foldl_push_tag_frame _ _ tags_ _))))).
      rewrite acl_if_push. simpl. autorewrite with owner.
      apply step_append; simpl; try done.
      intros h Hh. apply Hacl. right.
      apply list_elem_of_fmap in Hh as (e & -> & He). exists e. split; [done|by left].
  - unfold updateTask in H.
    apply bind_Ok in H as ([] & _ & H). apply bind_Ok in H as ([] & Hl1 & H).
    apply bind_Ok in H as ([] & Hl2 & H). apply bind_Ok in H as ([] & _ & H).
    apply bind_Ok in H as (task & Hat & H).
    apply bind_Ok in H as (n1 & Hn1 & H). apply bind_Ok in H as (n2 & Hn2 & H).
    pose proof (ingest_fold env inputProof encryptedChunks [] (acl st)) as Hing.
    pose proof (λ x, ingest_acl env inputProof encryptedChunks [] (acl st) x) as Hacl.
    destruct (foldl _ _ encryptedChunks) as [cs acl'].
    injection H as <-. simpl in Hing, Hacl. subst cs. apply taskAt_Ok in Hat.
    arith_facts. simpl in *. subst. unfold MAX_CHUNKS_PER_TASK in *.
    rewrite uint8_small by done.
    eexists _, _. split; [owner_eqs|]. split; [owner_eqs|].
    split; [intros x Hx; apply Hacl; by left|].
    autorewrite with owner.
    eapply step_replace; [exact Hat | | by left | |]; simpl.
    + intros Hg. destruct (Hguard Hg) as (t0 & Ht0 & Hlive0). by simplify_eq.
    + intros h Hh. right. apply Hacl. right.
      apply list_elem_of_fmap in Hh as (e & -> & He). exists e. split; [done|by left].
    + intros Hlive. unfold live, hasStatus; simpl.
      apply N.eqb_neq in Hlive as ->. simpl.
      repeat split; try done; lia.
  - unfold deleteTask in H.
    apply bind_Ok in H as ([] & _ & H). apply bind_Ok in H as (task & Hat & H).
    apply bind_Ok in H as (n1 & Hn1 & H). apply bind_Ok in H as (s1 & Hs1 & H).
    apply bind_Ok in H as (s2 & Hs2 & H). apply bind_Ok in H as (s3 & Hs3 & H).
    injection H as <-. apply taskAt_Ok in Hat.
    eexists _, _. split; [owner_eqs|]. split; [owner_eqs|]. split; [done|].
    autorewrite with owner.
    eapply step_replace; [exact Hat | | by right | |]; simpl.
    + intros Hg. destruct (Hguard Hg) as (t0 & Ht0 & Hlive0). by simplify_eq.
    + intros h Hh. by apply elem_of_nil in Hh.
    + intros _. unfold live, hasStatus, decStatus in *; simpl.
      destruct (status task), (isArchived task), (isFavorite task);
        inv_ok Hs1; inv_ok Hs2; inv_ok Hs3; subst; arith_facts; simpl in *;
        repeat split; lia.
  - unfold updateTaskStatus in H.
    apply bind_Ok in H as ([] & _ & H). apply bind_Ok in H as (task & Hat & H).
    apply bind_Ok in H as ([] & Hlive & H). apply taskAt_Ok in Hat.
    apply require_Ok, negb_true_iff in Hlive.
    destruct (decide (status task ≠ newStatus)); [|injection H as <-; by apply Hsame].
    apply bind_Ok in H as (s1 & Hs1 & H). apply bind_Ok in H as ([s2 t2] & Hs2 & H).
    injection H as <-.
    eexists _, _. split; [owner_eqs|]. split; [owner_eqs|]. split; [done|].
    autorewrite with owner. unfold decStatus in Hs1.
    assert (Ht2 : owner t2 = owner task ∧ encryptedDescription t2 = encryptedDescription task
                  ∧ isArchived t2 = isArchived task ∧ isFavorite t2 = isFavorite task
                  ∧ chunkCount t2 = chunkCount task)
      by (destruct newStatus; inv_ok Hs2; by subst).
    destruct Ht2 as (Ho & Hd & Har & Hfa & Hcc).
    eapply step_replace; [exact Hat | | left; simpl; exact Ho | |]; simpl.
    + intros _. by apply N.eqb_neq.
    + intros h Hh. left. by rewrite <- Hd.
    + intros _. unfold live, hasStatus; simpl. rewrite Ho, Hlive, Har, Hfa, Hcc. simpl.
      destruct (status task), newStatus; try done; inv_ok Hs1; inv_ok Hs2; subst;
        arith_facts; simpl in *; repeat split; lia.
  - unfold updateTaskPriority in H.
    apply bind_Ok in H as ([] & _ & H). apply bind_Ok in H as (task & Hat & H).
    apply bind_Ok in H as ([] & Hlive & H). apply taskAt_Ok in Hat.
    apply require_Ok, negb_true_iff in Hlive.
    destruct (decide (priority task ≠ newPriority)); [|injection H as <-; by apply Hsame].
    injection H as <-.
    exists (<[N.to_nat taskId := with_updatedAt (block_timestamp env)
                                   (with_priority newPriority task)]>
              (tasksOf st (msg_sender env))), (statsOf st (msg_sender env)).
    split; [owner_eqs|]. split; [owner_eqs|]. split; [done|].
    eapply step_replace; [exact Hat | | by left | |]; simpl.
    + intros _. by apply N.eqb_neq.
    + intros h Hh. by left.
    + intros _. unfold live, hasStatus; simpl. rewrite Hlive. simpl.
      repeat split; by destruct (_ : bool).
  - unfold setArchived in H.
    apply bind_Ok in H as ([] & _ & H). apply bind_Ok in H as (task & Hat & H).
    apply bind_Ok in H as ([] & Hlive & H). apply taskAt_Ok in Hat.
    apply require_Ok, negb_true_iff in Hlive.
    destruct (decide (isArchived task ≠ archived)) as [Hne|];
      [|injection H as <-; by apply Hsame].
    apply bind_Ok in H as (n & Hn & H). injection H as <-.
    eexists _, _. split; [owner_eqs|]. split; [owner_eqs|]. split; [done|].
    autorewrite with owner. eapply step_replace; [exact Hat | | by left | |]; simpl.
    + intros _. by apply N.eqb_neq.
    + intros h Hh. by left.
    + intros _. unfold live, hasStatus; simpl. rewrite Hlive. simpl.
      destruct (isArchived task), archived; try done; arith_facts; simpl;
        repeat split; try lia; by destruct (_ : bool).
  - unfold setFavorite in H.
    apply bind_Ok in H as ([] & _ & H). apply bind_Ok in H as (task & Hat & H).
    apply bind_Ok in H as ([] & Hlive & H). apply taskAt_Ok in Hat.
    apply require_Ok, negb_true_iff in Hlive.
    destruct (decide (isFavorite task ≠ favorite)) as [Hne|];
      [|injection H as <-; by apply Hsame].
    apply bind_Ok in H as (n & Hn & H). injection H as <-.
    eexists _, _. split; [owner_eqs|]. split; [owner_eqs|]. split; [done|].
    autorewrite with owner. eapply step_replace; [exact Hat | | by left | |]; simpl.
    + intros _. by apply N.eqb_neq.
    + intros h Hh. by left.
    + intros _. unfold live, hasStatus; simpl. rewrite Hlive. simpl.
      destruct (isFavorite task), favorite; try done; arith_facts; simpl;
        repeat split; try lia; by destruct (_ : bool).
  - unfold shareTask in H.
    apply bind_Ok in H as ([] & _ & H). apply bind_Ok in H as ([] & _ & H).
    apply bind_Ok in H as ([] & _ & H). apply bind_Ok in H as (task & Hat & H).
    apply bind_Ok in H as ([] & Hlive & H). injection H as <-.
    apply Hsame; [|done|done]. simpl. intros x Hx. by apply foldl_allow_mono.
Qed.


(** *** Counters on histories that only update and delete live records *)

Lemma exact_step sender grants l s l' s' :
  sender ≠ 0 → OwnerStep sender grants true l s l' s' →
  counters_exact l s → counters_exact l' s'.
Proof.
  intros Hsender Hstep [].
  destruct Hstep as [|t s' Ho Hst Har Hfa _ ? ? ? ? ? ?|i t t' s' Hi Hg _ _ Hd]; [done| |].
  - assert (Hlive : live t = true) by (apply live_true; congruence).
    split; unfold countLive, storageOfLive, hasStatus in *; rewrite sumOver_app; simpl;
      rewrite Hlive, ?Hst, ?Har, ?Hfa; simpl; lia.
  - specialize (Hg eq_refl). destruct (Hd Hg) as (H1 & H2 & H3 & H4 & H5 & H6).
    assert (Hlive : live t = true) by (by apply live_true).
    split; unfold countLive, storageOfLive in *.
    + pose proof (sumOver_insert (λ t, if live t && hasStatus Todo t then 1 else 0)
                    l i t t' Hi) as Hs. simpl in Hs. rewrite Hlive in Hs. simpl in Hs. lia.
    + pose proof (sumOver_insert (λ t, if live t && hasStatus InProgress t then 1 else 0)
                    l i t t' Hi) as Hs. simpl in Hs. rewrite Hlive in Hs. simpl in Hs. lia.
    + pose proof (sumOver_insert (λ t, if live t && hasStatus Completed t then 1 else 0)
                    l i t t' Hi) as Hs. simpl in Hs. rewrite Hlive in Hs. simpl in Hs. lia.
    + pose proof (sumOver_insert (λ t, if live t && isArchived t then 1 else 0)
                    l i t t' Hi) as Hs. simpl in Hs. rewrite Hlive in Hs. simpl in Hs. lia.
    + pose proof (sumOver_insert (λ t, if live t && isFavorite t then 1 else 0)
                    l i t t' Hi) as Hs. simpl in Hs. rewrite Hlive in Hs. simpl in Hs. lia.
    + pose proof (sumOver_insert (λ t, if live t then chunkCount t else 0)
                    l i t t' Hi) as Hs. simpl in Hs. rewrite Hlive in Hs. lia.
Qed.

Lemma reachable_live_exact st :
  reachable_live st → ∀ a, counters_exact (tasksOf st a) (statsOf st a).
Proof.
  induction 1 as [|st env c st' _ IH Hsender Hguard Hexec].
  - intros a. split; vm_compute; reflexivity.
  - destruct (exec_owner_step env c st st' true (λ _, Hguard) Hexec)
      as (l' & s' & Ht & Hs & _ & Hstep).
    intros a. rewrite Ht, Hs. case_decide; subst; [|apply IH].
    eapply exact_step; [exact Hsender | exact Hstep | apply IH].
Qed.

Lemma liveStorage_sum st a : liveStorage st a = storageOfLive (tasksOf st a).
Proof.
  unfold liveStorage, liveTasks, storageOfLive.
  induction (tasksOf st a) as [|t l IH]; simpl; [done|].
  rewrite filter_cons. destruct (live t) eqn:Hl.
  - rewrite decide_True by done. simpl. by rewrite IH.
  - rewrite decide_False by (by intros ?). by rewrite IH.
Qed.

Lemma liveTasks_count st a :
  len (liveTasks st a) =
    countLive (hasStatus Todo) (tasksOf st a) + countLive (hasStatus InProgress) (tasksOf st a)
    + countLive (hasStatus Completed) (tasksOf st a).
Proof.
  unfold liveTasks, countLive, hasStatus.
  induction (tasksOf st a) as [|t l IH]; simpl; [done|].
  rewrite filter_cons. destruct (live t) eqn:Hl.
  - rewrite decide_True by done. rewrite len_cons_extra, IH.
    destruct (status t); simpl; lia.
  - rewrite decide_False by (by intros ?). rewrite IH. simpl. lia.
Qed.

(** X10. As long as no transaction comes from address 0 and [updateTask]
    and [deleteTask] are only applied to live records, the counters are
    exact: the three status counters sum to the number of live records of
    the owner, each status counter and the archive and favourite counters
    count the live records with that status or flag, and [totalStorage]
    is the sum of [chunkCount] over the live records. *)
Theorem counters_exact_on_live_histories st a :
  reachable_live st →
  let s := statsOf st a in
  todoTasks s + inProgressTasks s + completedTasks s = len (liveTasks st a) ∧
  totalStorage s = liveStorage st a ∧
  todoTasks s = countLive (hasStatus Todo) (tasksOf st a) ∧
  inProgressTasks s = countLive (hasStatus InProgress) (tasksOf st a) ∧
  completedTasks s = countLive (hasStatus Completed) (tasksOf st a) ∧
  archivedTasks s = countLive isArchived (tasksOf st a) ∧
  favoriteTasks s = countLive isFavorite (tasksOf st a).
Proof.
  intros Hreach. destruct (reachable_live_exact _ Hreach a). cbv zeta.
  rewrite liveTasks_count, liveStorage_sum. repeat split; try done. lia.
Qed.

Lemma counters_exact_on_live_histories_witness :
  ∃ st, reachable_live st ∧
    statsOf st alice = mkUserStats 3 0 0 1 0 1 0 5 ∧
    length (liveTasks st alice) = 1%nat ∧ liveStorage st alice = 5.
Proof.
  set (update := UpdateTask 1 [5; 5; 5; 5; 5] [] "Buy tea" High 0 "home" [] EmptyString).
  pose (s1 := state_after [(as_alice, newTask 2)]).
  pose (s2 := state_after [(as_alice, newTask 2); (as_alice, newTask 3)]).
  pose (s3 := state_after [(as_alice, newTask 2); (as_alice, newTask 3);
                           (as_alice, newTask 1)]).
  pose (s4 := state_after [(as_alice, newTask 2); (as_alice, newTask 3);
                           (as_alice, newTask 1); (as_alice, update)]).
  pose (s5 := state_after [(as_alice, newTask 2); (as_alice, newTask 3);
                           (as_alice, newTask 1); (as_alice, update);
                           (as_alice, UpdateTaskStatus 1 Completed)]).
  pose (s6 := state_after [(as_alice, newTask 2); (as_alice, newTask 3);
                           (as_alice, newTask 1); (as_alice, update);
                           (as_alice, UpdateTaskStatus 1 Completed);
                           (as_alice, SetFavorite 1 true)]).
  pose (s7 := state_after [(as_alice, newTask 2); (as_alice, newTask 3);
                           (as_alice, newTask 1); (as_alice, update);
                           (as_alice, UpdateTaskStatus 1 Completed);
                           (as_alice, SetFavorite 1 true); (as_alice, DeleteTask 0)]).
  pose (s8 := state_after [(as_alice, newTask 2); (as_alice, newTask 3);
                           (as_alice, newTask 1); (as_alice, update);
                           (as_alice, UpdateTaskStatus 1 Completed);
                           (as_alice, SetFavorite 1 true); (as_alice, DeleteTask 0);
                           (as_alice, DeleteTask 2)]).
  assert (Hne : msg_sender as_alice ≠ 0) by (vm_compute; discriminate).
  assert (H1 : reachable_live s1).
  { apply (reachable_live_step init as_alice (newTask 2) s1 reachable_live_init Hne I).
    vm_compute; reflexivity. }
  assert (H2 : reachable_live s2).
  { apply (reachable_live_step s1 as_alice (newTask 3) s2 H1 Hne I).
    vm_compute; reflexivity. }
  assert (H3 : reachable_live s3).
  { apply (reachable_live_step s2 as_alice (newTask 1) s3 H2 Hne I).
    vm_compute; reflexivity. }
  assert (H4 : reachable_live s4).
  { apply (reachable_live_step s3 as_alice update s4 H3 Hne).
    - eexists. split; [vm_compute; reflexivity | vm_compute; discriminate].
    - vm_compute; reflexivity. }
  assert (H5 : reachable_live s5).
  { apply (reachable_live_step s4 as_alice (UpdateTaskStatus 1 Completed) s5 H4 Hne I).
    vm_compute; reflexivity. }
  assert (H6 : reachable_live s6).
  { apply (reachable_live_step s5 as_alice (SetFavorite 1 true) s6 H5 Hne I).
    vm_compute; reflexivity. }
  assert (H7 : reachable_live s7).
  { apply (reachable_live_step s6 as_alice (DeleteTask 0) s7 H6 Hne).
    - eexists. split; [vm_compute; reflexivity | vm_compute; discriminate].
    - vm_compute; reflexivity. }
  assert (H8 : reachable_live s8).
  { apply (reachable_live_step s7 as_alice (DeleteTask 2) s8 H7 Hne).
    - eexists. split; [vm_compute; reflexivity | vm_compute; discriminate].
    - vm_compute; reflexivity. }
  exists s8. split; [exact H8|]. split; [vm_compute; reflexivity|].
  destruct (counters_exact_on_live_histories s8 alice H8) as (Hsum & Hsto & _).
  split; [vm_compute; reflexivity|]. rewrite <- Hsto. vm_compute. reflexivity.
Defined.

(** X11. An owner keeps the right to decrypt everything stored under
    their address: in every reachable state the access control list
    holds, for every handle of every record in an owner's array, the
    owner's right on that handle. *)
Theorem owner_holds_rights st :
  reachable st →
  ∀ a k t h, tasksOf st a !! k = Some t → h ∈ encryptedDescription t → (h, a) ∈ acl st.
Proof.
  induction 1 as [|st env c st' _ IH Hexec]; intros a k t h Hk Hh.
  - by vm_compute in Hk.
  - destruct (exec_owner_step env c st st' false (λ Hf, False_ind _ (Bool.diff_false_true Hf))
                Hexec) as (l' & s' & Ht & _ & Hacl & Hstep).
    rewrite Ht in Hk. case_decide; subst; [|exact (elem_of_weaken _ _ _ (IH _ _ _ _ Hk Hh) Hacl)].
    destruct Hstep as [|t0 s' _ _ _ _ Hgr _ _ _ _ _ _|i t0 t' s' Hi _ _ Hgr _].
    + exact (elem_of_weaken _ _ _ (IH _ _ _ _ Hk Hh) Hacl).
    + apply lookup_app_Some in Hk as [Hk|[_ Hk]]; [exact (elem_of_weaken _ _ _ (IH _ _ _ _ Hk Hh) Hacl)|].
      apply list_lookup_singleton_Some in Hk as [_ <-]. by apply Hgr.
    + apply list_lookup_insert_Some in Hk as [(_ & <- & _)|(_ & Hk)];
        [|exact (elem_of_weaken _ _ _ (IH _ _ _ _ Hk Hh) Hacl)].
      destruct (Hgr _ Hh) as [Hold|Hnew];
        [exact (elem_of_weaken _ _ _ (IH _ _ _ _ Hi Hold) Hacl) | done].
Qed.

Lemma owner_holds_rights_witness :
  ∃ st, reachable st ∧ (encryptedDescription <$> tasksOf st alice) = [[5; 6]] ∧
    (5, alice) ∈ acl st ∧ (6, alice) ∈ acl st.
Proof.
  set (txs := [(as_alice, newTask 2);
               (as_alice, UpdateTask 0 [5; 6] [] "Buy tea" High 0 "home" [] EmptyString)]).
  assert (Hreach : reachable (state_after txs)).
  { apply (tasks_run_reachable txs init); [apply reachable_init | vm_compute; reflexivity]. }
  exists (state_after txs). split; [exact Hreach|]. split; [vm_compute; reflexivity|].
  evar (t0 : Task).
  assert (Ht0 : tasksOf (state_after txs) alice !! 0%nat = Some t0)
    by (vm_compute; reflexivity).
  split; apply (owner_holds_rights _ Hreach alice 0%nat t0 _ Ht0); vm_compute;
    [apply list_elem_of_here | apply list_elem_of_further, list_elem_of_here].
Defined.


(** X12. Decryption rights only grow, and only as asked: a successful
    transaction removes no entry of the access control list, and every
    entry it adds names the caller, the contract, or, for [shareTask], the
    recipient on a handle of the shared record. *)
Theorem rights_only_grow_as_asked env c st st' :
  exec env c st = Ok st' →
  acl st ⊆ acl st' ∧
  ∀ h who, (h, who) ∈ acl st' →
    (h, who) ∈ acl st ∨ who = msg_sender env ∨ who = this env ∨
    ∃ taskId task, c = ShareTask taskId who ∧
      tasksOf st (msg_sender env) !! N.to_nat taskId = Some task ∧
      h ∈ encryptedDescription task.
Proof.
  intros H. split.
  { by destruct (exec_owner_step env c st st' false
                   (λ Hf, False_ind _ (Bool.diff_false_true Hf)) H)
      as (_ & _ & _ & _ & Hacl & _). }
  intros h who Hin. destruct c; simpl in H.
  - apply bind_Ok in H as ([st1 i] & H & [= <-]). unfold createTask in H.
    apply bind_Ok in H as ([] & _ & H). apply bind_Ok in H as ([] & _ & H).
    pose proof (ingest_acl env inputProof encryptedChunks [] (acl st) (h, who)) as Hacl.
    destruct (foldl _ _ encryptedChunks) as [cs acl'].
    apply bind_Ok in H as (n1 & _ & H). apply bind_Ok in H as (n2 & _ & H).
    apply bind_Ok in H as (n3 & _ & H). injection H as <- <-. simpl in *.
    rewrite (proj2 (proj2 (proj2 (proj2 (foldl_push_tag_frame _ _ tags_ _))))) in Hin.
    rewrite acl_if_push in Hin. simpl in Hin.
    apply Hacl in Hin as [?|(e & _ & [[= _ ->]|[= _ ->]])]; auto.
  - unfold updateTask in H.
    apply bind_Ok in H as ([] & _ & H). apply bind_Ok in H as ([] & _ & H).
    apply bind_Ok in H as ([] & _ & H). apply bind_Ok in H as ([] & _ & H).
    apply bind_Ok in H as (task & _ & H).
    apply bind_Ok in H as (n1 & _ & H). apply bind_Ok in H as (n2 & _ & H).
    pose proof (ingest_acl env inputProof encryptedChunks [] (acl st) (h, who)) as Hacl.
    destruct (foldl _ _ encryptedChunks) as [cs acl'].
    injection H as <-. simpl in *.
    apply Hacl in Hin as [?|(e & _ & [[= _ ->]|[= _ ->]])]; auto.
  - unfold deleteTask in H. split_cases H. subst. by left.
  - unfold updateTaskStatus in H. split_cases H; subst; by left.
  - unfold updateTaskPriority in H. split_cases H; subst; by left.
  - unfold setArchived in H. split_cases H; subst; by left.
  - unfold setFavorite in H. split_cases H; subst; by left.
  - unfold shareTask in H.
    apply bind_Ok in H as ([] & _ & H). apply bind_Ok in H as ([] & _ & H).
    apply bind_Ok in H as ([] & _ & H). apply bind_Ok in H as (task & Hat & H).
    apply bind_Ok in H as ([] & _ & H). injection H as <-. apply taskAt_Ok in Hat.
    simpl in Hin. apply foldl_allow_spec in Hin as [?|(c & Hc & [= -> ->])]; [by left|].
    do 3 right. by exists taskId, task.
Qed.

Lemma rights_only_grow_as_asked_witness :
  ∃ st st', exec as_alice (ShareTask 0 bob) st = Ok st' ∧
    size (acl st) = 2%nat ∧ size (acl st') = 3%nat ∧
    bool_decide ((7, bob) ∈ acl st') = true.
Proof.
  set (st := state_after [(as_alice, newTask 2)]).
  set (st' := state_after [(as_alice, newTask 2); (as_alice, ShareTask 0 bob)]).
  assert (H : exec as_alice (ShareTask 0 bob) st = Ok st') by (vm_compute; reflexivity).
  destruct (rights_only_grow_as_asked _ _ _ _ H) as [_ _].
  exists st, st'. split; [exact H|]. split; [|split]; vm_compute; reflexivity.
Defined.

(** X13. A transaction touches the caller's records only: for every other
    owner the task array, the counters and every category and tag bucket
    are unchanged, and a shared-with list changes only by [shareTask]
    appending one reference to the list of its recipient. *)
Theorem other_owners_untouched env c st st' a :
  exec env c st = Ok st' →
  (a ≠ msg_sender env →
     tasksOf st' a = tasksOf st a ∧ statsOf st' a = statsOf st a ∧
     (∀ x, categoryBucket st' a x = categoryBucket st a x) ∧
     (∀ x, tagBucket st' a x = tagBucket st a x)) ∧
  (sharedOf st' a = sharedOf st a ∨
   ∃ taskId, c = ShareTask taskId a ∧
     sharedOf st' a = sharedOf st a ++ [mkSharedTaskReference (msg_sender env) taskId]).
Proof.
  intros H. split.
  - intros Ha.
    destruct (exec_owner_step env c st st' false
                (λ Hf, False_ind _ (Bool.diff_false_true Hf)) H)
      as (l' & s' & Ht & Hs & _ & _).
    rewrite Ht, Hs, !decide_False by done. split; [done|]. split; [done|].
    pose proof (indices_frame _ _ _ _ H) as Hidx.
    destruct c;
      [|destruct Hidx as [Hc Htg]; unfold categoryBucket, tagBucket;
        by rewrite Hc, Htg ..].
    simpl in H. apply bind_Ok in H as ([st1 i] & H & [= <-]). unfold createTask in H.
    apply bind_Ok in H as ([] & _ & H). apply bind_Ok in H as ([] & _ & H).
    destruct (foldl _ _ encryptedChunks) as [cs acl'].
    apply bind_Ok in H as (n1 & _ & H). apply bind_Ok in H as (n2 & _ & H).
    apply bind_Ok in H as (n3 & _ & H). injection H as <- <-. simpl. split.
    + intros x. unfold categoryBucket at 1.
      rewrite (proj1 (proj2 (proj2 (foldl_push_tag_frame _ _ tags_ _)))).
      destruct (nonempty category_); [|done].
      change (default [] (tasksByCategory ?s !! (a, x))) with (categoryBucket s a x).
      rewrite categoryBucket_push_category, decide_False by (intros [? _]; done).
      by rewrite app_nil_r.
    + intros x. rewrite tagBucket_foldl_push_tag, decide_False by done.
      rewrite app_nil_r. by destruct (nonempty category_).
  - destruct c; simpl in H.
    + left. apply bind_Ok in H as ([st1 i] & H & [= <-]). unfold createTask in H.
      apply bind_Ok in H as ([] & _ & H). apply bind_Ok in H as ([] & _ & H).
      destruct (foldl _ _ encryptedChunks) as [cs acl'].
      apply bind_Ok in H as (n1 & _ & H). apply bind_Ok in H as (n2 & _ & H).
      apply bind_Ok in H as (n3 & _ & H). injection H as <- <-. simpl.
      rewrite sharedOf_foldl_push_tag. by destruct (nonempty category_).
    + left. unfold updateTask in H. split_cases H. by subst.
    + left. unfold deleteTask in H. split_cases H. by subst.
    + left. unfold updateTaskStatus in H. split_cases H; by subst.
    + left. unfold updateTaskPriority in H. split_cases H; by subst.
    + left. unfold setArchived in H. split_cases H; by subst.
    + left. unfold setFavorite in H. split_cases H; by subst.
    + unfold shareTask in H.
      apply bind_Ok in H as ([] & _ & H). apply bind_Ok in H as ([] & _ & H).
      apply bind_Ok in H as ([] & _ & H). apply bind_Ok in H as (task & Hat & H).
      apply bind_Ok in H as ([] & _ & H). injection H as <-.
      rewrite sharedOf_push_shared. case_decide; subst; [|by left].
      right. by exists taskId.
Qed.

Lemma other_owners_untouched_witness :
  ∃ st st', exec as_alice (DeleteTask 0) st = Ok st' ∧
    statsOf st alice ≠ statsOf st' alice ∧
    tasksOf st' bob = tasksOf st bob ∧ statsOf st' bob = statsOf st bob ∧
    length (tasksOf st bob) = 1%nat.
Proof.
  set (st := state_after [(as_alice, newTask 2); (as_bob, newTask 3)]).
  set (st' := state_after [(as_alice, newTask 2); (as_bob, newTask 3);
                           (as_alice, DeleteTask 0)]).
  assert (H : exec as_alice (DeleteTask 0) st = Ok st') by (vm_compute; reflexivity).
  assert (Hne : bob ≠ msg_sender as_alice) by (vm_compute; discriminate).
  destruct (proj1 (other_owners_untouched as_alice _ st st' bob H) Hne) as (Ht & Hs & _).
  exists st, st'. split; [exact H|]. split.
  { intros Heq. apply (f_equal todoTasks) in Heq. vm_compute in Heq. discriminate. }
  split; [exact Ht|]. split; [exact Hs|]. vm_compute. reflexivity.
Defined.

(** X14. [getMyTasks] lists deleted records, and the task page shows them:
    the call returns one entry per slot of the caller's array, each
    labelled with the caller as owner whether or not the record was
    deleted, so for a caller other than address 0 the page's filter on a
    null owner removes nothing and only the filter of the selected view
    applies. In particular a deleted record that is not archived is
    displayed in the default view. *)
Theorem task_page_shows_deleted_tasks env st view todayEnd :
  msg_sender env ≠ 0 →
  length (getMyTasks env st) = length (tasksOf st (msg_sender env)) ∧
  (∀ m, m ∈ getMyTasks env st → md_owner m = msg_sender env) ∧
  filterTasks view todayEnd (getMyTasks env st) =
    match view with
    | ViewToday =>
        List.filter (λ task, negb (isCompleted task) && (0 <? md_dueDate task)
                             && (toNumber (md_dueDate task) <=? todayEnd))
          (getMyTasks env st)
    | ViewUpcoming =>
        List.filter (λ task, negb (isCompleted task) && (0 <? md_dueDate task)
                             && (todayEnd <? toNumber (md_dueDate task)))
          (getMyTasks env st)
    | ViewCompleted => List.filter isCompleted (getMyTasks env st)
    | ViewAll => List.filter (λ task, negb (md_isArchived task)) (getMyTasks env st)
    end ∧
  (∀ k t, tasksOf st (msg_sender env) !! k = Some t → owner t = 0 →
     isArchived t = false →
     metadataOf t (msg_sender env) ∈ filterTasks ViewAll todayEnd (getMyTasks env st)).
Proof.
  intros Hsender.
  assert (Hkeep : List.filter (λ task, negb (md_owner task =? 0)) (getMyTasks env st)
                  = getMyTasks env st).
  { unfold getMyTasks. apply N.eqb_neq in Hsender as Hb.
    induction (tasksOf st (msg_sender env)) as [|t l IH]; [done|].
    rewrite fmap_cons. cbn [List.filter md_owner metadataOf].
    rewrite Hb. cbn [negb]. by rewrite IH. }
  split; [by unfold getMyTasks; rewrite length_fmap|]. split.
  { intros m Hm. unfold getMyTasks in Hm.
    by apply list_elem_of_fmap in Hm as (t & -> & _). }
  split.
  { unfold filterTasks. rewrite Hkeep. by destruct view. }
  intros k t Hk Ho Har. unfold filterTasks. rewrite Hkeep.
  apply list_elem_of_In, filter_In. split.
  - apply list_elem_of_In. unfold getMyTasks. apply list_elem_of_fmap.
    exists t. split; [done|]. by eapply list_elem_of_lookup_2.
  - simpl. by rewrite Har.
Qed.

Lemma task_page_shows_deleted_tasks_witness :
  ∃ st, owner <$> tasksOf st alice = [0; alice] ∧
    md_title <$> filterTasks ViewAll 1700086399 (getMyTasks as_alice st)
      = ["Buy milk"; "Buy milk"].
Proof.
  set (st := state_after [(as_alice, newTask 2); (as_alice, newTask 3);
                          (as_alice, DeleteTask 0)]).
  assert (Hne : msg_sender as_alice ≠ 0) by (vm_compute; discriminate).
  destruct (task_page_shows_deleted_tasks as_alice st ViewAll 1700086399 Hne)
    as (_ & _ & -> & _).
  exists st. split; vm_compute; reflexivity.
Defined.


Lemma createTask_indexes env chunks proof title_ p d cat tgs col st st' i a :
  createTask env chunks proof title_ p d cat tgs col st = Ok (st', i) →
  i = len (tasksOf st (msg_sender env)) ∧
  (length (tasksOf st' a) =
     if decide (msg_sender env = a) then S (length (tasksOf st a))
     else length (tasksOf st a)) ∧
  (∀ c', categoryBucket st' a c' = categoryBucket st a c' ++
     (if decide (a = msg_sender env ∧ c' = cat ∧ cat ≠ EmptyString) then [i] else [])) ∧
  (∀ t, tagBucket st' a t = tagBucket st a t ++
     (if decide (a = msg_sender env)
      then replicate (length (filter (λ x, x = t) tgs)) i else [])).
Proof.
  intros H. unfold createTask in H.
  apply bind_Ok in H as (_ & _ & H). apply bind_Ok in H as (_ & _ & H).
  destruct (foldl _ _ chunks) as [cs acl'].
  apply bind_Ok in H as (n1 & _ & H). apply bind_Ok in H as (n2 & _ & H).
  apply bind_Ok in H as (n3 & _ & H). injection H as <- <-.
  split; [done|]. split; [|split].
  - destruct (nonempty cat); autorewrite with owner;
      (destruct (decide (msg_sender env = a)) as [<-|]; [|done]);
      rewrite length_app; simpl; lia.
  - intros c'. unfold categoryBucket at 1.
    rewrite (proj1 (proj2 (proj2 (foldl_push_tag_frame _ _ tgs _)))).
    destruct (nonempty cat) eqn:Hne.
    + apply nonempty_spec in Hne.
      change (default [] (tasksByCategory ?s !! (a, c'))) with (categoryBucket s a c').
      rewrite categoryBucket_push_category.
      unfold categoryBucket, write_stats, write_tasks, write_acl; cbn [tasksByCategory].
      f_equal. destruct (decide (a = msg_sender env ∧ c' = cat)) as [[Ha Hc]|Hn];
        [rewrite decide_True by done
        |rewrite decide_False by (intros (? & ? & ?); by apply Hn)]; done.
    + rewrite decide_False; [rewrite app_nil_r; reflexivity|].
      intros (_ & _ & Hc). apply nonempty_spec in Hc. congruence.
  - intros tg. rewrite tagBucket_foldl_push_tag.
    destruct (nonempty cat); reflexivity.
Qed.

Lemma exec_index_inv env c st st' a :
  exec env c st = Ok st' →
  ((∀ c' i, i ∈ categoryBucket st a c' → i < len (tasksOf st a)) ∧
   (∀ t i, i ∈ tagBucket st a t → i < len (tasksOf st a)) ∧
   (∀ c', NoDup (categoryBucket st a c')) ∧
   categoryBucket st a EmptyString = []) →
  (∀ c' i, i ∈ categoryBucket st' a c' → i < len (tasksOf st' a)) ∧
  (∀ t i, i ∈ tagBucket st' a t → i < len (tasksOf st' a)) ∧
  (∀ c', NoDup (categoryBucket st' a c')) ∧
  categoryBucket st' a EmptyString = [].
Proof.
  intros H (Hc & Ht & Hnd & He).
  pose proof (exec_length_mono env c st st' a H) as Hmono.
  pose proof (indices_frame env c st st' H) as Hframe.
  destruct c;
    [|destruct Hframe as [Ec Et]; unfold categoryBucket, tagBucket in *; rewrite Ec, Et;
      (split; [|split; [|split]]);
      [intros c' i Hi; specialize (Hc c' i Hi); unfold len in *; lia
      |intros t i Hi; specialize (Ht t i Hi); unfold len in *; lia
      |done|done] ..].
  clear Hframe. simpl in H. apply bind_Ok in H as ([st1 i] & H & [= <-]).
  destruct (createTask_indexes _ _ _ _ _ _ _ _ _ _ _ _ a H) as (-> & Hlen & Ecat & Etag).
  split; [|split; [|split]].
  - intros c' i. rewrite Ecat. intros [Hi|Hi]%elem_of_app.
    + specialize (Hc c' i Hi). unfold len in *. lia.
    + destruct (decide (a = msg_sender env ∧ _)) as [(-> & _ & _)|];
        [|by apply elem_of_nil in Hi].
      apply list_elem_of_singleton in Hi as ->. rewrite decide_True in Hlen by done.
      unfold len. lia.
  - intros t i. rewrite Etag. intros [Hi|Hi]%elem_of_app.
    + specialize (Ht t i Hi). unfold len in *. lia.
    + destruct (decide (a = msg_sender env)) as [->|]; [|by apply elem_of_nil in Hi].
      apply elem_of_replicate in Hi as [-> _]. rewrite decide_True in Hlen by done.
      unfold len. lia.
  - intros c'. rewrite Ecat. destruct (decide (a = msg_sender env ∧ _)) as [(-> & _ & _)|].
    + apply NoDup_app. split; [done|]. split; [|apply NoDup_singleton].
      intros i Hi Hi'. apply list_elem_of_singleton in Hi' as ->.
      specialize (Hc c' _ Hi). lia.
    + by rewrite app_nil_r.
  - rewrite Ecat, He. rewrite decide_False; [done|]. intros (_ & <- & Hne). done.
Qed.

(** X15. The secondary indices hold task ids of their owner. In every
    reachable state every id listed by [getTasksByCategory] or
    [getTasksByTag] is a position of the caller's task array, a category
    bucket lists no id twice, and the empty category is never indexed. *)
Theorem index_entries_are_task_ids env st :
  reachable st →
  (∀ c i, i ∈ getTasksByCategory env c st → i < getTasksCount env st) ∧
  (∀ t i, i ∈ getTasksByTag env t st → i < getTasksCount env st) ∧
  (∀ c, NoDup (getTasksByCategory env c st)) ∧
  getTasksByCategory env EmptyString st = [].
Proof.
  unfold getTasksByCategory, getTasksByTag, getTasksCount.
  induction 1 as [|st env' c st' _ IH Hexec].
  - assert (Hc : ∀ c, categoryBucket init (msg_sender env) c = [])
      by (intros c; unfold categoryBucket, init; simpl; by rewrite lookup_empty).
    assert (Ht : ∀ t, tagBucket init (msg_sender env) t = [])
      by (intros t; unfold tagBucket, init; simpl; by rewrite lookup_empty).
    split; [|split; [|split]].
    + intros c i Hi. rewrite Hc in Hi. by apply elem_of_nil in Hi.
    + intros t i Hi. rewrite Ht in Hi. by apply elem_of_nil in Hi.
    + intros c. rewrite Hc. apply NoDup_nil_2.
    + apply Hc.
  - by apply (exec_index_inv env' c st st' (msg_sender env) Hexec).
Qed.

Lemma index_entries_are_task_ids_witness :
  getTasksByCategory as_alice "home"
    (state_after [(as_alice, newTask 2); (as_alice, newTask 3); (as_alice, DeleteTask 0)])
    = [0; 1] ∧
  NoDup (getTasksByCategory as_alice "home"
    (state_after [(as_alice, newTask 2); (as_alice, newTask 3); (as_alice, DeleteTask 0)])) ∧
  getTasksByCategory as_alice EmptyString
    (state_after [(as_alice, newTask 2); (as_alice, newTask 3); (as_alice, DeleteTask 0)])
    = [].
Proof.
  set (txs := [(as_alice, newTask 2); (as_alice, newTask 3); (as_alice, DeleteTask 0)]).
  assert (Hreach : reachable (state_after txs)).
  { apply (tasks_run_reachable txs init); [apply reachable_init | vm_compute; reflexivity]. }
  destruct (index_entries_are_task_ids as_alice _ Hreach) as (_ & _ & Hnd & Hempty).
  split; [vm_compute; reflexivity|]. split; [apply Hnd | exact Hempty].
Defined.

End TasksExtra.

(** ** Further properties of EncryptedFeedback *)

Module FeedbackExtra.
Import Feedback FeedbackViews Scenarios FeedbackFacts.

(** *** Reading the store after a write *)

Lemma boxOwner_write_boxOwner g a st g' :
  boxOwner (write_boxOwner g a st) g' = if decide (g = g') then a else boxOwner st g'.
Proof.
  unfold boxOwner, write_boxOwner; simpl. rewrite lookup_insert.
  by destruct (decide (g = g')).
Qed.

Lemma feedbackCount_write_count g n st g' :
  feedbackCount (write_count g n st) g' = if decide (g = g') then n else feedbackCount st g'.
Proof.
  unfold feedbackCount, write_count; simpl. rewrite lookup_insert.
  by destruct (decide (g = g')).
Qed.

Lemma boxesOf_write_feedback g i f st a : boxesOf (write_feedback g i f st) a = boxesOf st a.
Proof. reflexivity. Qed.
Lemma boxesOf_write_count g n st a : boxesOf (write_count g n st) a = boxesOf st a.
Proof. reflexivity. Qed.
Lemma boxesOf_write_boxOwner g o st a : boxesOf (write_boxOwner g o st) a = boxesOf st a.
Proof. reflexivity. Qed.
Lemma boxesOf_write_counter n st a : boxesOf (write_counter n st) a = boxesOf st a.
Proof. reflexivity. Qed.
Lemma boxesOf_write_acl x st a : boxesOf (write_acl x st) a = boxesOf st a.
Proof. reflexivity. Qed.

Lemma boxOwner_write_boxes a l st g : boxOwner (write_boxes a l st) g = boxOwner st g.
Proof. reflexivity. Qed.
Lemma boxOwner_write_feedback g i f st g' : boxOwner (write_feedback g i f st) g' = boxOwner st g'.
Proof. reflexivity. Qed.
Lemma boxOwner_write_count g n st g' : boxOwner (write_count g n st) g' = boxOwner st g'.
Proof. reflexivity. Qed.
Lemma boxOwner_write_counter n st g : boxOwner (write_counter n st) g = boxOwner st g.
Proof. reflexivity. Qed.
Lemma boxOwner_write_acl x st g : boxOwner (write_acl x st) g = boxOwner st g.
Proof. reflexivity. Qed.

Lemma feedbackCount_write_boxes a l st g : feedbackCount (write_boxes a l st) g = feedbackCount st g.
Proof. reflexivity. Qed.
Lemma feedbackCount_write_feedback g i f st g' :
  feedbackCount (write_feedback g i f st) g' = feedbackCount st g'.
Proof. reflexivity. Qed.
Lemma feedbackCount_write_boxOwner g o st g' :
  feedbackCount (write_boxOwner g o st) g' = feedbackCount st g'.
Proof. reflexivity. Qed.
Lemma feedbackCount_write_counter n st g : feedbackCount (write_counter n st) g = feedbackCount st g.
Proof. reflexivity. Qed.
Lemma feedbackCount_write_acl x st g : feedbackCount (write_acl x st) g = feedbackCount st g.
Proof. reflexivity. Qed.

Create Rewrite HintDb fbox.
#[local] Hint Rewrite boxesOf_write_feedback boxesOf_write_count boxesOf_write_boxOwner
  boxesOf_write_counter boxesOf_write_acl boxesOf_write_boxes
  boxOwner_write_boxes boxOwner_write_feedback boxOwner_write_count boxOwner_write_counter
  boxOwner_write_acl boxOwner_write_boxOwner
  feedbackCount_write_boxes feedbackCount_write_feedback feedbackCount_write_boxOwner
  feedbackCount_write_counter feedbackCount_write_acl feedbackCount_write_count
  feedbackAt_write_boxes feedbackAt_write_count feedbackAt_write_boxOwner
  feedbackAt_write_counter feedbackAt_write_acl feedbackAt_write_feedback : fbox.

Lemma feedbackAt_absent st g i : boxFeedback st !! (g, i) = None → feedbackAt st g i = zeroFeedback.
Proof. unfold feedbackAt. by intros ->. Qed.

(** *** The chunks and the rights a submission stores *)

Lemma feedback_ingest_fold (env : Env) (owner : address) (proof : bytes)
    (chunks : list externalEuint32) (cs : list euint32) (acl0 : gset (euint32 * address)) :
  (foldl (ingest env owner proof) (cs, acl0) chunks).1 = cs ++ chunks.
Proof.
  revert cs acl0. induction chunks as [|e chunks IH]; intros cs acl0; simpl.
  - by rewrite app_nil_r.
  - unfold ingest at 2. simpl. rewrite IH. by rewrite <- app_assoc.
Qed.

Lemma feedback_ingest_acl (env : Env) (owner : address) (proof : bytes)
    (chunks : list externalEuint32) (cs : list euint32) (acl0 : gset (euint32 * address)) x :
  x ∈ (foldl (ingest env owner proof) (cs, acl0) chunks).2 ↔
  x ∈ acl0 ∨ ∃ e, e ∈ chunks ∧ (x = (e, owner) ∨ x = (e, this env)).
Proof.
  revert cs acl0. induction chunks as [|e chunks IH]; intros cs acl0; simpl.
  - split; [by left|]. intros [?|(e & He & _)]; [done|]. by apply elem_of_nil in He.
  - change (ingest env owner proof (cs, acl0) e) with
      (cs ++ [e], FHE.allow e (this env) (FHE.allow e owner acl0)).
    rewrite IH. unfold FHE.allow.
    rewrite !elem_of_union, !elem_of_singleton. split.
    + intros [[->|[->|?]]|(e' & He' & Hx)].
      * right. exists e. split; [apply list_elem_of_here|by right].
      * right. exists e. split; [apply list_elem_of_here|by left].
      * by left.
      * right. exists e'. split; [by apply list_elem_of_further|done].
    + intros [?|(e' & He' & Hx)]; [by left; right; right|].
      apply elem_of_cons in He' as [->|He'].
      * left. destruct Hx as [->| ->]; [right; by left | by left].
      * right. by exists e'.
Qed.

(** *** What a successful call did *)

Lemma createBox_Ok env t d c r s st st' g :
  createBox env t d c r s st = Ok (st', g) →
  len (boxesOf st (msg_sender env)) < MAX_BOXES_PER_OWNER ∧ nonempty t = true ∧
  g = globalBoxCounter st ∧ g + 1 ≤ UINT256_MAX ∧
  st' = write_boxOwner g (msg_sender env)
          (write_boxes (msg_sender env)
             (boxesOf st (msg_sender env) ++
              [mkFeedbackBox g (msg_sender env) t d c true (block_timestamp env) 0 0 r s])
             (write_counter (g + 1) st)).
Proof.
  unfold createBox. intros H.
  apply bind_Ok in H as ([] & Hq%require_Ok & H).
  apply bind_Ok in H as ([] & Ht%require_Ok & H).
  apply bind_Ok in H as (n & [-> Hn]%TasksExtra.add256_inv & H).
  injection H as <- <-. apply N.ltb_lt in Hq. done.
Qed.

Lemma closeBox_Ok env k st st' :
  closeBox env k st = Ok st' →
  ∃ box, boxesOf st (msg_sender env) !! N.to_nat k = Some box ∧ isActive box = true ∧
    st' = write_boxes (msg_sender env)
            (<[N.to_nat k := with_active false (block_timestamp env) box]>
               (boxesOf st (msg_sender env))) st.
Proof.
  unfold closeBox. intros H.
  apply bind_Ok in H as ([] & _ & H). apply bind_Ok in H as (box & Hat%boxAt_Ok & H).
  apply bind_Ok in H as ([] & Ha%require_Ok & H). injection H as <-. by exists box.
Qed.

Lemma reopenBox_Ok env k st st' :
  reopenBox env k st = Ok st' →
  ∃ box, boxesOf st (msg_sender env) !! N.to_nat k = Some box ∧ isActive box = false ∧
    st' = write_boxes (msg_sender env)
            (<[N.to_nat k := with_active true 0 box]> (boxesOf st (msg_sender env))) st.
Proof.
  unfold reopenBox. intros H.
  apply bind_Ok in H as ([] & _ & H). apply bind_Ok in H as (box & Hat%boxAt_Ok & H).
  apply bind_Ok in H as ([] & Ha%require_Ok%negb_true_iff & H). injection H as <-.
  by exists box.
Qed.

Lemma updateBox_Ok env k t d st st' :
  updateBox env k t d st = Ok st' →
  ∃ box, boxesOf st (msg_sender env) !! N.to_nat k = Some box ∧
    st' = write_boxes (msg_sender env)
            (<[N.to_nat k := with_details (if nonempty t then t else box_title box) d box]>
               (boxesOf st (msg_sender env))) st.
Proof.
  unfold updateBox. intros H.
  apply bind_Ok in H as ([] & _ & H). apply bind_Ok in H as (box & Hat%boxAt_Ok & H).
  injection H as <-. by exists box.
Qed.

Lemma findFrom_first boxes g pos box :
  findFrom boxes g 0 = Some (pos, box) → boxes !! pos = Some box ∧ box_id box = g.
Proof. intros (j & -> & Hj & Hid)%findFrom_lookup. done. Qed.

Lemma submitFeedback_Ok env g chunks proof r s st st' fid :
  submitFeedback env g chunks proof r s st = Ok (st', fid) →
  ∃ pos box,
    boxOwner st g ≠ 0 ∧
    findFrom (boxesOf st (boxOwner st g)) g 0 = Some (pos, box) ∧
    isActive box = true ∧
    0 < len chunks ∧ len chunks ≤ MAX_CHUNKS_PER_FEEDBACK ∧
    (allowRatings box = true → r ≤ 5) ∧
    fid = feedbackCount st g ∧ fid + 1 ≤ UINT256_MAX ∧
    st' = write_boxes (boxOwner st g)
            (<[pos := with_submissionCount (submissionCount box + 1) box]>
               (boxesOf st (boxOwner st g)))
            (write_acl
               (foldl (ingest env (boxOwner st g) proof)
                  (encryptedContent (feedbackAt st g fid), acl st) chunks).2
               (write_feedback g fid
                  (mkFeedback fid g
                     (encryptedContent (feedbackAt st g fid) ++ chunks)
                     (if allowRatings box then r else 0) s (block_timestamp env) false
                     (uint8 (len chunks)))
                  (write_count g (fid + 1) st))).
Proof.
  unfold submitFeedback. intros H.
  apply bind_Ok in H as ([] & Hact & H).
  apply bind_Ok in H as ([] & Hn%require_Ok%andb_true_iff & H).
  apply bind_Ok in H as ([pos box] & Hfind & H).
  apply bind_Ok in H as (r' & Hr & H).
  apply bind_Ok in H as (count & [-> Hc]%TasksExtra.add256_inv & H).
  change (feedbackAt (write_count ?a ?b ?s) ?x ?y) with (feedbackAt s x y) in H.
  change (acl (write_count ?a ?b ?s)) with (acl s) in H.
  pose proof (feedback_ingest_fold env (boxOwner st g) proof chunks
                (encryptedContent (feedbackAt st g (feedbackCount st g))) (acl st)) as Hcs.
  destruct (foldl _ _ chunks) as [cs acl'] eqn:Hfold. simpl in Hcs. subst cs.
  apply bind_Ok in H as (subs & [-> _]%TasksExtra.add256_inv & H). injection H as <- <-.
  unfold boxIsActive in Hact.
  apply bind_Ok in Hact as ([] & Ho%require_Ok%negb_true_iff%N.eqb_neq & Hact).
  unfold _findBox in Hfind.
  destruct (findFrom _ _ _) as [[pos' box']|] eqn:Hf; [|discriminate].
  injection Hfind as -> ->. apply require_Ok in Hact.
  destruct Hn as [Hn1%N.ltb_lt Hn2%N.leb_le].
  exists pos, box. split; [done|]. split; [done|]. split; [done|].
  split; [done|]. split; [done|].
  assert (Hr' : r' = (if allowRatings box then r else 0) ∧ (allowRatings box = true → r ≤ 5)).
  { destruct (allowRatings box).
    - apply bind_Ok in Hr as ([] & Hle & [= <-]). apply require_Ok in Hle.
      split; [done|]. intros _. by apply N.leb_le.
    - by injection Hr as <-. }
  destruct Hr' as [-> Hle]. split; [done|]. split; [done|]. split; [done|].
  rewrite Hfold. reflexivity.
Qed.

Lemma markAsRead_Ok env g i st st' :
  markAsRead env g i st = Ok st' →
  boxOwner st g = msg_sender env ∧ 0 < submittedAt (feedbackAt st g i) ∧
  st' = write_feedback g i
          (mkFeedback (id (feedbackAt st g i)) (boxId (feedbackAt st g i))
             (encryptedContent (feedbackAt st g i)) (rating (feedbackAt st g i))
             (sentiment (feedbackAt st g i)) (submittedAt (feedbackAt st g i)) true
             (chunkCount (feedbackAt st g i))) st.
Proof.
  unfold markAsRead, onlyBoxOwner. intros H.
  apply bind_Ok in H as ([] & Ho%require_Ok%N.eqb_eq & H).
  apply bind_Ok in H as ([] & Hs%require_Ok%N.ltb_lt & H). by injection H as <-.
Qed.

Lemma deleteFeedback_Ok env g i st st' :
  deleteFeedback env g i st = Ok st' →
  boxOwner st g = msg_sender env ∧ 0 < submittedAt (feedbackAt st g i) ∧
  st' = write_feedback g i
          (mkFeedback (id (feedbackAt st g i)) (boxId (feedbackAt st g i)) []
             (rating (feedbackAt st g i)) (sentiment (feedbackAt st g i)) 0
             (isRead (feedbackAt st g i)) 0) st.
Proof.
  unfold deleteFeedback, onlyBoxOwner. intros H.
  apply bind_Ok in H as ([] & Ho%require_Ok%N.eqb_eq & H).
  apply bind_Ok in H as ([] & Hs%require_Ok%N.ltb_lt & H). by injection H as <-.
Qed.


(** *** The invariant holds in every reachable state *)

Lemma feedback_wf_init : feedback_wf init.
Proof.
  split.
  - intros a k b H. by vm_compute in H.
  - intros a k k' b b' H. by vm_compute in H.
  - intros a. vm_compute. discriminate.
  - intros g H. by vm_compute in H.
  - intros g H. by vm_compute in H.
  - intros g i _. apply lookup_empty.
  - intros g i H. vm_compute in H. by destruct i.
Qed.

(** An id at or above the counter is unused. *)
Lemma fresh_id st g :
  feedback_wf st → globalBoxCounter st ≤ g → boxOwner st g = 0 ∧ feedbackCount st g = 0.
Proof.
  intros Hwf Hg.
  assert (Ho : boxOwner st g = 0).
  { destruct (decide (boxOwner st g = 0)) as [|Hne]; [done|].
    destruct (fwf_owner st Hwf g Hne) as (k & b & Hk & Hid).
    destruct (fwf_boxes st Hwf _ _ _ Hk) as (_ & Hlt & _). lia. }
  split; [done|].
  destruct (decide (feedbackCount st g = 0)) as [|Hne]; [done|].
  by destruct (fwf_counts st Hwf g Hne).
Qed.

Lemma lookup_edit (l : list FeedbackBox) (other : list FeedbackBox) (a a' : address)
    (k k' : nat) (box box' b : FeedbackBox) :
  l !! k = Some box →
  (if decide (a = a') then <[k := box']> l else other) !! k' = Some b →
  (a' = a ∧ k' = k ∧ b = box') ∨
  ((a', k') ≠ (a, k) ∧ (if decide (a = a') then l else other) !! k' = Some b).
Proof.
  intros Hk H. destruct (decide (a = a')) as [<-|Hne].
  - destruct (decide (k = k')) as [<-|Hkk].
    + rewrite list_lookup_insert_eq in H by (by eapply lookup_lt_Some).
      injection H as <-. by left.
    + rewrite list_lookup_insert_ne in H by done. right. split; [congruence|done].
  - right. split; [congruence|done].
Qed.

Lemma boxesOf_cases st a a' :
  (if decide (a = a') then boxesOf st a else boxesOf st a') = boxesOf st a'.
Proof. by destruct (decide (a = a')) as [->|]. Qed.

(** Replacing a box by one with the same settings keeps the part of the
    invariant that speaks of boxes. *)
Lemma boxes_wf_edit st st' a k box box' :
  feedback_wf st →
  boxesOf st a !! k = Some box → sameSettings box box' →
  (isActive box' = true → closedAt box' = 0) →
  submissionCount box' = feedbackCount st' (box_id box) →
  (∀ a', boxesOf st' a' = if decide (a = a') then <[k := box']> (boxesOf st a)
                          else boxesOf st a') →
  (∀ g, boxOwner st' g = boxOwner st g) →
  globalBoxCounter st' = globalBoxCounter st →
  (∀ g, g ≠ box_id box → feedbackCount st' g = feedbackCount st g) →
  (∀ a k b, boxesOf st' a !! k = Some b →
     box_owner b = a ∧ box_id b < globalBoxCounter st' ∧ boxOwner st' (box_id b) = a ∧
     submissionCount b = feedbackCount st' (box_id b) ∧
     (isActive b = true → closedAt b = 0)) ∧
  (∀ a k k' b b', boxesOf st' a !! k = Some b → boxesOf st' a !! k' = Some b' →
     box_id b = box_id b' → k = k') ∧
  (∀ a, len (boxesOf st' a) ≤ MAX_BOXES_PER_OWNER) ∧
  (∀ g, boxOwner st' g ≠ 0 →
     ∃ k b, boxesOf st' (boxOwner st' g) !! k = Some b ∧ box_id b = g).
Proof.
  intros Hwf Hk (Hid & Hown & _) Hclosed Hsub Hboxes Howner Hcounter Hcount.
  destruct (fwf_boxes st Hwf _ _ _ Hk) as (Ho & Hlt & Hbo & _ & _).
  assert (Hold : ∀ a' k' b, boxesOf st' a' !! k' = Some b →
            (a' = a ∧ k' = k ∧ b = box') ∨
            ((a', k') ≠ (a, k) ∧ boxesOf st a' !! k' = Some b)).
  { intros a' k' b Hb. rewrite Hboxes in Hb.
    destruct (lookup_edit _ _ _ _ _ _ _ _ _ Hk Hb) as [?|[Hne Hb']]; [by left|].
    right. split; [done|]. by rewrite boxesOf_cases in Hb'. }
  assert (Hids : ∀ a' k' b, boxesOf st' a' !! k' = Some b →
            ∃ b0, boxesOf st a' !! k' = Some b0 ∧ box_id b = box_id b0).
  { intros a' k' b Hb. destruct (Hold _ _ _ Hb) as [(-> & -> & ->)|[_ Hb']]; eauto. }
  split; [|split; [|split]].
  - intros a' k' b Hb. rewrite Howner, Hcounter.
    destruct (Hold _ _ _ Hb) as [(-> & -> & ->)|[Hne Hb']].
    + rewrite Hid, Hown. done.
    + destruct (fwf_boxes st Hwf _ _ _ Hb') as (? & ? & Hbo' & Hs & ?).
      split; [done|]. split; [done|]. split; [done|]. split; [|done].
      rewrite Hcount; [done|]. intros Heq.
      assert (a' = a) as -> by congruence.
      assert (k' = k) as -> by (by eapply (fwf_unique st Hwf a)).
      done.
  - intros a' k1 k2 b1 b2 H1 H2 Heq.
    destruct (Hids _ _ _ H1) as (c1 & Hc1 & E1). destruct (Hids _ _ _ H2) as (c2 & Hc2 & E2).
    eapply (fwf_unique st Hwf a'); [done | done | congruence].
  - intros a'. rewrite Hboxes. destruct (decide (a = a')) as [<-|].
    + unfold len. rewrite length_insert. apply (fwf_quota st Hwf).
    + apply (fwf_quota st Hwf).
  - intros g. rewrite Howner. intros Hg.
    destruct (fwf_owner st Hwf g Hg) as (k' & b & Hb & Hbid).
    rewrite Hboxes. destruct (decide (a = boxOwner st g)) as [Ha|]; [|by eauto].
    rewrite <- Ha in Hb. destruct (decide (k = k')) as [<-|Hkk].
    + exists k, box'. rewrite list_lookup_insert_eq by (by eapply lookup_lt_Some).
      split; [done|]. congruence.
    + exists k', b. by rewrite list_lookup_insert_ne.
Qed.

(** A transaction of the box's owner that edits one box only. *)
Lemma feedback_wf_edit st a k box box' :
  feedback_wf st →
  boxesOf st a !! k = Some box → sameSettings box box' →
  (isActive box' = true → closedAt box' = 0) →
  submissionCount box' = submissionCount box →
  feedback_wf (write_boxes a (<[k := box']> (boxesOf st a)) st).
Proof.
  intros Hwf Hk Hsame Hclosed Hsub.
  destruct (boxes_wf_edit st (write_boxes a (<[k := box']> (boxesOf st a)) st)
              a k box box' Hwf Hk Hsame Hclosed) as (H1 & H2 & H3 & H4).
  - rewrite Hsub. by destruct (fwf_boxes st Hwf _ _ _ Hk) as (_ & _ & _ & ? & _).
  - intros a'. apply boxesOf_write_boxes.
  - done.
  - done.
  - done.
  - split; [exact H1 | exact H2 | exact H3 | exact H4 | | | ].
    + exact (fwf_counts st Hwf).
    + exact (fwf_slots st Hwf).
    + exact (fwf_entries st Hwf).
Qed.

Lemma live_entry_is_counted st g i :
  feedback_wf st → 0 < submittedAt (feedbackAt st g i) → i < feedbackCount st g.
Proof.
  intros Hwf Hs. destruct (decide (i < feedbackCount st g)) as [|Hge]; [done|].
  rewrite (feedbackAt_absent st g i) in Hs; [by vm_compute in Hs|].
  apply (fwf_slots st Hwf). lia.
Qed.

(** An owner's edit of one entry of a box that keeps its ids and adds no
    content. *)
Lemma feedback_wf_entry st g i f :
  feedback_wf st → i < feedbackCount st g →
  id f = id (feedbackAt st g i) → boxId f = boxId (feedbackAt st g i) →
  chunkCount f = len (encryptedContent f) →
  chunkCount f ≤ MAX_CHUNKS_PER_FEEDBACK →
  (∀ h, h ∈ encryptedContent f → h ∈ encryptedContent (feedbackAt st g i)) →
  feedback_wf (write_feedback g i f st).
Proof.
  intros Hwf Hi Hid Hbox Hchunks Hmax Hcontent.
  split; [exact (fwf_boxes st Hwf) | exact (fwf_unique st Hwf) | exact (fwf_quota st Hwf)
         | exact (fwf_owner st Hwf) | exact (fwf_counts st Hwf) | | ].
  - intros g' i' Hge. unfold write_feedback; simpl.
    rewrite lookup_insert_ne; [by apply (fwf_slots st Hwf)|].
    intros [= -> ->]. change (feedbackCount st g' ≤ i') in Hge. lia.
  - intros g' i' Hlt. change (i' < feedbackCount st g') in Hlt.
    change (boxOwner (write_feedback g i f st) g') with (boxOwner st g').
    change (acl (write_feedback g i f st)) with (acl st).
    rewrite feedbackAt_write_feedback.
    destruct (fwf_entries st Hwf g' i' Hlt) as (E1 & E2 & E3 & E4 & E5).
    destruct (decide ((g, i) = (g', i'))) as [[= <- <-]|]; [|done].
    split; [congruence|]. split; [congruence|]. split; [done|]. split; [done|].
    intros h Hh. by apply E5, Hcontent.
Qed.

Lemma exec_feedback_wf env c st st' : feedback_wf st → exec env c st = Ok st' → feedback_wf st'.
Proof.
  intros Hwf H. destruct c; simpl in H.
  - (* createBox *)
    apply bind_Ok in H as ([st1 g] & H & [= <-]). simpl.
    apply createBox_Ok in H as (Hq & _ & -> & _ & ->).
    set (g := globalBoxCounter st). set (a := msg_sender env).
    set (newBox := mkFeedbackBox g a title_ description_ category_ true
                     (block_timestamp env) 0 0 allowRatings_ allowSentiment_).
    destruct (fresh_id st g Hwf) as [Hfo Hfc]; [lia|].
    assert (Hboxes : ∀ a' k b,
              boxesOf (write_boxOwner g a (write_boxes a (boxesOf st a ++ [newBox])
                         (write_counter (g + 1) st))) a' !! k = Some b →
              boxesOf st a' !! k = Some b ∨
              (a' = a ∧ k = length (boxesOf st a) ∧ b = newBox)).
    { intros a' k b. autorewrite with fbox. destruct (decide (a = a')) as [<-|]; [|by left].
      intros [?|[Hk Hb]]%lookup_app_Some; [by left|]. right.
      destruct (k - length (boxesOf st a))%nat eqn:Hd; [|by destruct n].
      injection Hb as <-. split; [done|]. split; [lia|done]. }
    split.
    + intros a' k b Hb. autorewrite with fbox. simpl.
      destruct (Hboxes _ _ _ Hb) as [Hold|(-> & -> & ->)].
      * destruct (fwf_boxes st Hwf _ _ _ Hold) as (? & ? & ? & ? & ?).
        rewrite decide_False by (fold g; lia).
        split; [done|]. split; [fold g; lia|]. done.
      * simpl. rewrite decide_True by done. rewrite Hfc.
        split; [done|]. split; [fold g; lia|]. done.
    + intros a' k k' b b' Hb Hb' Heq.
      destruct (Hboxes _ _ _ Hb) as [Hold|(-> & -> & ->)];
        destruct (Hboxes _ _ _ Hb') as [Hold'|(? & -> & ->)].
      * by eapply (fwf_unique st Hwf a').
      * destruct (fwf_boxes st Hwf _ _ _ Hold) as (_ & ? & _). simpl in Heq. fold g in H. lia.
      * destruct (fwf_boxes st Hwf _ _ _ Hold') as (_ & ? & _). simpl in Heq. fold g in H. lia.
      * done.
    + intros a'. autorewrite with fbox. destruct (decide (a = a')) as [<-|].
      * unfold len in *. rewrite length_app. simpl. unfold MAX_BOXES_PER_OWNER in *.
        fold a in Hq. lia.
      * apply (fwf_quota st Hwf).
    + intros g'. autorewrite with fbox. destruct (decide (g = g')) as [<-|Hne].
      * intros _. rewrite decide_True by done.
        exists (length (boxesOf st a)), newBox.
        by rewrite lookup_app_r, Nat.sub_diag by lia.
      * intros Hg. destruct (fwf_owner st Hwf g' Hg) as (k & b & Hk & Hid).
        exists k, b. split; [|done].
        destruct (decide (a = boxOwner st g')) as [Ha|]; [|done].
        rewrite <- Ha in Hk. by apply lookup_app_l_Some.
    + intros g'. autorewrite with fbox. intros Hc.
      destruct (decide (g = g')) as [<-|]; [by rewrite Hfc in Hc|].
      by apply (fwf_counts st Hwf).
    + exact (fwf_slots st Hwf).
    + intros g' i Hlt. autorewrite with fbox in *.
      change (acl (write_boxOwner _ _ _)) with (acl st).
      destruct (decide (g = g')) as [<-|]; [rewrite Hfc in Hlt; lia|].
      by apply (fwf_entries st Hwf).
  - (* closeBox *)
    apply closeBox_Ok in H as (box & Hk & _ & ->).
    by apply (feedback_wf_edit st _ _ box).
  - (* reopenBox *)
    apply reopenBox_Ok in H as (box & Hk & _ & ->).
    by apply (feedback_wf_edit st _ _ box).
  - (* updateBox *)
    apply updateBox_Ok in H as (box & Hk & ->).
    apply (feedback_wf_edit st _ _ box); try done.
    simpl. by destruct (fwf_boxes st Hwf _ _ _ Hk) as (_ & _ & _ & _ & ?).
  - (* submitFeedback *)
    apply bind_Ok in H as ([st1 fid] & H & [= <-]). simpl.
    apply submitFeedback_Ok in H
      as (pos & box & Ho & [Hpos Hid]%findFrom_first & Hact & Hn1 & Hn2 & Hr & -> & Hfit & ->).
    set (fid := feedbackCount st globalBoxId) in *.
    set (owner := boxOwner st globalBoxId) in *.
    assert (Hslot : feedbackAt st globalBoxId fid = zeroFeedback).
    { apply feedbackAt_absent, (fwf_slots st Hwf). lia. }
    rewrite Hslot. simpl.
    match goal with |- feedback_wf ?s => set (st' := s) end.
    destruct (boxes_wf_edit st st' owner pos box
                (with_submissionCount (submissionCount box + 1) box) Hwf Hpos)
      as (H1 & H2 & H3 & H4).
    + done.
    + simpl. by destruct (fwf_boxes st Hwf _ _ _ Hpos) as (_ & _ & _ & _ & ?).
    + subst st'. autorewrite with fbox. rewrite Hid, decide_True by done. simpl.
      destruct (fwf_boxes st Hwf _ _ _ Hpos) as (_ & _ & _ & -> & _). by rewrite Hid.
    + intros a'. subst st'. by autorewrite with fbox.
    + done.
    + done.
    + intros g Hg. subst st'. autorewrite with fbox. rewrite decide_False; [done|congruence].
    + split; [exact H1 | exact H2 | exact H3 | exact H4 | | | ].
      * intros g. subst st'. autorewrite with fbox.
        destruct (decide (globalBoxId = g)) as [<-|]; [done|]. apply (fwf_counts st Hwf).
      * intros g i. subst st'. autorewrite with fbox. simpl. intros Hge.
        rewrite lookup_insert_ne.
        -- apply (fwf_slots st Hwf). destruct (decide (globalBoxId = g)) as [<-|]; [fold fid; lia|done].
        -- intros [= <- <-]. rewrite decide_True in Hge by done. lia.
      * intros g i. subst st'. autorewrite with fbox. simpl. intros Hlt.
        destruct (decide ((globalBoxId, fid) = (g, i))) as [[= <- <-]|Hne].
        -- simpl. unfold len in *. rewrite TasksExtra.uint8_small by (unfold MAX_CHUNKS_PER_FEEDBACK in *; lia).
           split; [done|]. split; [done|]. split; [done|]. split; [done|].
           intros h Hh. apply feedback_ingest_acl. right. exists h. split; [done|by left].
        -- assert (i < feedbackCount st g) as Hold.
           { destruct (decide (globalBoxId = g)) as [<-|]; [|done].
             assert (i ≠ fid) by congruence. lia. }
           destruct (fwf_entries st Hwf g i Hold) as (? & ? & ? & ? & Hacl).
           split; [done|]. split; [done|]. split; [done|]. split; [done|].
           intros h Hh. apply feedback_ingest_acl. left. by apply Hacl.
  - (* markAsRead *)
    apply markAsRead_Ok in H as (_ & Hs & ->).
    apply feedback_wf_entry; try done.
    + by apply live_entry_is_counted.
    + simpl. by destruct (fwf_entries st Hwf globalBoxId feedbackId
                            (live_entry_is_counted _ _ _ Hwf Hs)) as (_ & _ & ? & _).
    + simpl. by destruct (fwf_entries st Hwf globalBoxId feedbackId
                            (live_entry_is_counted _ _ _ Hwf Hs)) as (_ & _ & _ & ? & _).
  - (* deleteFeedback *)
    apply deleteFeedback_Ok in H as (_ & Hs & ->).
    apply feedback_wf_entry; try done.
    + by apply live_entry_is_counted.
    + simpl. intros h Hh. by apply elem_of_nil in Hh.
Qed.

Lemma reachable_feedback_wf st : reachable st → feedback_wf st.
Proof.
  induction 1 as [|st env c st' _ IH Hexec]; [apply feedback_wf_init|].
  by eapply exec_feedback_wf.
Qed.


(** *** Looking a box up by its global id *)

Lemma findFrom_None boxes g : ∀ i,
  findFrom boxes g i = None → ∀ k b, boxes !! k = Some b → box_id b ≠ g.
Proof.
  induction boxes as [|x boxes IH]; intros i H k b Hk; [done|]. simpl in H.
  destruct (box_id x =? g) eqn:Hid; [done|]. apply N.eqb_neq in Hid.
  destruct k as [|k]; simpl in Hk; [by injection Hk as <-|]. by eapply IH.
Qed.

Lemma findFrom_unique boxes g k b :
  boxes !! k = Some b → box_id b = g →
  (∀ k' b', boxes !! k' = Some b' → box_id b' = g → k' = k) →
  findFrom boxes g 0 = Some (k, b).
Proof.
  intros Hk Hid Huniq. destruct (findFrom boxes g 0) as [[pos box]|] eqn:Hf.
  - apply findFrom_first in Hf as [Hpos Hbox].
    assert (pos = k) as -> by (by eapply Huniq). congruence.
  - by destruct (findFrom_None _ _ _ Hf _ _ Hk).
Qed.

Lemma details_of_box st a k b :
  feedback_wf st → boxesOf st a !! k = Some b → a ≠ 0 → getBoxDetails (box_id b) st = Ok b.
Proof.
  intros Hwf Hk Ha. destruct (fwf_boxes st Hwf _ _ _ Hk) as (_ & _ & Ho & _).
  unfold getBoxDetails, _findBox. rewrite Ho.
  apply N.eqb_neq in Ha as ->. simpl.
  rewrite (findFrom_unique _ _ k b Hk eq_refl); [done|].
  intros k' b' Hk' Hid. by eapply (fwf_unique st Hwf a).
Qed.

Lemma find_of_box st a k b :
  feedback_wf st → boxesOf st a !! k = Some b →
  findFrom (boxesOf st a) (box_id b) 0 = Some (k, b).
Proof.
  intros Hwf Hk. apply findFrom_unique; [done | done |].
  intros k' b' Hk' Hid. by eapply (fwf_unique st Hwf a).
Qed.

Lemma scenarioB_reachable : reachable (state_after scenarioB).
Proof.
  apply (feedback_run_reachable scenarioB init); [apply reachable_init|].
  vm_compute. reflexivity.
Qed.

(** X16. A global box id names one box. In every reachable state a box
    stored for an owner other than address 0 is the one [getBoxDetails]
    returns for its id, its id is below the counter, and no other slot of
    any owner carries that id. [getBoxDetails] reverts with
    "Box does not exist" exactly on the ids [boxOwners] does not know,
    among them every id at or above the counter; it never fails to find a
    registered box. *)
Theorem getBoxDetails_finds_the_box st :
  reachable st →
  (∀ a k b, boxesOf st a !! k = Some b → a ≠ 0 →
     getBoxDetails (box_id b) st = Ok b ∧ box_owner b = a ∧
     box_id b < globalBoxCounter st ∧
     ∀ a' k' b', boxesOf st a' !! k' = Some b' → box_id b' = box_id b → a' = a ∧ k' = k) ∧
  (∀ g, (boxOwner st g = 0 ∧ getBoxDetails g st = Revert "Box does not exist") ∨
        (boxOwner st g ≠ 0 ∧
         ∃ k b, getBoxDetails g st = Ok b ∧
           boxesOf st (boxOwner st g) !! k = Some b ∧ box_id b = g)) ∧
  (∀ g, globalBoxCounter st ≤ g → getBoxDetails g st = Revert "Box does not exist").
Proof.
  intros Hwf%reachable_feedback_wf.
  assert (Hnone : ∀ g, boxOwner st g = 0 → getBoxDetails g st = Revert "Box does not exist").
  { intros g Hg. unfold getBoxDetails. by rewrite Hg. }
  split; [|split].
  - intros a k b Hk Ha. split; [by eapply details_of_box|].
    destruct (fwf_boxes st Hwf _ _ _ Hk) as (Ho & Hlt & Hbo & _).
    split; [done|]. split; [done|]. intros a' k' b' Hk' Hid.
    destruct (fwf_boxes st Hwf _ _ _ Hk') as (_ & _ & Hbo' & _).
    assert (a' = a) as -> by congruence. split; [done|].
    by eapply (fwf_unique st Hwf a).
  - intros g. destruct (decide (boxOwner st g = 0)) as [Hg|Hg]; [left; auto|].
    right. split; [done|]. destruct (fwf_owner st Hwf g Hg) as (k & b & Hk & <-).
    exists k, b. split; [|done]. by eapply details_of_box.
  - intros g Hg. apply Hnone. by destruct (fresh_id st g Hwf Hg).
Qed.

Lemma getBoxDetails_finds_the_box_witness :
  box_title <$> boxesOf (state_after scenarioB) alice = ["Team retro"] ∧
  getBoxDetails 1 (state_after scenarioB) = Revert "Box does not exist".
Proof.
  destruct (getBoxDetails_finds_the_box _ scenarioB_reachable) as (_ & _ & H).
  split; [vm_compute; reflexivity|]. apply H. vm_compute. discriminate.
Defined.


(** X17. What [createBox] answers. In a reachable state whose counter has
    not reached the largest uint256, the call reverts with
    "Max boxes reached" when the caller already has [MAX_BOXES_PER_OWNER]
    boxes, otherwise with "Title required" when the title is empty, and
    otherwise succeeds: it returns the counter as the new global id,
    appends an active box with no submissions to the caller's array,
    registers the caller as its owner, and the new id has no feedback and
    all-zero statistics. *)
Theorem createBox_outcome env t d c r s st :
  reachable st → globalBoxCounter st < UINT256_MAX →
  let g := globalBoxCounter st in
  let newBox := mkFeedbackBox g (msg_sender env) t d c true (block_timestamp env) 0 0 r s in
  if getTotalBoxes env st =? MAX_BOXES_PER_OWNER
  then createBox env t d c r s st = Revert "Max boxes reached"
  else if negb (nonempty t)
  then createBox env t d c r s st = Revert "Title required"
  else ∃ st', createBox env t d c r s st = Ok (st', g) ∧
    globalBoxCounter st' = g + 1 ∧
    getMyBoxes env st' = getMyBoxes env st ++ [newBox] ∧
    getTotalBoxes env st' = getTotalBoxes env st + 1 ∧
    boxOwner st' g = msg_sender env ∧
    (msg_sender env ≠ 0 → getBoxDetails g st' = Ok newBox) ∧
    getFeedbackCount g st' = 0 ∧
    getBoxStats g st' = Ok (mkBoxStats 0 0 0 0 0 0).
Proof.
  intros Hreach Hfit g newBox. pose proof (reachable_feedback_wf st Hreach) as Hwf.
  pose proof (fwf_quota st Hwf (msg_sender env)) as Hq.
  unfold getTotalBoxes. destruct (_ =? MAX_BOXES_PER_OWNER) eqn:Hmax.
  { apply N.eqb_eq in Hmax. unfold createBox. rewrite Hmax. reflexivity. }
  apply N.eqb_neq in Hmax.
  assert (Hlt : (len (boxesOf st (msg_sender env)) <? MAX_BOXES_PER_OWNER) = true)
    by (apply N.ltb_lt; lia).
  destruct (nonempty t) eqn:Ht; simpl.
  2: { unfold createBox. rewrite Hlt, Ht. reflexivity. }
  set (st' := write_boxOwner g (msg_sender env)
                (write_boxes (msg_sender env) (boxesOf st (msg_sender env) ++ [newBox])
                   (write_counter (g + 1) st))).
  assert (Hcreate : createBox env t d c r s st = Ok (st', g)).
  { unfold createBox. rewrite Hlt, Ht. simpl.
    rewrite (TasksExtra.add256_fits (globalBoxCounter st) 1) by (fold g; lia). reflexivity. }
  assert (Hwf' : feedback_wf st').
  { apply (exec_feedback_wf env (CreateBox t d c r s) st st' Hwf). simpl. by rewrite Hcreate. }
  destruct (fresh_id st g Hwf) as [_ Hcount]; [lia|].
  assert (Hmine : boxesOf st' (msg_sender env) = boxesOf st (msg_sender env) ++ [newBox]).
  { subst st'. autorewrite with fbox. by rewrite decide_True. }
  exists st'. split; [done|]. split; [done|]. split; [done|]. split.
  { unfold getTotalBoxes. rewrite Hmine. unfold len. rewrite length_app. simpl. lia. }
  split. { subst st'. autorewrite with fbox. by rewrite decide_True. }
  split.
  { intros Hs. apply (details_of_box st' (msg_sender env)
                        (length (boxesOf st (msg_sender env))) newBox Hwf'); [|done].
    rewrite Hmine. by rewrite lookup_app_r, Nat.sub_diag by lia. }
  assert (Hc' : feedbackCount st' g = 0) by (subst st'; by autorewrite with fbox).
  split; [done|]. unfold getBoxStats. rewrite Hc'. reflexivity.
Qed.

Lemma createBox_outcome_witness :
  ∃ st', createBox as_bob "Lunch" "Menu" Event true false (state_after scenarioB) = Ok (st', 1) ∧
    getTotalBoxes as_bob st' = 1 ∧ getFeedbackCount 1 st' = 0.
Proof.
  assert (Hfit : globalBoxCounter (state_after scenarioB) < UINT256_MAX)
    by (vm_compute; reflexivity).
  pose proof (createBox_outcome as_bob "Lunch" "Menu" Event true false _
                scenarioB_reachable Hfit) as H.
  cbv zeta in H.
  assert (Hq : (getTotalBoxes as_bob (state_after scenarioB) =? MAX_BOXES_PER_OWNER) = false)
    by (vm_compute; reflexivity).
  rewrite Hq in H. change (negb (nonempty "Lunch")) with false in H. cbv iota in H.
  destruct H as (st' & Hc & _ & _ & Hn & _ & _ & Hf & _).
  exists st'. split; [exact Hc|]. split; [|exact Hf].
  rewrite Hn. vm_compute. reflexivity.
Defined.


Lemma with_active_roundtrip ts b :
  isActive b = true → closedAt b = 0 → with_active true 0 (with_active false ts b) = b.
Proof. destruct b; simpl; intros -> ->; reflexivity. Qed.

Lemma write_boxes_same st a l : ownerBoxes st !! a = Some l → write_boxes a l st = st.
Proof.
  intros H. destruct st as [ob bf fc bo gc ac]; unfold write_boxes; simpl in *.
  f_equal. by apply insert_id.
Qed.

Lemma write_boxes_twice st a l l' :
  write_boxes a l (write_boxes a l' st) = write_boxes a l st.
Proof. unfold write_boxes; simpl. f_equal. apply insert_insert_eq. Qed.

Lemma boxesOf_stored st a k b :
  boxesOf st a !! k = Some b → ownerBoxes st !! a = Some (boxesOf st a).
Proof.
  unfold boxesOf. destruct (ownerBoxes st !! a); [done|]. simpl. by rewrite lookup_nil.
Qed.

(** X18. A closed box takes no feedback, and closing is undone by
    reopening. After a successful [closeBox] by an owner other than
    address 0 in a reachable state, every [submitFeedback] to the box's
    global id reverts with "Box is closed" whoever sends it, a second
    [closeBox] reverts with "Box already closed", [getBoxDetails] shows the
    box inactive with the closing time, and [reopenBox] by the owner
    restores exactly the state before the close. *)
Theorem closed_box_takes_no_feedback env k st st' :
  reachable st → msg_sender env ≠ 0 → closeBox env k st = Ok st' →
  ∃ b, boxesOf st (msg_sender env) !! N.to_nat k = Some b ∧ isActive b = true ∧
    (∀ env' chunks proof r s,
       submitFeedback env' (box_id b) chunks proof r s st' = Revert "Box is closed") ∧
    closeBox env k st' = Revert "Box already closed" ∧
    getBoxDetails (box_id b) st' = Ok (with_active false (block_timestamp env) b) ∧
    (∀ env', msg_sender env' = msg_sender env → reopenBox env' k st' = Ok st).
Proof.
  intros Hreach Hs Hclose.
  assert (Hreach' : reachable st')
    by exact (reachable_step st env (CloseBox k) st' Hreach Hclose).
  pose proof (reachable_feedback_wf st Hreach) as Hwf.
  pose proof (reachable_feedback_wf st' Hreach') as Hwf'.
  apply closeBox_Ok in Hclose as (b & Hk & Hact & ->).
  set (a := msg_sender env) in *. set (b' := with_active false (block_timestamp env) b).
  match goal with |- context [closeBox env k ?s] => set (st' := s) in * end.
  assert (Hk' : boxesOf st' a !! N.to_nat k = Some b').
  { subst st'. rewrite boxesOf_write_boxes, decide_True by done.
    by rewrite list_lookup_insert_eq by (by eapply lookup_lt_Some). }
  assert (Hin : (k <? len (boxesOf st' a)) = true).
  { apply N.ltb_lt. apply lookup_lt_Some in Hk'. unfold len. lia. }
  exists b. split; [done|]. split; [done|]. split; [|split; [|split]].
  - intros env' chunks proof r s. unfold submitFeedback, boxIsActive.
    destruct (fwf_boxes st' Hwf' _ _ _ Hk') as (_ & _ & Ho & _).
    change (box_id b') with (box_id b) in Ho. rewrite Ho.
    apply N.eqb_neq in Hs as ->. simpl.
    pose proof (find_of_box st' a _ b' Hwf' Hk') as Hf.
    change (box_id b') with (box_id b) in Hf. by rewrite Hf.
  - unfold closeBox, boxExists, boxAt. fold a. by rewrite Hin, Hk'.
  - by apply (details_of_box st' a (N.to_nat k) b' Hwf' Hk').
  - intros env' Henv. unfold reopenBox, boxExists, boxAt. rewrite Henv. fold a.
    rewrite Hin, Hk'. simpl. f_equal. subst st'.
    rewrite boxesOf_write_boxes, decide_True by done.
    rewrite list_insert_insert_eq, write_boxes_twice.
    destruct (fwf_boxes st Hwf _ _ _ Hk) as (_ & _ & _ & _ & Hc).
    subst b'. rewrite with_active_roundtrip by auto.
    rewrite list_insert_id by done. apply write_boxes_same. by eapply boxesOf_stored.
Qed.

Lemma closed_box_takes_no_feedback_witness :
  ∃ st', closeBox as_alice 0 (state_after scenarioB) = Ok st' ∧
    submitFeedback as_bob 0 [14] [] 5 Positive st' = Revert "Box is closed" ∧
    reopenBox as_alice 0 st' = Ok (state_after scenarioB).
Proof.
  set (st' := state_after (scenarioB ++ [(as_alice, CloseBox 0)])).
  assert (Hs : msg_sender as_alice ≠ 0) by (vm_compute; discriminate).
  assert (Hc : closeBox as_alice 0 (state_after scenarioB) = Ok st')
    by (vm_compute; reflexivity).
  destruct (closed_box_takes_no_feedback as_alice 0 _ st' scenarioB_reachable Hs Hc)
    as (b & Hb & _ & Hsub & _ & _ & Hre).
  exists st'. split; [exact Hc|]. split; [|exact (Hre as_alice eq_refl)].
  evar (b0 : FeedbackBox).
  assert (Hb0 : boxesOf (state_after scenarioB) (msg_sender as_alice) !! N.to_nat 0 = Some b0)
    by (vm_compute; reflexivity).
  rewrite Hb0 in Hb. injection Hb as <-. exact (Hsub as_bob [14] [] 5 Positive).
Defined.


Lemma filter_all_or_fewer {A} (p : A → bool) (l : list A) :
  (length (List.filter p l) ≤ length l)%nat ∧
  (length (List.filter p l) = length l ↔ ∀ x, x ∈ l → p x = true).
Proof.
  induction l as [|x l [IHle IHeq]]; simpl.
  - split; [lia|]. split; [|done]. intros _ x Hx. by apply elem_of_nil in Hx.
  - destruct (p x) eqn:Hpx; simpl.
    + split; [lia|]. split.
      * intros Hlen x' [->|Hx']%elem_of_cons; [done|]. apply IHeq; [lia|done].
      * intros Hall. f_equal. apply IHeq. intros x' Hx'. apply Hall. by right.
    + split; [lia|]. split; [lia|].
      intros Hall. rewrite Hall in Hpx; [done|]. by left.
Qed.

Lemma length_entries st g : length (entries st g) = N.to_nat (feedbackCount st g).
Proof. unfold entries. by rewrite length_fmap, length_seq. Qed.

Lemma elem_of_entries st g f :
  f ∈ entries st g ↔ ∃ i, i < feedbackCount st g ∧ f = feedbackAt st g i.
Proof.
  unfold entries. rewrite list_elem_of_fmap. split.
  - intros (j & -> & Hj). apply list_elem_of_In, in_seq in Hj.
    exists (N.of_nat j). split; [lia|done].
  - intros (i & Hi & ->). exists (N.to_nat i). rewrite N2Nat.id. split; [done|].
    apply list_elem_of_In, in_seq. lia.
Qed.

(** X19. The submission counter of a box counts deleted feedback too. In
    every reachable state the [submissionCount] of a stored box equals the
    feedback counter of its id, which no deletion lowers, while the
    [totalSubmissions] of [getBoxStats] counts the entries that still have
    a submission time: it is at most [submissionCount], with equality
    exactly when every entry of the box still has a submission time. *)
Theorem submissionCount_counts_deleted_feedback st a k b :
  reachable st → boxesOf st a !! k = Some b → submissionCount b < 2 ^ 128 →
  submissionCount b = getFeedbackCount (box_id b) st ∧
  ∃ stats, getBoxStats (box_id b) st = Ok stats ∧
    totalSubmissions stats ≤ submissionCount b ∧
    (totalSubmissions stats = submissionCount b ↔
     ∀ i, i < submissionCount b → 0 < submittedAt (feedbackAt st (box_id b) i)).
Proof.
  intros Hreach Hk Hsmall. pose proof (reachable_feedback_wf st Hreach) as Hwf.
  destruct (fwf_boxes st Hwf _ _ _ Hk) as (_ & _ & _ & Hsub & _).
  split; [done|]. rewrite Hsub in *. set (g := box_id b) in *.
  exists (specBoxStats st g). split.
  { apply getBoxStats_spec; [by apply reachable_rating|done]. }
  unfold specBoxStats; simpl.
  destruct (filter_all_or_fewer (λ f, 0 <? submittedAt f) (entries st g)) as [Hle Heq].
  rewrite length_entries in Hle, Heq. unfold len. split; [lia|].
  split.
  - intros Hlen i Hi. apply N.ltb_lt. apply (proj1 Heq); [lia|].
    apply elem_of_entries. by exists i.
  - intros Hall. assert (length (List.filter (λ f, 0 <? submittedAt f) (entries st g))
                         = N.to_nat (feedbackCount st g)) as ->; [|lia].
    apply Heq. intros f (i & Hi & ->)%elem_of_entries. apply N.ltb_lt. by apply Hall.
Qed.

Lemma submissionCount_counts_deleted_feedback_witness :
  ∃ st b stats, boxesOf st alice !! 0%nat = Some b ∧ submissionCount b = 2 ∧
    getBoxStats (box_id b) st = Ok stats ∧ totalSubmissions stats = 1.
Proof.
  set (st := state_after (scenarioB ++ [(as_alice, DeleteFeedback 0 1)])).
  assert (Hreach : reachable st).
  { apply (feedback_run_reachable (scenarioB ++ [(as_alice, DeleteFeedback 0 1)]) init);
      [apply reachable_init | vm_compute; reflexivity]. }
  evar (b : FeedbackBox).
  assert (Hb : boxesOf st alice !! 0%nat = Some b) by (vm_compute; reflexivity).
  assert (Hsmall : submissionCount b < 2 ^ 128) by (vm_compute; reflexivity).
  destruct (submissionCount_counts_deleted_feedback st alice 0%nat b Hreach Hb Hsmall)
    as (_ & stats & Hstats & _ & _).
  exists st, b, stats. split; [exact Hb|]. split; [vm_compute; reflexivity|].
  split; [exact Hstats|].
  assert (Hv : getBoxStats (box_id b) st = Ok (mkBoxStats 1 1 400 1 0 0))
    by (vm_compute; reflexivity).
  rewrite Hv in Hstats. by injection Hstats as <-.
Defined.


Lemma content_handles (content : list euint32) :
  TasksViews.handlesLoop content 0 (length content) (replicate (length content) 0)
  = Ok (TasksViews.toBytes32 <$> content).
Proof. exact (TasksExtra.handlesLoop_copies content [] content eq_refl). Qed.

(** X20. What is submitted is what the owner reads. After a successful
    [submitFeedback] at a positive block time in a reachable state, the
    returned id is the box's previous feedback count, the count has grown
    by one, and [getFeedbackContent] called by the box's owner returns the
    submitted chunks in order with the metadata of the submission: the
    rating as given when the box allows ratings and 0 otherwise, the
    sentiment as given whatever the box's [allowSentiment], the block
    time, unread. The box's submission counter has grown by one and every
    other feedback entry is unchanged. *)
Theorem submitFeedback_round_trip env owner_env g chunks proof r s st st' fid :
  reachable st → 0 < block_timestamp env → msg_sender owner_env = boxOwner st g →
  submitFeedback env g chunks proof r s st = Ok (st', fid) →
  ∃ b, getBoxDetails g st = Ok b ∧ isActive b = true ∧
    fid = getFeedbackCount g st ∧ getFeedbackCount g st' = fid + 1 ∧
    getFeedbackContent owner_env g fid st' =
      Ok (TasksViews.toBytes32 <$> chunks,
          mkFeedbackMetadata fid g (if allowRatings b then r else 0) s
            (block_timestamp env) false (len chunks)) ∧
    getBoxDetails g st' = Ok (with_submissionCount (submissionCount b + 1) b) ∧
    (∀ g' i, (g', i) ≠ (g, fid) → feedbackAt st' g' i = feedbackAt st g' i).
Proof.
  intros Hreach Hts Howner Hsub.
  assert (Hreach' : reachable st').
  { apply (reachable_step st env (SubmitFeedback g chunks proof r s) st' Hreach).
    simpl. by rewrite Hsub. }
  pose proof (reachable_feedback_wf st Hreach) as Hwf.
  pose proof (reachable_feedback_wf st' Hreach') as Hwf'.
  apply submitFeedback_Ok in Hsub
    as (pos & box & Ho & [Hpos Hid]%findFrom_first & Hact & Hn1 & Hn2 & Hr & -> & Hfit & ->).
  set (fid := feedbackCount st g) in *. set (owner := boxOwner st g) in *.
  assert (Hslot : feedbackAt st g fid = zeroFeedback).
  { apply feedbackAt_absent, (fwf_slots st Hwf). lia. }
  rewrite Hslot in *. simpl in *.
  match goal with |- context [getFeedbackCount g ?s] =>
    match s with write_boxes _ _ _ => set (st' := s) in * end end.
  exists box. split.
  { rewrite <- Hid. by apply (details_of_box st owner pos box Hwf Hpos). }
  split; [done|]. split; [done|]. split.
  { unfold getFeedbackCount. subst st'. autorewrite with fbox. by rewrite decide_True. }
  split.
  { unfold getFeedbackContent, onlyBoxOwner.
    assert (boxOwner st' g = owner) as -> by reflexivity.
    rewrite Howner, N.eqb_refl. simpl.
    assert (feedbackAt st' g fid =
            mkFeedback fid g chunks (if allowRatings box then r else 0) s
              (block_timestamp env) false (uint8 (len chunks))) as ->.
    { subst st'. autorewrite with fbox. by rewrite decide_True. }
    simpl. apply N.ltb_lt in Hts as ->. simpl. rewrite content_handles. simpl.
    unfold feedbackMetadata; simpl.
    by rewrite TasksExtra.uint8_small by (unfold MAX_CHUNKS_PER_FEEDBACK in *; lia). }
  split.
  { assert (Hpos' : boxesOf st' owner !! pos
                    = Some (with_submissionCount (submissionCount box + 1) box)).
    { subst st'. autorewrite with fbox. rewrite decide_True by done.
      by rewrite list_lookup_insert_eq by (by eapply lookup_lt_Some). }
    rewrite <- Hid.
    exact (details_of_box st' owner pos _ Hwf' Hpos' Ho). }
  intros g' i Hne. subst st'. autorewrite with fbox.
  rewrite decide_False; [done|congruence].
Qed.

Lemma submitFeedback_round_trip_witness :
  ∃ st', submitFeedback as_bob 0 [21; 22; 23] [] 5 Neutral (state_after scenarioB)
           = Ok (st', 2) ∧
    getFeedbackContent as_alice 0 2 st'
      = Ok ([21; 22; 23], mkFeedbackMetadata 2 0 5 Neutral 1700000600 false 3).
Proof.
  set (st' := state_after
                (scenarioB ++ [(as_bob, SubmitFeedback 0 [21; 22; 23] [] 5 Neutral)])).
  assert (Hts : 0 < block_timestamp as_bob) by (vm_compute; reflexivity).
  assert (Ho : msg_sender as_alice = boxOwner (state_after scenarioB) 0)
    by (vm_compute; reflexivity).
  assert (Hs : submitFeedback as_bob 0 [21; 22; 23] [] 5 Neutral (state_after scenarioB)
               = Ok (st', 2)) by (vm_compute; reflexivity).
  destruct (submitFeedback_round_trip as_bob as_alice 0 [21; 22; 23] [] 5 Neutral _ st' 2
              scenarioB_reachable Hts Ho Hs) as (b & Hb & _ & _ & _ & Hread & _).
  exists st'. split; [exact Hs|]. rewrite Hread.
  evar (b0 : FeedbackBox).
  assert (Hb0 : getBoxDetails 0 (state_after scenarioB) = Ok b0) by (vm_compute; reflexivity).
  rewrite Hb0 in Hb. injection Hb as <-. vm_compute. reflexivity.
Defined.




(** *** The listing of a box *)

Lemma getBoxFeedback_loop_spec st g remaining : ∀ i (metadata : list FeedbackMetadata),
  length (getBoxFeedback_loop st g i remaining metadata) = length metadata ∧
  ∀ j, getBoxFeedback_loop st g i remaining metadata !! j =
    if decide (N.to_nat i ≤ j < N.to_nat i + remaining ∧ j < length metadata)%nat
    then Some (if 0 <? submittedAt (feedbackAt st g (N.of_nat j))
               then feedbackMetadata (feedbackAt st g (N.of_nat j))
               else default blankMetadata (metadata !! j))
    else metadata !! j.
Proof.
  induction remaining as [|n IH]; intros i metadata; simpl.
  - split; [done|]. intros j. rewrite decide_False by lia. done.
  - set (md' := if 0 <? submittedAt (feedbackAt st g i)
                then <[N.to_nat i := feedbackMetadata (feedbackAt st g i)]> metadata
                else metadata).
    assert (Hlen : length md' = length metadata).
    { subst md'. destruct (0 <? _); [apply length_insert|done]. }
    destruct (IH (i + 1) md') as [IHlen IHj]. split; [congruence|].
    intros j. rewrite IHj, Hlen.
    replace (N.to_nat (i + 1)) with (S (N.to_nat i)) by lia.
    destruct (decide (j = N.to_nat i)) as [->|Hne].
    + rewrite decide_False by lia. rewrite N2Nat.id. subst md'.
      destruct (decide (N.to_nat i < length metadata)%nat) as [Hin|Hout].
      * rewrite decide_True by lia. destruct (0 <? submittedAt _).
        -- by rewrite list_lookup_insert_eq.
        -- destruct (lookup_lt_is_Some_2 metadata _ Hin) as [x Hx]. by rewrite Hx.
      * rewrite decide_False by lia. destruct (0 <? submittedAt _); [|done].
        by rewrite list_insert_ge by lia.
    + assert (md' !! j = metadata !! j) as Hsame.
      { subst md'. destruct (0 <? _); [|done]. by rewrite list_lookup_insert_ne. }
      rewrite Hsame.
      destruct (decide (S (N.to_nat i) ≤ j < S (N.to_nat i) + n ∧ j < length metadata)%nat).
      * by rewrite decide_True by lia.
      * by rewrite decide_False by lia.
Qed.

Lemma getBoxFeedback_Ok env g st :
  msg_sender env = boxOwner st g →
  ∃ l, getBoxFeedback env g st = Ok l ∧ len l = feedbackCount st g ∧
    ∀ i, i < feedbackCount st g →
      l !! N.to_nat i = Some (if 0 <? submittedAt (feedbackAt st g i)
                              then feedbackMetadata (feedbackAt st g i) else blankMetadata).
Proof.
  intros Ho. unfold getBoxFeedback, onlyBoxOwner. rewrite Ho, N.eqb_refl. simpl.
  eexists. split; [reflexivity|].
  destruct (getBoxFeedback_loop_spec st g (N.to_nat (feedbackCount st g)) 0
              (replicate (N.to_nat (feedbackCount st g)) blankMetadata)) as [Hlen Hj].
  rewrite length_replicate in *. split; [unfold len; lia|].
  intros i Hi. rewrite Hj. rewrite decide_True by lia. rewrite N2Nat.id.
  by rewrite lookup_replicate_2 by lia.
Qed.

(** X22. [getBoxFeedback] lists one slot per feedback id of the box. A
    caller other than the registered owner of the id is refused with
    "Not box owner"; for the owner the call returns an array as long as
    the box's feedback count in which slot [i] is the metadata of entry
    [i] when that entry has a submission time and an all-zero record when
    it was deleted, so ids and positions agree and a deletion leaves a
    blank slot behind. *)
Theorem getBoxFeedback_lists_every_slot env g st :
  (msg_sender env ≠ boxOwner st g → getBoxFeedback env g st = Revert "Not box owner") ∧
  (msg_sender env = boxOwner st g →
   ∃ l, getBoxFeedback env g st = Ok l ∧ len l = getFeedbackCount g st ∧
     ∀ i, i < getFeedbackCount g st →
       l !! N.to_nat i = Some (if 0 <? submittedAt (feedbackAt st g i)
                               then feedbackMetadata (feedbackAt st g i) else blankMetadata)).
Proof.
  split; [|apply getBoxFeedback_Ok].
  intros Hne. unfold getBoxFeedback, onlyBoxOwner.
  assert ((boxOwner st g =? msg_sender env) = false) as -> by (apply N.eqb_neq; congruence).
  reflexivity.
Qed.

Lemma getBoxFeedback_lists_every_slot_witness :
  getBoxFeedback as_bob 0 (state_after scenarioB) = Revert "Not box owner" ∧
  ∃ l, getBoxFeedback as_alice 0 (state_after scenarioB) = Ok l ∧ len l = 2.
Proof.
  destruct (getBoxFeedback_lists_every_slot as_bob 0 (state_after scenarioB)) as [Hb _].
  destruct (getBoxFeedback_lists_every_slot as_alice 0 (state_after scenarioB)) as [_ Ha].
  split; [apply Hb; vm_compute; discriminate|].
  destruct Ha as (l & Hl & Hlen & _); [vm_compute; reflexivity|].
  exists l. split; [exact Hl|]. rewrite Hlen. vm_compute. reflexivity.
Defined.

(** X23. Deleting feedback blanks the entry and nothing else. After a
    successful [deleteFeedback] in a reachable state the entry has no
    content, no chunks and no submission time but keeps its rating,
    sentiment and read flag; reading, marking or deleting it again reverts
    with "Feedback does not exist"; its slot in [getBoxFeedback] is the
    all-zero record; the feedback count, every box (so also every
    submission counter), every other entry and the decryption rights
    already granted are unchanged. *)
Theorem deleteFeedback_blanks_entry env g i st st' :
  reachable st → deleteFeedback env g i st = Ok st' →
  encryptedContent (feedbackAt st' g i) = [] ∧ chunkCount (feedbackAt st' g i) = 0 ∧
  submittedAt (feedbackAt st' g i) = 0 ∧
  rating (feedbackAt st' g i) = rating (feedbackAt st g i) ∧
  sentiment (feedbackAt st' g i) = sentiment (feedbackAt st g i) ∧
  isRead (feedbackAt st' g i) = isRead (feedbackAt st g i) ∧
  getFeedbackContent env g i st' = Revert "Feedback does not exist" ∧
  markAsRead env g i st' = Revert "Feedback does not exist" ∧
  deleteFeedback env g i st' = Revert "Feedback does not exist" ∧
  (∃ l, getBoxFeedback env g st' = Ok l ∧ l !! N.to_nat i = Some blankMetadata) ∧
  getFeedbackCount g st' = getFeedbackCount g st ∧
  (∀ a, boxesOf st' a = boxesOf st a) ∧
  (∀ g' i', (g', i') ≠ (g, i) → feedbackAt st' g' i' = feedbackAt st g' i') ∧
  acl st' = acl st.
Proof.
  intros Hreach Hdel. pose proof (reachable_feedback_wf st Hreach) as Hwf.
  apply deleteFeedback_Ok in Hdel as (Ho & Hs & ->).
  pose proof (live_entry_is_counted st g i Hwf Hs) as Hi.
  set (f := mkFeedback _ _ _ _ _ _ _ _).
  assert (Hat : feedbackAt (write_feedback g i f st) g i = f).
  { rewrite feedbackAt_write_feedback. by rewrite decide_True. }
  rewrite Hat. simpl.
  repeat match goal with |- _ = _ ∧ _ => split; [reflexivity|] end.
  split. { unfold getFeedbackContent, onlyBoxOwner.
           change (boxOwner (write_feedback g i f st) g) with (boxOwner st g).
           by rewrite Ho, N.eqb_refl, Hat. }
  split. { unfold markAsRead, onlyBoxOwner.
           change (boxOwner (write_feedback g i f st) g) with (boxOwner st g).
           by rewrite Ho, N.eqb_refl, Hat. }
  split. { unfold deleteFeedback, onlyBoxOwner.
           change (boxOwner (write_feedback g i f st) g) with (boxOwner st g).
           by rewrite Ho, N.eqb_refl, Hat. }
  split. { destruct (getBoxFeedback_Ok env g (write_feedback g i f st)) as (l & Hl & _ & Hslots);
             [done|].
           exists l. split; [done|]. rewrite (Hslots i Hi), Hat. done. }
  split; [done|]. split; [done|]. split; [|done].
  intros g' i' Hne. rewrite feedbackAt_write_feedback. rewrite decide_False; [done|congruence].
Qed.

Lemma deleteFeedback_blanks_entry_witness :
  ∃ st', deleteFeedback as_alice 0 1 (state_after scenarioB) = Ok st' ∧
    getFeedbackContent as_alice 0 1 st' = Revert "Feedback does not exist" ∧
    getFeedbackCount 0 st' = 2.
Proof.
  set (st' := state_after (scenarioB ++ [(as_alice, DeleteFeedback 0 1)])).
  assert (Hd : deleteFeedback as_alice 0 1 (state_after scenarioB) = Ok st')
    by (vm_compute; reflexivity).
  destruct (deleteFeedback_blanks_entry as_alice 0 1 _ st' scenarioB_reachable Hd)
    as (_ & _ & _ & _ & _ & _ & Hread & _ & _ & _ & Hcount & _).
  exists st'. split; [exact Hd|]. split; [exact Hread|].
  rewrite Hcount. vm_compute. reflexivity.
Defined.


(** X24. Only the owner edits a box and its feedback. A successful
    transaction of a sender other than [a] leaves every box of [a] as it
    was, except that a submission to an active box of [a] raises that
    box's submission counter by one; and it leaves every feedback entry of
    every box registered to [a] as it was, except that a submission fills
    the first unused slot of the box. *)
Theorem others_cannot_edit env c st st' a :
  exec env c st = Ok st' → a ≠ msg_sender env →
  (∀ k, boxesOf st' a !! k = boxesOf st a !! k ∨
        ∃ b chunks proof r s,
          c = SubmitFeedback (box_id b) chunks proof r s ∧
          boxesOf st a !! k = Some b ∧ isActive b = true ∧
          boxesOf st' a !! k = Some (with_submissionCount (submissionCount b + 1) b)) ∧
  (∀ g i, boxOwner st g = a →
     feedbackAt st' g i = feedbackAt st g i ∨
     ∃ chunks proof r s, c = SubmitFeedback g chunks proof r s ∧ i = feedbackCount st g).
Proof.
  intros H Ha. destruct c; simpl in H.
  - apply bind_Ok in H as ([st1 g] & H & [= <-]). simpl.
    apply createBox_Ok in H as (_ & _ & -> & _ & ->). autorewrite with fbox.
    rewrite decide_False by done. split; intros; by left.
  - apply closeBox_Ok in H as (box & _ & _ & ->).
    rewrite boxesOf_write_boxes, decide_False by done. split; intros; by left.
  - apply reopenBox_Ok in H as (box & _ & _ & ->).
    rewrite boxesOf_write_boxes, decide_False by done. split; intros; by left.
  - apply updateBox_Ok in H as (box & _ & ->).
    rewrite boxesOf_write_boxes, decide_False by done. split; intros; by left.
  - apply bind_Ok in H as ([st1 fid] & H & [= <-]). simpl.
    apply submitFeedback_Ok in H
      as (pos & box & Ho & [Hpos Hid]%findFrom_first & Hact & _ & _ & _ & -> & _ & ->).
    split.
    + intros k. autorewrite with fbox.
      destruct (decide (boxOwner st globalBoxId = a)) as [<-|]; [|by left].
      destruct (decide (pos = k)) as [<-|]; [|left; by rewrite list_lookup_insert_ne].
      right. exists box, encryptedChunks, inputProof, rating_, sentiment_.
      rewrite Hid. split; [done|]. split; [done|]. split; [done|].
      by rewrite list_lookup_insert_eq by (by eapply lookup_lt_Some).
    + intros g i Hg. autorewrite with fbox.
      destruct (decide ((globalBoxId, feedbackCount st globalBoxId) = (g, i)))
        as [[= <- <-]|]; [|by left].
      right. by exists encryptedChunks, inputProof, rating_, sentiment_.
  - apply markAsRead_Ok in H as (Ho & _ & ->). split; [intros; by left|].
    intros g i Hg. left. rewrite feedbackAt_write_feedback.
    rewrite decide_False; [done|]. intros [= -> ->]. congruence.
  - apply deleteFeedback_Ok in H as (Ho & _ & ->). split; [intros; by left|].
    intros g i Hg. left. rewrite feedbackAt_write_feedback.
    rewrite decide_False; [done|]. intros [= -> ->]. congruence.
Qed.

Lemma others_cannot_edit_witness :
  ∃ st', exec as_bob (SubmitFeedback 0 [14] [] 2 Neutral) (state_after scenarioB) = Ok st' ∧
    feedbackAt st' 0 0 = feedbackAt (state_after scenarioB) 0 0 ∧
    feedbackAt st' 0 1 = feedbackAt (state_after scenarioB) 0 1.
Proof.
  set (st' := state_after (scenarioB ++ [(as_bob, SubmitFeedback 0 [14] [] 2 Neutral)])).
  assert (H : exec as_bob (SubmitFeedback 0 [14] [] 2 Neutral) (state_after scenarioB) = Ok st')
    by (vm_compute; reflexivity).
  assert (Hne : alice ≠ msg_sender as_bob) by (vm_compute; discriminate).
  destruct (others_cannot_edit as_bob _ _ st' alice H Hne) as [_ Hf].
  assert (Ho : boxOwner (state_after scenarioB) 0 = alice) by (vm_compute; reflexivity).
  exists st'. split; [exact H|]. split.
  - destruct (Hf 0 0 Ho) as [?|(? & ? & ? & ? & _ & Hi)]; [done|]. by vm_compute in Hi.
  - destruct (Hf 0 1 Ho) as [?|(? & ? & ? & ? & _ & Hi)]; [done|]. by vm_compute in Hi.
Defined.

Lemma exec_settings env c st st' a k b :
  exec env c st = Ok st' → boxesOf st a !! k = Some b →
  ∃ b', boxesOf st' a !! k = Some b' ∧ sameSettings b b' ∧
    submissionCount b ≤ submissionCount b'.
Proof.
  intros H Hk.
  assert (Hsame : sameSettings b b ∧ submissionCount b ≤ submissionCount b)
    by (unfold sameSettings; split; [done|lia]).
  assert (Hedit : ∀ a0 k0 box box',
            boxesOf st a0 !! k0 = Some box → sameSettings box box' →
            submissionCount box ≤ submissionCount box' →
            ∃ b', (if decide (a0 = a) then <[k0 := box']> (boxesOf st a0) else boxesOf st a)
                    !! k = Some b' ∧
              sameSettings b b' ∧ submissionCount b ≤ submissionCount b').
  { intros a0 k0 box box' Hk0 Hs Hc. destruct (decide (a0 = a)) as [->|]; [|by eauto].
    destruct (decide (k0 = k)) as [->|].
    - exists box'. rewrite list_lookup_insert_eq by (by eapply lookup_lt_Some).
      by simplify_eq.
    - exists b. by rewrite list_lookup_insert_ne. }
  destruct c; simpl in H.
  - apply bind_Ok in H as ([st1 g] & H & [= <-]). simpl.
    apply createBox_Ok in H as (_ & _ & -> & _ & ->). autorewrite with fbox.
    exists b. split; [|done]. destruct (decide (msg_sender env = a)) as [->|]; [|done].
    by apply lookup_app_l_Some.
  - apply closeBox_Ok in H as (box & Hbox & _ & ->). rewrite boxesOf_write_boxes.
    apply (Hedit _ _ box); [done | done | simpl; lia].
  - apply reopenBox_Ok in H as (box & Hbox & _ & ->). rewrite boxesOf_write_boxes.
    apply (Hedit _ _ box); [done | done | simpl; lia].
  - apply updateBox_Ok in H as (box & Hbox & ->). rewrite boxesOf_write_boxes.
    apply (Hedit _ _ box); [done | done | simpl; lia].
  - apply bind_Ok in H as ([st1 fid] & H & [= <-]). simpl.
    apply submitFeedback_Ok in H
      as (pos & box & _ & [Hpos _]%findFrom_first & _ & _ & _ & _ & _ & _ & ->).
    autorewrite with fbox. apply (Hedit _ _ box); [done | done | simpl; lia].
  - apply markAsRead_Ok in H as (_ & _ & ->). by exists b.
  - apply deleteFeedback_Ok in H as (_ & _ & ->). by exists b.
Qed.

(** X25. The settings of a box are fixed at creation. Through any
    sequence of successful transactions a stored box stays at its position
    in its owner's array and keeps its global id, its owner, its category,
    its creation time and its [allowRatings] and [allowSentiment]
    switches; its submission counter never decreases. *)
Theorem box_settings_are_fixed txs : ∀ st st' a k b,
  run txs st = Ok st' → boxesOf st a !! k = Some b →
  ∃ b', boxesOf st' a !! k = Some b' ∧ sameSettings b b' ∧
    submissionCount b ≤ submissionCount b'.
Proof.
  induction txs as [|[env c] txs IH]; intros st st' a k b H Hk; simpl in H.
  - injection H as <-. exists b. split; [done|]. unfold sameSettings. split; [done|lia].
  - apply bind_Ok in H as (st1 & Hstep & H).
    destruct (exec_settings env c st st1 a k b Hstep Hk) as (b1 & Hk1 & Hs1 & Hc1).
    destruct (IH st1 st' a k b1 H Hk1) as (b' & Hk' & Hs' & Hc').
    exists b'. split; [done|]. split; [|lia].
    unfold sameSettings in *. intuition congruence.
Qed.

Lemma box_settings_are_fixed_witness :
  ∃ b b', boxesOf (state_after [(as_alice, CreateBox "Team retro" "How did it go" Team true true)])
            alice !! 0%nat = Some b ∧
    boxesOf (state_after scenarioB) alice !! 0%nat = Some b' ∧
    sameSettings b b' ∧ submissionCount b = 0 ∧ submissionCount b' = 2.
Proof.
  set (st := state_after [(as_alice, CreateBox "Team retro" "How did it go" Team true true)]).
  evar (b : FeedbackBox).
  assert (Hb : boxesOf st alice !! 0%nat = Some b) by (vm_compute; reflexivity).
  assert (Hrun : run (tail scenarioB) st = Ok (state_after scenarioB))
    by (vm_compute; reflexivity).
  destruct (box_settings_are_fixed _ _ _ _ _ _ Hrun Hb) as (b' & Hb' & Hs & _).
  exists b, b'. split; [exact Hb|]. split; [exact Hb'|]. split; [exact Hs|].
  split; [vm_compute; reflexivity|].
  evar (b0 : FeedbackBox).
  assert (Hb0 : boxesOf (state_after scenarioB) alice !! 0%nat = Some b0)
    by (vm_compute; reflexivity).
  rewrite Hb0 in Hb'. injection Hb' as <-. vm_compute. reflexivity.
Defined.

(** X26. Stored feedback is well formed and readable by the box's owner.
    In every reachable state an entry below the feedback count of a box
    carries its own position as id and the box's global id, its chunk
    count is the length of its content and at most
    [MAX_CHUNKS_PER_FEEDBACK], the box has a registered owner, and that
    owner holds the decryption right on every handle of the content; the
    slots at and above the feedback count have never been written. *)
Theorem stored_feedback_is_well_formed st g i :
  reachable st →
  (i < getFeedbackCount g st →
     id (feedbackAt st g i) = i ∧ boxId (feedbackAt st g i) = g ∧
     chunkCount (feedbackAt st g i) = len (encryptedContent (feedbackAt st g i)) ∧
     chunkCount (feedbackAt st g i) ≤ MAX_CHUNKS_PER_FEEDBACK ∧
     boxOwner st g ≠ 0 ∧ g < globalBoxCounter st ∧
     ∀ h, h ∈ encryptedContent (feedbackAt st g i) → (h, boxOwner st g) ∈ acl st) ∧
  (getFeedbackCount g st ≤ i → boxFeedback st !! (g, i) = None).
Proof.
  intros Hwf%reachable_feedback_wf. unfold getFeedbackCount. split.
  - intros Hi. destruct (fwf_entries st Hwf g i Hi) as (? & ? & ? & ? & ?).
    assert (Ho : boxOwner st g ≠ 0) by (apply (fwf_counts st Hwf); lia).
    repeat (split; [done|]). split; [|done].
    destruct (decide (g < globalBoxCounter st)) as [|Hge]; [done|].
    destruct (fresh_id st g Hwf) as [? _]; [lia|done].
  - apply (fwf_slots st Hwf).
Qed.

Lemma stored_feedback_is_well_formed_witness :
  encryptedContent (feedbackAt (state_after scenarioB) 0 0) = [11; 12] ∧
  bool_decide ((11, alice) ∈ acl (state_after scenarioB)) = true ∧
  boxFeedback (state_after scenarioB) !! (0, 2) = None.
Proof.
  destruct (stored_feedback_is_well_formed (state_after scenarioB) 0 2 scenarioB_reachable)
    as [_ H].
  split; [vm_compute; reflexivity|]. split; [vm_compute; reflexivity|].
  apply H. vm_compute. discriminate.
Defined.


(** *** The statistics of a box *)

Lemma specBoxStats_over st g : specBoxStats st g = statsOver (entries st g).
Proof. reflexivity. Qed.

Lemma len_app {A} (l1 l2 : list A) : len (l1 ++ l2) = len l1 + len l2.
Proof. unfold len. rewrite length_app. lia. Qed.

Lemma count_if_app p l1 l2 : count_if p (l1 ++ l2) = count_if p l1 + count_if p l2.
Proof. unfold count_if. by rewrite List.filter_app, len_app. Qed.

Lemma count_if_cons p x l : count_if p (x :: l) = (if p x then 1 else 0) + count_if p l.
Proof. unfold count_if. simpl. destruct (p x); [rewrite len_cons; lia | lia]. Qed.

Lemma count_if_le p l : count_if p l ≤ len l.
Proof.
  unfold count_if, len. destruct (filter_all_or_fewer p l) as [Hle _]. lia.
Qed.

Lemma sum_ratings_app l1 l2 : sum_ratings (l1 ++ l2) = sum_ratings l1 + sum_ratings l2.
Proof. induction l1 as [|x l1 IH]; simpl; [done|]. unfold sum_ratings in *. simpl. lia. Qed.

Lemma sentiments_partition l :
  count_if (λ f, bool_decide (sentiment f = Positive)) l +
  count_if (λ f, bool_decide (sentiment f = Neutral)) l +
  count_if (λ f, bool_decide (sentiment f = Negative)) l = len l.
Proof.
  induction l as [|x l IH]; [done|]. rewrite !count_if_cons, len_cons.
  destruct (sentiment x); simpl; lia.
Qed.

Lemma sum_ratings_bounds l :
  (∀ f, f ∈ l → 1 ≤ rating f ≤ 5) → len l ≤ sum_ratings l ∧ sum_ratings l ≤ 5 * len l.
Proof.
  induction l as [|x l IH]; intros H; [done|].
  destruct IH as [IH1 IH2]; [intros f Hf; apply H; by right|].
  pose proof (H x (list_elem_of_here _ _)). rewrite len_cons.
  change (sum_ratings (x :: l)) with (rating x + sum_ratings l). lia.
Qed.

(** X27. The statistics of a box are consistent. In every reachable
    state, for a box with fewer than 2^128 feedback ids, [getBoxStats]
    returns statistics in which the three sentiment counts add up to
    [totalSubmissions], the unread count is at most [totalSubmissions],
    [totalSubmissions] is at most the feedback count, and the scaled
    average rating is 0 (no rated entry) or between 100 and 500. *)
Theorem getBoxStats_is_consistent st g :
  reachable st → getFeedbackCount g st < 2 ^ 128 →
  ∃ stats, getBoxStats g st = Ok stats ∧
    positiveCount stats + neutralCount stats + negativeCount stats = totalSubmissions stats ∧
    unreadCount stats ≤ totalSubmissions stats ∧
    totalSubmissions stats ≤ getFeedbackCount g st ∧
    (avgRating stats = 0 ∨ 100 ≤ avgRating stats ≤ 500).
Proof.
  intros Hreach Hsmall. exists (specBoxStats st g). split.
  { apply getBoxStats_spec; [by apply reachable_rating|done]. }
  rewrite specBoxStats_over. unfold statsOver; simpl.
  set (live := List.filter (λ f, 0 <? submittedAt f) (entries st g)).
  set (rated := List.filter (λ f, 0 <? rating f) live).
  split; [apply sentiments_partition|]. split; [apply count_if_le|]. split.
  { unfold getFeedbackCount. destruct (filter_all_or_fewer (λ f, 0 <? submittedAt f)
                                          (entries st g)) as [Hle _].
    rewrite length_entries in Hle. unfold len. fold live in Hle. lia. }
  destruct (0 <? len rated) eqn:Hr; [|by left]. right. apply N.ltb_lt in Hr.
  destruct (sum_ratings_bounds rated) as [Hlo Hhi].
  { intros f Hf. apply list_elem_of_In, filter_In in Hf as [Hf Hpos].
    apply list_elem_of_In in Hf. subst live.
    apply list_elem_of_In, filter_In in Hf as [Hf _].
    apply list_elem_of_In, elem_of_entries in Hf as (i & _ & ->).
    apply N.ltb_lt in Hpos. pose proof (reachable_rating st Hreach g i). lia. }
  split.
  - apply N.div_le_lower_bound; lia.
  - apply N.Div0.div_le_upper_bound; lia.
Qed.

Lemma getBoxStats_is_consistent_witness :
  ∃ stats, getBoxStats 0 (state_after scenarioB) = Ok stats ∧
    positiveCount stats + neutralCount stats + negativeCount stats = totalSubmissions stats ∧
    stats = mkBoxStats 2 2 400 1 0 1.
Proof.
  assert (Hsmall : getFeedbackCount 0 (state_after scenarioB) < 2 ^ 128)
    by (vm_compute; reflexivity).
  destruct (getBoxStats_is_consistent _ 0 scenarioB_reachable Hsmall)
    as (stats & Hstats & Hsum & _).
  exists stats. split; [exact Hstats|]. split; [exact Hsum|].
  assert (Hv : getBoxStats 0 (state_after scenarioB) = Ok (mkBoxStats 2 2 400 1 0 1))
    by (vm_compute; reflexivity).
  rewrite Hv in Hstats. by injection Hstats as <-.
Defined.

Lemma entries_write_feedback st g i f :
  i < feedbackCount st g →
  entries (write_feedback g i f st) g = <[N.to_nat i := f]> (entries st g).
Proof.
  intros Hi. apply list_eq. intros j. unfold entries.
  change (feedbackCount (write_feedback g i f st) g) with (feedbackCount st g).
  destruct (decide (j < N.to_nat (feedbackCount st g))%nat) as [Hj|Hj].
  - destruct (decide (N.to_nat i = j)) as [<-|Hne].
    + rewrite list_lookup_insert_eq by (rewrite length_fmap, length_seq; lia).
      rewrite list_lookup_fmap, lookup_seq_lt by lia. simpl.
      rewrite N2Nat.id, feedbackAt_write_feedback. by rewrite decide_True.
    + rewrite list_lookup_insert_ne by done.
      rewrite !list_lookup_fmap, lookup_seq_lt by lia. simpl.
      rewrite feedbackAt_write_feedback. rewrite decide_False; [done|].
      intros [= Heq]. lia.
  - rewrite lookup_ge_None_2 by (rewrite length_fmap, length_seq; lia).
    rewrite lookup_ge_None_2; [done|]. rewrite length_insert, length_fmap, length_seq. lia.
Qed.

Lemma entries_lookup st g i :
  i < feedbackCount st g → entries st g !! N.to_nat i = Some (feedbackAt st g i).
Proof.
  intros Hi. unfold entries. rewrite list_lookup_fmap, lookup_seq_lt by lia.
  simpl. by rewrite N2Nat.id.
Qed.

Lemma replace_middle {A} (l : list A) k x y :
  l !! k = Some x → ∃ l1 l2, l = l1 ++ x :: l2 ∧ <[k := y]> l = l1 ++ y :: l2.
Proof.
  intros (l1 & l2 & -> & ->)%list_elem_of_split_length. exists l1, l2. split; [done|].
  rewrite insert_app_r_alt, Nat.sub_diag by lia. done.
Qed.

(** The statistics around one live entry [x]. *)
Lemma statsOver_live l1 x l2 :
  (0 <? submittedAt x) = true →
  let s1 := statsOver l1 in let s2 := statsOver l2 in
  totalSubmissions (statsOver (l1 ++ x :: l2)) = totalSubmissions s1 + 1 + totalSubmissions s2 ∧
  unreadCount (statsOver (l1 ++ x :: l2))
    = unreadCount s1 + (if isRead x then 0 else 1) + unreadCount s2 ∧
  positiveCount (statsOver (l1 ++ x :: l2))
    = positiveCount s1 + (if bool_decide (sentiment x = Positive) then 1 else 0)
      + positiveCount s2 ∧
  neutralCount (statsOver (l1 ++ x :: l2))
    = neutralCount s1 + (if bool_decide (sentiment x = Neutral) then 1 else 0)
      + neutralCount s2 ∧
  negativeCount (statsOver (l1 ++ x :: l2))
    = negativeCount s1 + (if bool_decide (sentiment x = Negative) then 1 else 0)
      + negativeCount s2.
Proof.
  intros Hx. unfold statsOver; simpl. rewrite !List.filter_app. simpl. rewrite Hx.
  rewrite !count_if_app, !count_if_cons, len_app, len_cons.
  destruct (isRead x); simpl; repeat split; lia.
Qed.

(** The statistics around one deleted entry [y]. *)
Lemma statsOver_dead l1 y l2 :
  (0 <? submittedAt y) = false →
  let s1 := statsOver l1 in let s2 := statsOver l2 in
  totalSubmissions (statsOver (l1 ++ y :: l2)) = totalSubmissions s1 + totalSubmissions s2 ∧
  unreadCount (statsOver (l1 ++ y :: l2)) = unreadCount s1 + unreadCount s2 ∧
  positiveCount (statsOver (l1 ++ y :: l2)) = positiveCount s1 + positiveCount s2 ∧
  neutralCount (statsOver (l1 ++ y :: l2)) = neutralCount s1 + neutralCount s2 ∧
  negativeCount (statsOver (l1 ++ y :: l2)) = negativeCount s1 + negativeCount s2.
Proof.
  intros Hy. unfold statsOver; simpl. rewrite !List.filter_app. simpl. rewrite Hy.
  rewrite !count_if_app, len_app. repeat split; lia.
Qed.

Lemma avgRating_same_ratings l1 x y l2 :
  (0 <? submittedAt x) = true → (0 <? submittedAt y) = true → rating y = rating x →
  avgRating (statsOver (l1 ++ y :: l2)) = avgRating (statsOver (l1 ++ x :: l2)).
Proof.
  intros Hx Hy Hr. unfold statsOver. cbn [avgRating].
  rewrite !(List.filter_app _ l1). cbn [List.filter]. rewrite Hx, Hy.
  rewrite !(List.filter_app _ (List.filter _ l1)). cbn [List.filter]. rewrite Hr.
  destruct (0 <? rating x); [|done].
  rewrite !len_app, !len_cons, !sum_ratings_app.
  change (sum_ratings (?z :: ?l)) with (rating z + sum_ratings l). by rewrite Hr.
Qed.

(** X28. Marking feedback as read lowers the unread count and nothing
    else. After a successful [markAsRead] in a reachable state, on a box
    with fewer than 2^128 feedback ids, [getBoxStats] succeeds before and
    after; the unread count is lower by one if the entry was unread and
    the same if it was already read; the total, the average rating and the
    sentiment counts are unchanged; and repeating the call succeeds and
    changes nothing. *)
Theorem markAsRead_lowers_unread env g i st st' :
  reachable st → getFeedbackCount g st < 2 ^ 128 → markAsRead env g i st = Ok st' →
  ∃ stats stats', getBoxStats g st = Ok stats ∧ getBoxStats g st' = Ok stats' ∧
    unreadCount stats' + (if isRead (feedbackAt st g i) then 0 else 1) = unreadCount stats ∧
    totalSubmissions stats' = totalSubmissions stats ∧
    avgRating stats' = avgRating stats ∧
    positiveCount stats' = positiveCount stats ∧
    neutralCount stats' = neutralCount stats ∧
    negativeCount stats' = negativeCount stats ∧
    isRead (feedbackAt st' g i) = true ∧
    markAsRead env g i st' = Ok st'.
Proof.
  intros Hreach Hsmall Hmark.
  assert (Hreach' : reachable st')
    by exact (reachable_step st env (MarkAsRead g i) st' Hreach Hmark).
  pose proof (reachable_feedback_wf st Hreach) as Hwf.
  apply markAsRead_Ok in Hmark as (Ho & Hs & Hst').
  pose proof (live_entry_is_counted st g i Hwf Hs) as Hi.
  exists (specBoxStats st g), (specBoxStats st' g).
  split. { apply getBoxStats_spec; [by apply reachable_rating|done]. }
  split. { apply getBoxStats_spec; [by apply reachable_rating|by subst st']. }
  set (x := feedbackAt st g i) in *.
  set (y := mkFeedback (id x) (boxId x) (encryptedContent x) (rating x) (sentiment x)
              (submittedAt x) true (chunkCount x)) in *.
  assert (Hat : feedbackAt st' g i = y).
  { subst st'. rewrite feedbackAt_write_feedback. by rewrite decide_True. }
  rewrite !specBoxStats_over. subst st'. rewrite entries_write_feedback by done.
  destruct (replace_middle (entries st g) (N.to_nat i) x y (entries_lookup st g i Hi))
    as (l1 & l2 & -> & ->).
  apply N.ltb_lt in Hs.
  destruct (statsOver_live l1 x l2 Hs) as (T & U & P & Nu & Ng).
  destruct (statsOver_live l1 y l2 Hs) as (T' & U' & P' & Nu' & Ng').
  rewrite T, U, P, Nu, Ng, T', U', P', Nu', Ng'.
  rewrite (avgRating_same_ratings l1 x y l2 Hs Hs eq_refl). simpl.
  split; [destruct (isRead x); lia|]. repeat (split; [done|]).
  rewrite Hat. split; [done|].
  unfold markAsRead, onlyBoxOwner.
  change (boxOwner (write_feedback g i y st) g) with (boxOwner st g).
  rewrite Ho, N.eqb_refl. simpl. rewrite Hat. simpl. rewrite Hs. simpl. f_equal.
  unfold write_feedback; simpl. f_equal. apply insert_insert_eq.
Qed.

Lemma markAsRead_lowers_unread_witness :
  ∃ st', markAsRead as_alice 0 0 (state_after scenarioB) = Ok st' ∧
    getBoxStats 0 st' = Ok (mkBoxStats 2 1 400 1 0 1).
Proof.
  set (st' := state_after (scenarioB ++ [(as_alice, MarkAsRead 0 0)])).
  assert (Hsmall : getFeedbackCount 0 (state_after scenarioB) < 2 ^ 128)
    by (vm_compute; reflexivity).
  assert (Hm : markAsRead as_alice 0 0 (state_after scenarioB) = Ok st')
    by (vm_compute; reflexivity).
  destruct (markAsRead_lowers_unread as_alice 0 0 _ st' scenarioB_reachable Hsmall Hm)
    as (stats & stats' & _).
  exists st'. split; [exact Hm|]. vm_compute. reflexivity.
Defined.

(** X29. Deleting feedback takes the entry out of the statistics. After a
    successful [deleteFeedback] in a reachable state, on a box with fewer
    than 2^128 feedback ids, [getBoxStats] succeeds before and after; the
    total is lower by one, the unread count is lower by one if the entry
    was unread, and the count of the entry's sentiment is lower by one
    while the two other sentiment counts are unchanged. *)
Theorem deleteFeedback_lowers_totals env g i st st' :
  reachable st → getFeedbackCount g st < 2 ^ 128 → deleteFeedback env g i st = Ok st' →
  ∃ stats stats', getBoxStats g st = Ok stats ∧ getBoxStats g st' = Ok stats' ∧
    totalSubmissions stats' + 1 = totalSubmissions stats ∧
    unreadCount stats' + (if isRead (feedbackAt st g i) then 0 else 1) = unreadCount stats ∧
    positiveCount stats'
      + (if bool_decide (sentiment (feedbackAt st g i) = Positive) then 1 else 0)
      = positiveCount stats ∧
    neutralCount stats'
      + (if bool_decide (sentiment (feedbackAt st g i) = Neutral) then 1 else 0)
      = neutralCount stats ∧
    negativeCount stats'
      + (if bool_decide (sentiment (feedbackAt st g i) = Negative) then 1 else 0)
      = negativeCount stats.
Proof.
  intros Hreach Hsmall Hdel.
  assert (Hreach' : reachable st')
    by exact (reachable_step st env (DeleteFeedback g i) st' Hreach Hdel).
  pose proof (reachable_feedback_wf st Hreach) as Hwf.
  apply deleteFeedback_Ok in Hdel as (Ho & Hs & Hst').
  pose proof (live_entry_is_counted st g i Hwf Hs) as Hi.
  exists (specBoxStats st g), (specBoxStats st' g).
  split. { apply getBoxStats_spec; [by apply reachable_rating|done]. }
  split. { apply getBoxStats_spec; [by apply reachable_rating|by subst st']. }
  set (x := feedbackAt st g i) in *.
  set (y := mkFeedback (id x) (boxId x) [] (rating x) (sentiment x) 0 (isRead x) 0) in *.
  rewrite !specBoxStats_over. subst st'. rewrite entries_write_feedback by done.
  destruct (replace_middle (entries st g) (N.to_nat i) x y (entries_lookup st g i Hi))
    as (l1 & l2 & -> & ->).
  apply N.ltb_lt in Hs.
  destruct (statsOver_live l1 x l2 Hs) as (T & U & P & Nu & Ng).
  destruct (statsOver_dead l1 y l2 eq_refl) as (T' & U' & P' & Nu' & Ng').
  rewrite T, U, P, Nu, Ng, T', U', P', Nu', Ng'. repeat split; lia.
Qed.

Lemma deleteFeedback_lowers_totals_witness :
  ∃ st', deleteFeedback as_alice 0 1 (state_after scenarioB) = Ok st' ∧
    getBoxStats 0 (state_after scenarioB) = Ok (mkBoxStats 2 2 400 1 0 1) ∧
    getBoxStats 0 st' = Ok (mkBoxStats 1 1 400 1 0 0).
Proof.
  set (st' := state_after (scenarioB ++ [(as_alice, DeleteFeedback 0 1)])).
  assert (Hsmall : getFeedbackCount 0 (state_after scenarioB) < 2 ^ 128)
    by (vm_compute; reflexivity).
  assert (Hd : deleteFeedback as_alice 0 1 (state_after scenarioB) = Ok st')
    by (vm_compute; reflexivity).
  destruct (deleteFeedback_lowers_totals as_alice 0 1 _ st' scenarioB_reachable Hsmall Hd)
    as (stats & stats' & _).
  exists st'. split; [exact Hd|]. split; vm_compute; reflexivity.
Defined.


(** X30. What [getFeedbackContent] answers. In a reachable state the call
    never panics: a caller who is not the registered owner of the box id
    is refused with "Not box owner"; the owner is refused with
    "Feedback does not exist" for an entry without submission time, which
    includes every id at or above the feedback count and every deleted
    entry; otherwise the owner receives the handles of the stored content
    in order, as many as the metadata's chunk count, with the entry's id
    and box id, and the owner holds the decryption right on each handle. *)
Theorem getFeedbackContent_outcome env g i st :
  reachable st →
  if negb (boxOwner st g =? msg_sender env)
  then getFeedbackContent env g i st = Revert "Not box owner"
  else if negb (0 <? submittedAt (feedbackAt st g i))
  then getFeedbackContent env g i st = Revert "Feedback does not exist"
  else i < getFeedbackCount g st ∧
    ∃ handles md, getFeedbackContent env g i st = Ok (handles, md) ∧
      handles = TasksViews.toBytes32 <$> encryptedContent (feedbackAt st g i) ∧
      md = feedbackMetadata (feedbackAt st g i) ∧
      len handles = fm_chunkCount md ∧ fm_id md = i ∧ fm_boxId md = g ∧
      ∀ h, h ∈ encryptedContent (feedbackAt st g i) → (h, msg_sender env) ∈ acl st.
Proof.
  intros Hwf%reachable_feedback_wf. unfold getFeedbackContent, onlyBoxOwner.
  destruct (boxOwner st g =? msg_sender env) eqn:Ho; simpl; [|done].
  destruct (0 <? submittedAt (feedbackAt st g i)) eqn:Hs; simpl; [|done].
  apply N.eqb_eq in Ho. apply N.ltb_lt in Hs.
  pose proof (live_entry_is_counted st g i Hwf Hs) as Hi. split; [done|].
  destruct (fwf_entries st Hwf g i Hi) as (E1 & E2 & E3 & _ & E5).
  rewrite content_handles. simpl. eexists _, _. split; [reflexivity|].
  split; [done|]. split; [done|]. split.
  { unfold len. rewrite length_fmap. simpl. by rewrite E3. }
  split; [done|]. split; [done|]. intros h Hh. rewrite <- Ho. by apply E5.
Qed.

Lemma getFeedbackContent_outcome_witness :
  getFeedbackContent as_bob 0 0 (state_after scenarioB) = Revert "Not box owner" ∧
  getFeedbackContent as_alice 0 2 (state_after scenarioB) = Revert "Feedback does not exist".
Proof.
  split.
  - exact (getFeedbackContent_outcome as_bob 0 0 _ scenarioB_reachable).
  - exact (getFeedbackContent_outcome as_alice 0 2 _ scenarioB_reachable).
Defined.

End FeedbackExtra.

(** ** The rating a submission stores *)

Module FeedbackRatings.
Import Feedback FeedbackViews Scenarios FeedbackFacts FeedbackExtra.

Lemma getBoxDetails_Ok g st box :
  getBoxDetails g st = Ok box →
  boxOwner st g ≠ 0 ∧ ∃ pos, findFrom (boxesOf st (boxOwner st g)) g 0 = Some (pos, box).
Proof.
  unfold getBoxDetails, _findBox. intros H.
  apply bind_Ok in H as ([] & Ho%require_Ok%negb_true_iff%N.eqb_neq & H).
  destruct (findFrom _ _ _) as [[pos box']|]; [|discriminate].
  injection H as <-. split; [done|]. by exists pos.
Qed.

(** A submission that passes every check of [submitFeedback] is stored. *)
Lemma submitFeedback_accepts env g chunks proof r s st pos box :
  boxOwner st g ≠ 0 →
  findFrom (boxesOf st (boxOwner st g)) g 0 = Some (pos, box) →
  isActive box = true →
  0 < len chunks → len chunks ≤ MAX_CHUNKS_PER_FEEDBACK →
  (allowRatings box = true → r ≤ 5) →
  feedbackCount st g + 1 ≤ UINT256_MAX →
  submissionCount box + 1 ≤ UINT256_MAX →
  ∃ st', submitFeedback env g chunks proof r s st = Ok (st', feedbackCount st g) ∧
    rating (feedbackAt st' g (feedbackCount st g)) = (if allowRatings box then r else 0).
Proof.
  intros Ho Hf Hact Hn1 Hn2 Hr Hc Hs.
  unfold submitFeedback, boxIsActive, _findBox.
  apply N.eqb_neq in Ho as ->. simpl. rewrite Hf, Hact. simpl.
  apply N.ltb_lt in Hn1 as ->. apply N.leb_le in Hn2 as ->. simpl.
  assert (Hrate : (if allowRatings box
                   then require (r <=? 5) "Rating must be 0-5";; Ok r
                   else Ok 0) = Ok (if allowRatings box then r else 0)).
  { destruct (allowRatings box); [|done].
    assert ((r <=? 5) = true) as -> by (apply N.leb_le; auto). done. }
  rewrite Hrate. simpl.
  rewrite (TasksExtra.add256_fits (feedbackCount st g) 1) by done. simpl.
  destruct (foldl _ _ chunks) as [cs acl'].
  rewrite (TasksExtra.add256_fits (submissionCount box) 1) by done. simpl.
  eexists. split; [reflexivity|].
  rewrite feedbackAt_write_boxes, feedbackAt_write_acl, feedbackAt_write_feedback.
  by rewrite decide_True.
Qed.



End FeedbackRatings.
